(** * swadr: [swadr.py], embedded and verified

    The development follows [SQLite3CSVImporter] of [src/src/swadr.py]:
    [detect_types], [quote_identifier], [create_table] and [loadfile],
    then [pretty_print_table], [query_split], [metaquery_conversion] and
    the option loop of [cli], as they run on Python 3 ([PYTHON_3] is
    true).

    - A Python 3 [str] is a sequence of Unicode code points ([list N]);
      surrogate code points are ordinary elements of such a sequence, which
      is what [errors="surrogateescape"] relies on.
    - What the interpreter and its libraries decide ([int], [float],
      [str.isalpha], [str.lower], the [\w] class of [re], [repr], the text
      of the engine's error messages, the table an unquoted name denotes,
      the names and declarations the engine refuses in a [CREATE TABLE])
      is gathered in the class [Host]; every statement below holds for all
      hosts.  [ascii_host] is the host restricted to ASCII text, where its
      answers on numbers and character classes are those of CPython; it is
      used to run the code on examples.
    - A file is what the [csv] module makes of it: whether a dialect is
      sniffed and the sample read, the records read from its start, and
      whether the reader ends or raises after them.
    - The connection is an [sqlite3] connection with the default
      transaction control: a transaction is opened before an [INSERT] and
      closed by [commit] or [rollback]; [CREATE TABLE] opens none.
      [cursor.execute] encodes the statement and every bound string as
      UTF-8, and raises UnicodeEncodeError at a surrogate.
    - Code that can raise returns a [result]; code that touches the
      connection or the log runs in the state-and-exception monad [M].
    - What the console code asks of the interpreter ([str.isspace],
      [str.upper], letter matching under [re.IGNORECASE],
      [sqlite3.complete_statement]) is gathered in the class [Console],
      with [ascii_console] to run examples.
    - [pretty_print_table] returns what it writes, turn by turn of its
      printing loop, and the exception that stops it, if any. *)

From Stdlib Require Import String Ascii DecimalString DecimalNat.
From Stdlib Require Import NArith Arith Bool Lia List.
Import ListNotations.

(** ** Strings *)

Definition char := N.
Definition str := list char.

(** [u "text"] is the Python literal ["text"] (ASCII only). *)
Definition u (s : string) : str := map N_of_ascii (list_ascii_of_string s).
Arguments u s%_string.

Definition quote_char : char := 34%N.
Definition underscore : char := 95%N.

Fixpoint str_eqb (a b : str) : bool :=
  match a, b with
  | [], [] => true
  | x :: a', y :: b' => N.eqb x y && str_eqb a' b'
  | _, _ => false
  end.

(** [==] on lists of strings. *)
Fixpoint strs_eqb (a b : list str) : bool :=
  match a, b with
  | [], [] => true
  | x :: a', y :: b' => str_eqb x y && strs_eqb a' b'
  | _, _ => false
  end.

(** [x in xs] for a list of strings. *)
Definition str_in (x : str) (xs : list str) : bool := existsb (str_eqb x) xs.

(** Truth value of a string: the empty string is false. *)
Definition truthy (v : str) : bool :=
  match v with
  | [] => false
  | _ :: _ => true
  end.

(** [str(n)] and ["%d" % n] for a natural number. *)
Definition str_of_nat (n : nat) : str :=
  u (NilEmpty.string_of_uint (Nat.to_uint n)).

(** [sep.join(parts)]. *)
Fixpoint join (sep : str) (parts : list str) : str :=
  match parts with
  | [] => []
  | [p] => p
  | p :: rest => p ++ sep ++ join sep rest
  end.

(** [s.replace(old, new)] for a one-character [old]. *)
Fixpoint replace_char (old : char) (new : str) (s : str) : str :=
  match s with
  | [] => []
  | c :: s' =>
      (if N.eqb c old then new else [c]) ++ replace_char old new s'
  end.

Fixpoint lstrip (p : char -> bool) (s : str) : str :=
  match s with
  | [] => []
  | c :: s' => if p c then lstrip p s' else s
  end.

Definition rstrip (p : char -> bool) (s : str) : str :=
  rev (lstrip p (rev s)).

(** [s.strip(chars)], [p] deciding membership in [chars]. *)
Definition strip (p : char -> bool) (s : str) : str :=
  rstrip p (lstrip p s).

(** [s.startswith(prefix)]. *)
Fixpoint startswith (prefix s : str) : bool :=
  match prefix, s with
  | [], _ => true
  | p :: prefix', c :: s' => N.eqb p c && startswith prefix' s'
  | _ :: _, [] => false
  end.

(** ** Exceptions and results *)

Inductive exc_class :=
| ValueError
| IndexError
| UnicodeEncodeError
| csv_Error
| sqlite3_OperationalError
| sqlite3_ProgrammingError.

(** An exception object: its class and its [args] tuple. *)
Record exception := mkExc { exc_type : exc_class; exc_args : list str }.

Inductive result (A : Type) :=
| Ok (a : A)
| Raise (e : exception).

Arguments Ok {A} a.
Arguments Raise {A} e.

(** What the SQL engine can answer to the two statements the importer
    issues, with what its message names. *)
Inductive sql_error :=
| NoSuchTable (name : str)
| TableExists (name : str)
| DuplicateColumn (name : str)
| SyntaxError
| ColumnCountMismatch (name : str) (columns values : nat)
| BindingCountMismatch (uses supplied : nat).

(** ** The host: interpreter and library decisions *)

Class Host := {
  (** [int(v)] returns (true) or raises (false) *)
  py_int : str -> bool;
  (** [float(v)] returns (true) or raises (false) *)
  py_float : str -> bool;
  (** [char.isalpha()] *)
  py_isalpha : char -> bool;
  (** [char.lower()]; one character may lower to several *)
  py_lower : char -> str;
  (** the class [\w] of the [re] module *)
  re_word : char -> bool;
  (** [repr] of a tuple of strings, for [%r] *)
  py_repr : list str -> str;
  (** the table that the text spliced unquoted after [INSERT INTO]
      denotes, when the statement still parses; [None] when the engine
      refuses the statement for its syntax (a text that the engine reads
      as more than the name of a table, such as a name followed by a list
      of columns, has no answer here: the statements below that depend
      on this function are about names it maps to a table or to
      [None]) *)
  sql_unquoted : str -> option str;
  (** what the engine has against a [CREATE TABLE] of this name with
      these columns (the name and the type text of each), whatever the
      database holds: a name it reserves, a type text that breaks the
      statement, more columns than it takes *)
  sql_create_refusal : str -> list (str * str) -> option exception;
  (** the message of an engine error *)
  sql_message : sql_error -> str
}.

(** ** Text encoding (the casters of TEXT and BLOB) *)

Definition PYTHON_3 : bool := true.

Definition is_surrogate (c : char) : bool :=
  (N.leb 0xD800 c && N.leb c 0xDFFF)%N.

(** The surrogates that [surrogateescape] produces for undecodable bytes
    0x80..0xFF, and the only ones it encodes back. *)
Definition is_escape (c : char) : bool :=
  (N.leb 0xDC80 c && N.leb c 0xDCFF)%N.

(** UTF-8 bytes of a code point that is not a surrogate. *)
Definition utf8_bytes (c : char) : list N :=
  (if c <? 0x80 then [c]
   else if c <? 0x800 then
     [N.lor 0xC0 (N.shiftr c 6); N.lor 0x80 (N.land c 0x3F)]
   else if c <? 0x10000 then
     [N.lor 0xE0 (N.shiftr c 12);
      N.lor 0x80 (N.land (N.shiftr c 6) 0x3F);
      N.lor 0x80 (N.land c 0x3F)]
   else
     [N.lor 0xF0 (N.shiftr c 18);
      N.lor 0x80 (N.land (N.shiftr c 12) 0x3F);
      N.lor 0x80 (N.land (N.shiftr c 6) 0x3F);
      N.lor 0x80 (N.land c 0x3F)])%N.

Inductive error_handler := strict | surrogateescape.

(** [v.encode("utf-8", errors=...)]: [None] is [UnicodeEncodeError]. *)
Fixpoint encode_utf8 (errors : error_handler) (v : str) : option (list N) :=
  match v with
  | [] => Some []
  | c :: v' =>
      if is_surrogate c then
        match errors with
        | strict => None
        | surrogateescape =>
            if is_escape c then
              option_map (cons (c - 0xDC00)%N) (encode_utf8 errors v')
            else None
        end
      else option_map (app (utf8_bytes c)) (encode_utf8 errors v')
  end.

Definition returns {A : Type} (o : option A) : bool :=
  match o with
  | Some _ => true
  | None => false
  end.

(** How many surrogates stand at the head of [s]. *)
Fixpoint surrogate_run (s : str) : nat :=
  match s with
  | c :: s' => if is_surrogate c then S (surrogate_run s') else 0
  | [] => 0
  end.

(** Where the strict UTF-8 codec stops on [s]: the position of the first
    surrogate and the end of the run of surrogates that starts there. *)
Fixpoint encode_failure (pos : nat) (s : str) : option (nat * nat) :=
  match s with
  | [] => None
  | c :: s' =>
      if is_surrogate c then Some (pos, pos + surrogate_run s)
      else encode_failure (S pos) s'
  end.

(** The [UnicodeEncodeError] of that codec.  Its [args] are the
    encoding, the text, the two positions and the reason; the positions
    are numbers, written here in decimal. *)
Definition unicode_encode_error (object : str) (start stop : nat)
  : exception :=
  mkExc UnicodeEncodeError
    [u "utf-8"; object; str_of_nat start; str_of_nat stop;
     u "surrogates not allowed"].

(** Handing the text [s] to the engine, which takes UTF-8: the exception
    raised when it cannot be encoded. *)
Definition encode_check (s : str) : option exception :=
  match encode_failure 0 s with
  | Some (start, stop) => Some (unicode_encode_error s start stop)
  | None => None
  end.

(** The Python 2 alternatives of the type map, on byte strings:
    [unicode(v)] decodes as ASCII, [str(v)] is the identity. *)
Definition py2_unicode (v : str) : bool := forallb (fun c => c <? 0x80)%N v.
Definition py2_str (v : str) : bool := true.

(** ** [zip] of the unpacked [table] *)

(** One round of [zip]: the next element of every row, or [None] as soon
    as one row is exhausted. *)
Fixpoint heads {A : Type} (table : list (list A)) : option (list A) :=
  match table with
  | [] => Some []
  | [] :: _ => None
  | (x :: _) :: rest => option_map (cons x) (heads rest)
  end.

Fixpoint zip_rounds {A : Type} (rounds : nat) (table : list (list A))
  : list (list A) :=
  match rounds with
  | O => []
  | S rounds' =>
      match heads table with
      | Some column => column :: zip_rounds rounds' (map (@tl A) table)
      | None => []
      end
  end.

(** [zip] of the unpacked [table]: no row yields no column; otherwise at
    most as many rounds as the first row is long can succeed. *)
Definition zip_star {A : Type} (table : list (list A)) : list (list A) :=
  match table with
  | [] => []
  | first :: _ => zip_rounds (length first) table
  end.

(** ** [SQLite3CSVImporter.detect_types] *)

Section Importer.
Context {H : Host}.

Definition caster := str -> bool.

Definition typemap : list (str * caster) :=
  [ (u "INTEGER", py_int);
    (u "REAL", py_float);
    (u "TEXT", if PYTHON_3 then (fun v => returns (encode_utf8 strict v))
               else py2_unicode);
    (u "BLOB", if PYTHON_3
               then (fun v => returns (encode_utf8 surrogateescape v))
               else py2_str) ].

(** The inner [for typedef, caster in cls.typemap] loop: the first entry
    whose caster raises on no scanned value; [None] is the loop's [else]. *)
Fixpoint first_typedef (tm : list (str * caster)) (scanned_columns : list str)
  : option str :=
  match tm with
  | [] => None
  | (typedef, cast) :: tm' =>
      if forallb cast scanned_columns then Some typedef
      else first_typedef tm' scanned_columns
  end.

Definition scanned (column : list str) : list str :=
  let rows_with_content := filter truthy column in
  match rows_with_content with
  | [] => [ [] ]
  | _ :: _ => rows_with_content
  end.

Definition could_not_detect (column : list str) : exception :=
  mkExc ValueError [u "Could not detect type of " ++ py_repr column].

(** The outer [for column in zip] over the unpacked [table] loop. *)
Fixpoint detect_columns (columns : list (list str)) : result (list str) :=
  match columns with
  | [] => Ok []
  | column :: rest =>
      match first_typedef typemap (scanned column) with
      | None => Raise (could_not_detect column)
      | Some typedef =>
          match detect_columns rest with
          | Ok typedefs => Ok (typedef :: typedefs)
          | Raise e => Raise e
          end
      end
  end.

Definition detect_types (table : list (list str)) : result (list str) :=
  detect_columns (zip_star table).

End Importer.

(** ** [SQLite3CSVImporter.quote_identifier] *)

Definition quote_identifier (identifier : str) : str :=
  [quote_char]
    ++ replace_char quote_char [quote_char; quote_char] identifier
    ++ [quote_char].

(** How the SQL dialect reads a quoted identifier back: the outer
    delimiters are stripped and every doubled delimiter inside stands for
    one; a single delimiter inside, or a missing outer one, is malformed. *)
Fixpoint unquote_body (s : str) : option str :=
  match s with
  | [] => None
  | c :: s' =>
      if N.eqb c quote_char then
        match s' with
        | [] => Some []
        | d :: s'' =>
            if N.eqb d quote_char
            then option_map (cons quote_char) (unquote_body s'')
            else None
        end
      else option_map (cons c) (unquote_body s')
  end.

Definition unquote_identifier (quoted : str) : option str :=
  match quoted with
  | [] => None
  | c :: s => if N.eqb c quote_char then unquote_body s else None
  end.

(** ** The database connection

    A model of the [sqlite3] connection for the two statements the
    importer issues.  A stored row is the tuple of bound parameters
    ([None] is the SQL null); column affinity and the constraints of a
    table created elsewhere are not modelled.  Names are compared as the
    engine does, ignoring ASCII case.  A statement fails for what its
    text, its parameters and the tables make it fail; a full disk or a
    locked database is not modelled. *)

Record table := mkTable {
  tbl_columns : list (str * str);
  tbl_rows : list (list (option str))
}.

Definition database := list (str * table).

Definition ascii_lower (c : char) : char :=
  (if (65 <=? c) && (c <=? 90) then c + 32 else c)%N.

Definition name_eqb (a b : str) : bool :=
  str_eqb (map ascii_lower a) (map ascii_lower b).

Fixpoint db_find (name : str) (db : database) : option table :=
  match db with
  | [] => None
  | (n, t) :: db' => if name_eqb name n then Some t else db_find name db'
  end.

Fixpoint db_set (name : str) (t : table) (db : database) : database :=
  match db with
  | [] => []
  | (n, t0) :: db' =>
      if name_eqb name n then (n, t) :: db' else (n, t0) :: db_set name t db'
  end.

Fixpoint dup_names (names : list str) : bool :=
  match names with
  | [] => false
  | n :: rest => existsb (name_eqb n) rest || dup_names rest
  end.

(** The first name that an earlier one already is, to the engine. *)
Fixpoint first_dup (seen names : list str) : str :=
  match names with
  | [] => []
  | n :: rest =>
      if existsb (name_eqb n) seen then n else first_dup (seen ++ [n]) rest
  end.

(** The statements of the importer, as the engine understands them. *)
Inductive statement :=
| CreateTable (if_not_exists : bool) (name : str) (cols : list (str * str))
| InsertInto (target : str) (binds : nat).

(** The connection: the database as the connection sees it, and, while a
    transaction is open, the database it started from.  This is the
    default transaction control of [sqlite3.connect]: a transaction is
    opened implicitly before a data-modifying statement ([INSERT]), and no
    transaction is opened for other statements, so a [CREATE TABLE] issued
    while no transaction is open takes effect at once. *)
Record connection := mkConn {
  live : database;
  snapshot : option database
}.

Definition begin (c : connection) : connection :=
  match snapshot c with
  | Some _ => c
  | None => mkConn (live c) (Some (live c))
  end.

Definition commit (c : connection) : connection := mkConn (live c) None.

Definition rollback (c : connection) : connection :=
  match snapshot c with
  | Some db => mkConn db None
  | None => c
  end.

(** What is persisted: what the connection sees once no transaction is
    open. *)
Definition idle (c : connection) : Prop := snapshot c = None.

(** ** State, exceptions and the [with] statement *)

Record world := mkWorld {
  dbc : connection;
  (** every statement text handed to [cursor.execute], latest first *)
  sent : list str;
  (** the exceptions given to [logging.warning], latest first (what is
      written to the log is [str(e)], which for a UnicodeEncodeError is
      made from its fields and not from its [args]) *)
  warnings : list exception
}.

Definition M (A : Type) : Type := world -> result A * world.

Definition ret {A : Type} (a : A) : M A := fun w => (Ok a, w).

Definition raise {A : Type} (e : exception) : M A := fun w => (Raise e, w).

Definition bind {A B : Type} (m : M A) (k : A -> M B) : M B :=
  fun w =>
    match m w with
    | (Ok a, w') => k a w'
    | (Raise e, w') => (Raise e, w')
    end.

Declare Scope py_scope.
Delimit Scope py_scope with py.
Notation "x <- m ;; k" := (bind m (fun x => k))
  (at level 61, m at next level, right associativity) : py_scope.
Notation "m ;;; k" := (bind m (fun _ => k))
  (at level 61, right associativity) : py_scope.

(** [try: m except Exception as e: ...]: the exception becomes a value. *)
Definition try {A : Type} (m : M A) : M (result A) :=
  fun w => let (r, w') := m w in (Ok r, w').

(** [with self.dbc: body] commits when the body returns and rolls back
    when it raises, then lets the exception through. *)
Definition with_dbc {A : Type} (body : M A) : M A :=
  fun w =>
    match body w with
    | (Ok a, w') => (Ok a, mkWorld (commit (dbc w')) (sent w') (warnings w'))
    | (Raise e, w') =>
        (Raise e, mkWorld (rollback (dbc w')) (sent w') (warnings w'))
    end.

Definition logging_warning (e : exception) : M unit :=
  fun w => (Ok tt, mkWorld (dbc w) (sent w) (e :: warnings w)).

Inductive pyvalue :=
| PyNone
| PyInt (n : nat).

Section Engine.
Context {H : Host}.

Definition sql_exception (e : sql_error) : exception :=
  mkExc (match e with
         | BindingCountMismatch _ _ => sqlite3_ProgrammingError
         | _ => sqlite3_OperationalError
         end) [sql_message e].

(** [CREATE TABLE]: the engine's own objections come first; a table of
    that name is left as it is under [IF NOT EXISTS]; two columns may
    not have one name. *)
Definition run_create (if_not_exists : bool) (name : str)
  (cols : list (str * str)) (db : database) : exception + database :=
  match cols with
  | [] => inl (sql_exception SyntaxError)
  | _ :: _ =>
      match sql_create_refusal name cols with
      | Some e => inl e
      | None =>
          match db_find name db with
          | Some _ =>
              if if_not_exists then inr db
              else inl (sql_exception (TableExists name))
          | None =>
              if dup_names (map fst cols)
              then inl (sql_exception
                          (DuplicateColumn (first_dup [] (map fst cols))))
              else inr (db ++ [(name, mkTable cols [])])
          end
      end
  end.

(** Binding the parameters: a string goes to the engine as UTF-8, a
    [None] as null. *)
Fixpoint bind_failure (parameters : list (option str)) : option exception :=
  match parameters with
  | [] => None
  | None :: rest => bind_failure rest
  | Some s :: rest =>
      match encode_check s with
      | Some e => Some e
      | None => bind_failure rest
      end
  end.

(** Compiling an [INSERT INTO target VALUES (?, ..., ?)]: the table it
    names must exist and have as many columns as there are marks. *)
Definition prepare_insert (target : str) (binds : nat) (db : database)
  : sql_error + str :=
  match sql_unquoted target with
  | None => inl SyntaxError
  | Some name =>
      match binds with
      | O => inl SyntaxError
      | S _ =>
          match db_find name db with
          | None => inl (NoSuchTable name)
          | Some t =>
              if length (tbl_columns t) =? binds then inr name
              else inl (ColumnCountMismatch name (length (tbl_columns t))
                                            binds)
          end
      end
  end.

Definition add_row (row : list (option str)) (name : str) (db : database)
  : database :=
  match db_find name db with
  | Some t => db_set name (mkTable (tbl_columns t) (tbl_rows t ++ [row])) db
  | None => db
  end.

(** A compiled [INSERT] opens the transaction, then the number of
    parameters is compared with the number of marks, then the parameters
    are bound one after the other, then the row is stored. *)
Definition run_statement (s : statement) (parameters : list (option str))
  (c : connection) : result unit * connection :=
  match s with
  | CreateTable if_not_exists name cols =>
      match run_create if_not_exists name cols (live c) with
      | inl e => (Raise e, c)
      | inr db => (Ok tt, mkConn db (snapshot c))
      end
  | InsertInto target binds =>
      match prepare_insert target binds (live c) with
      | inl e => (Raise (sql_exception e), c)
      | inr name =>
          let c' := begin c in
          if length parameters =? binds then
            match bind_failure parameters with
            | Some e => (Raise e, c')
            | None =>
                (Ok tt,
                 mkConn (add_row parameters name (live c')) (snapshot c'))
            end
          else
            (Raise (sql_exception
                      (BindingCountMismatch binds (length parameters))), c')
      end
  end.

(** [cursor.execute(sql, parameters)]: [sql] is the text the code builds,
    [meaning] the statement that text is to the engine.  The text is
    encoded before the engine sees it. *)
Definition cursor_execute (sql : str) (meaning : statement)
  (parameters : list (option str)) : M unit :=
  fun w =>
    match encode_check sql with
    | Some e => (Raise e, mkWorld (dbc w) (sql :: sent w) (warnings w))
    | None =>
        let (r, c) := run_statement meaning parameters (dbc w) in
        (r, mkWorld c (sql :: sent w) (warnings w))
    end.

End Engine.

(** ** [SQLite3CSVImporter.create_table] *)

(** The flag constants of [re]. *)
Definition re_M : N := 8.
Definition re_U : N := 32.

Section CreateTable.
Context {H : Host}.

(** [re.sub("\W+", "_", s, count)]: the leftmost [count] maximal runs of
    characters outside [\w] are each replaced by one underscore; a [count]
    of zero replaces them all.  [budget] is what is left of [count]
    ([None]: no limit), [in_run] tells that the previous character belonged
    to a run that has been replaced. *)
Fixpoint sub_runs (budget : option nat) (in_run : bool) (s : str) : str :=
  match s with
  | [] => []
  | c :: s' =>
      if re_word c then c :: sub_runs budget false s'
      else if in_run then sub_runs budget true s'
      else
        match budget with
        | None => underscore :: sub_runs None true s'
        | Some (S k) => underscore :: sub_runs (Some k) true s'
        | Some O => c :: s'
        end
  end.

Definition re_sub_nonword (s : str) (count : N) : str :=
  sub_runs (if N.eqb count 0 then None else Some (N.to_nat count)) false s.

(** [re.sub("\W+", "_", column, re.M | re.U).strip("_")]: the fourth
    positional parameter of [re.sub] is [count]. *)
Definition word_column_of (column : str) : str :=
  strip (N.eqb underscore) (re_sub_nonword column (N.lor re_M re_U)).

(** The loop [while column in _columns]; [fuel] bounds its iterations. *)
Fixpoint dedup (fuel : nat) (word_column : str) (_columns : list str)
  (base : nat) (column : str) : str :=
  match fuel with
  | O => column
  | S fuel' =>
      if str_in column _columns then
        dedup fuel' word_column _columns (S base)
          (word_column ++ u "_" ++ str_of_nat (S base))
      else column
  end.

(** The loop [for column in columns], [_columns] being the names appended
    so far.  The inner loop tries [length _columns + 1] distinct names at
    most, so that much fuel never runs out. *)
Fixpoint restrict_columns (columns : list str) (_columns : list str)
  : list str :=
  match columns with
  | [] => _columns
  | column :: rest =>
      let word_column := word_column_of column in
      let column' :=
        dedup (S (length _columns)) word_column _columns 1 word_column in
      restrict_columns rest (_columns ++ [column'])
  end.

(** The [for char in tablename] loop with its [else]. *)
Definition column_prefix (tablename : str) : str :=
  match find py_isalpha tablename with
  | Some char => py_lower char
  | None => u "n"
  end.

(** [columns] after the first [if]: the endless generator
    [char + str(n) for n in itertools.count(1)], or the restricted list. *)
Inductive column_names :=
| Generated (char : str)
| Listed (names : list str).

(** [zip(columns, types)]. *)
Definition zip_columns (columns : column_names) (types : list str)
  : list (str * str) :=
  match columns with
  | Listed names => combine names types
  | Generated char =>
      combine (map (fun n => char ++ str_of_nat n) (seq 1 (length types)))
              types
  end.

Definition name_columns (tablename : str) (columns : option (list str))
  : column_names :=
  match columns with
  | None | Some [] => Generated (column_prefix tablename)
  | Some (c :: cs) => Listed (restrict_columns (c :: cs) [])
  end.

Definition newline : str := [10%N].

(** The text of the statement, lines 126 to 132. *)
Definition create_table_sql (tablename : str) (pairs : list (str * str))
  (if_not_exists : bool) : str :=
  let table := quote_identifier tablename in
  let body :=
    join (u "," ++ newline ++ u "  ")
         (map (fun ct => quote_identifier (fst ct) ++ u " " ++ snd ct) pairs) in
  let infix := if if_not_exists then u "IF NOT EXISTS " else [] in
  u "CREATE TABLE " ++ infix ++ table ++ u " (" ++ newline ++ u "  "
    ++ body ++ newline ++ u ")".

Definition create_table (tablename : str) (types : list str)
  (columns : option (list str)) (if_not_exists : bool) : M unit :=
  let columns := name_columns tablename columns in
  match types with
  | [] => raise (mkExc ValueError [u "Must specify types."])
  | _ :: _ =>
      let pairs := zip_columns columns types in
      cursor_execute (create_table_sql tablename pairs if_not_exists)
                     (CreateTable if_not_exists tablename pairs) []
  end.

End CreateTable.

(** ** [SQLite3CSVImporter.loadfile] *)

(** The importer object: [self.dbc] lives in the [world]. *)
Record importer := mkImporter {
  ignore_errors : bool;
  log_warnings : bool
}.

(** What the [csv] module makes of the file.  [sniffs]: lines 151 to 168
    raise no [csv.Error], that is [Sniffer.sniff] finds a dialect in the
    first lines and a reader of that dialect yields the sample, the first
    twenty records or all of them when there are fewer.  [records]: the
    records that the reader yields from the start of the file.
    [reader_fails]: having yielded them the reader raises [csv.Error]
    instead of ending, as it does at a field over the size limit (when
    [sniffs] holds, twenty records or more came before).  [csv_message]:
    the message of the [csv.Error], if one is raised. *)
Record csv_file := mkCsv {
  sniffs : bool;
  records : list (list str);
  reader_fails : bool;
  csv_message : str
}.

(** A file that the reader reads to its end. *)
Definition mkFile (sniffs : bool) (records : list (list str)) : csv_file :=
  mkCsv sniffs records false (u "Could not determine delimiter").

(** How the iteration over the reader ends. *)
Definition reader_end (file : csv_file) : option exception :=
  if reader_fails file then Some (mkExc csv_Error [csv_message file])
  else None.

Record schema := mkSchema {
  has_header : bool;
  types : list str;
  first_line_number : nat;
  columns : option (list str)
}.

Section LoadFile.
Context {H : Host}.

(** Lines 171 to 188: the schema of the sniffed records. *)
Definition detect_schema (sample_rows : list (list str)) : result schema :=
  match detect_types sample_rows with
  | Raise e => Raise e
  | Ok types_with_row_one =>
      match detect_types (tl sample_rows) with
      | Raise e => Raise e
      | Ok types_sans_row_one =>
          let has_header :=
            negb (strs_eqb types_sans_row_one types_with_row_one) in
          let types :=
            match types_sans_row_one with
            | [] => types_with_row_one
            | _ :: _ => types_sans_row_one
            end in
          if has_header then
            match sample_rows with
            | first :: _ => Ok (mkSchema true types 2 (Some first))
            | [] => Raise (mkExc IndexError [u "list index out of range"])
            end
          else Ok (mkSchema false types 1 None)
      end
  end.

(** The rows that [rowgen] yields.  On Python 3 the sample reader reads
    the file object itself, which line 172 rewinds: it starts over at the
    first record, [next] takes the header off when there is one, and it
    runs to the end of the file, leaving nothing to the stream reader. *)
Definition rowgen (file : csv_file) (has_header : bool) : list (list str) :=
  if has_header then tl (records file) else records file.

(** [[val if val else None for val in row]]. *)
Definition parameters_of (row : list str) : list (option str) :=
  map (fun val => if truthy val then Some val else None) row.

(** Lines 215 to 218: the place of the failure is appended to the last
    argument of the exception. *)
Definition annotate (e : exception) (filename : str) (lineno : nat)
  : exception :=
  let args := match exc_args e with [] => [ [] ] | _ :: _ => exc_args e end in
  let suffix :=
    u " (" ++ filename ++ u ", row " ++ str_of_nat lineno ++ u ") " in
  mkExc (exc_type e) (removelast args ++ [last args [] ++ suffix]).

(** The loop of lines 206 to 224 over [enumerate(rowgen, lineno)];
    [ending] is the exception with which [rowgen] stops, if it does not
    just run out: it is raised by the [for] statement, outside the [try]
    of the body. *)
Fixpoint insert_rows (self : importer) (filename : str) (query : str)
  (tablename : str) (binds : nat) (ending : option exception) (lineno : nat)
  (rows : list (list str)) : M unit :=
  match rows with
  | [] =>
      match ending with
      | Some e => raise e
      | None => ret tt
      end
  | row :: rest =>
      let parameters := parameters_of row in
      (r <- try (cursor_execute query (InsertInto tablename binds) parameters) ;;
       match r with
       | Ok _ =>
           insert_rows self filename query tablename binds ending (S lineno)
             rest
       | Raise e =>
           let e' :=
             if negb (ignore_errors self) || log_warnings self
             then annotate e filename lineno else e in
           if negb (ignore_errors self) then raise e'
           else
             (if log_warnings self then logging_warning e' else ret tt) ;;;
             insert_rows self filename query tablename binds ending
               (S lineno) rest
       end)%py
  end.

Definition insert_query (tablename : str) (binds : nat) : str :=
  u "INSERT INTO " ++ tablename ++ u " VALUES ("
    ++ join (u ", ") (repeat (u "?") binds) ++ u ")".

(** Lines 190 to 227: the [with self.dbc] block, [rows] being the rows of
    [rowgen] and [ending] how it stops.  The method has no [return]
    statement.  On Python 3 [self.dbc.text_factory] is only ever assigned
    the value it already has, so it is left out of the state. *)
Definition load_rows (self : importer) (filename : str) (tablename : str)
  (create_table_flag : bool) (sch : schema) (sample_rows : list (list str))
  (rows : list (list str)) (ending : option exception) : M pyvalue :=
  (with_dbc
     ((if create_table_flag
       then create_table tablename (types sch) (columns sch) true
       else ret tt) ;;;
      match sample_rows with
      | [] => raise (mkExc IndexError [u "list index out of range"])
      | first :: _ =>
          let binds := length first in
          let query := insert_query tablename binds in
          insert_rows self filename query tablename binds ending
            (first_line_number sch) rows
      end) ;;;
   ret PyNone)%py.

(** [loadfile(filename, tablename, create_table)], [file] being what is
    found at [filename]. *)
Definition loadfile (self : importer) (filename : str) (file : csv_file)
  (tablename : str) (create_table_flag : bool) : M pyvalue :=
  if negb (sniffs file) then raise (mkExc csv_Error [csv_message file])
  else
    let sample_rows := firstn 20 (records file) in
    match detect_schema sample_rows with
    | Raise e => raise e
    | Ok sch =>
        load_rows self filename tablename create_table_flag sch sample_rows
          (rowgen file (has_header sch)) (reader_end file)
    end.

End LoadFile.

(** ** The ASCII host

    CPython's answers on ASCII text.  [int] and [float] take surrounding
    white space and a sign; underscores may stand between two digits;
    [int] refuses more than 4300 digits; [float] also reads [inf],
    [infinity] and [nan] in any case.  Characters beyond ASCII belong to
    no class here.  [repr] is shortened.  The messages are those of the
    engine and of [sqlite3], but for a syntax error, where the engine
    also names the place.  The engine's reading of names and types is a
    stand-in that is right for a plain word outside the engine's reserved
    words; on other text it says no, where the engine may say yes. *)

Definition is_space (c : char) : bool :=
  (N.eqb c 32 || (N.leb 9 c && N.leb c 13))%N.

Definition is_digit (c : char) : bool := (N.leb 48 c && N.leb c 57)%N.

Definition is_upper (c : char) : bool := (N.leb 65 c && N.leb c 90)%N.

Definition is_lower (c : char) : bool := (N.leb 97 c && N.leb c 122)%N.

Definition is_sign (c : char) : bool := (N.eqb c 43 || N.eqb c 45)%N.

Definition drop_sign (s : str) : str :=
  match s with
  | c :: s' => if is_sign c then s' else s
  | [] => []
  end.

(** Every underscore stands between two digits. *)
Fixpoint underscores_ok (prev_digit : bool) (s : str) : bool :=
  match s with
  | [] => true
  | c :: s' =>
      if N.eqb c underscore then
        prev_digit
        && match s' with
           | d :: _ => is_digit d
           | [] => false
           end
        && underscores_ok false s'
      else underscores_ok (is_digit c) s'
  end.

Definition without_underscores (s : str) : str :=
  filter (fun c => negb (N.eqb c underscore)) s.

Definition ascii_int (v : str) : bool :=
  let body := drop_sign (strip is_space v) in
  let digits := without_underscores body in
  underscores_ok false body
  && truthy digits
  && forallb is_digit digits
  && (length digits <=? 4300).

(** The digits at the head of [s]: how many, and what follows them. *)
Fixpoint span_digits (s : str) : nat * str :=
  match s with
  | c :: s' =>
      if is_digit c then let (n, r) := span_digits s' in (S n, r) else (0, s)
  | [] => (0, [])
  end.

(** An exponent, or nothing, up to the end of the text. *)
Definition exponent_ok (s : str) : bool :=
  match s with
  | [] => true
  | c :: s' =>
      if (N.eqb c 101 || N.eqb c 69)%N then
        let (n, r) := span_digits (drop_sign s') in
        (0 <? n) && negb (truthy r)
      else false
  end.

Definition decimal_ok (s : str) : bool :=
  let (n1, r1) := span_digits s in
  match r1 with
  | c :: r2 =>
      if N.eqb c 46 then
        let (n2, r3) := span_digits r2 in (0 <? n1 + n2) && exponent_ok r3
      else (0 <? n1) && exponent_ok r1
  | [] => 0 <? n1
  end.

Definition ascii_float (v : str) : bool :=
  let body := drop_sign (strip is_space v) in
  let folded := map ascii_lower body in
  str_eqb folded (u "inf") || str_eqb folded (u "infinity")
  || str_eqb folded (u "nan")
  || (underscores_ok false body && decimal_ok (without_underscores body)).

Definition ascii_word (c : char) : bool :=
  is_digit c || is_upper c || is_lower c || N.eqb c underscore.

(** Words that the engine does not take for a name when they stand
    unquoted. *)
Definition reserved_words : list str :=
  map u
    [ "add"; "all"; "alter"; "and"; "as"; "autoincrement"; "between";
      "case"; "check"; "collate"; "commit"; "constraint"; "create";
      "default"; "deferrable"; "delete"; "distinct"; "drop"; "else";
      "escape"; "except"; "exists"; "filter"; "foreign"; "from"; "group";
      "having"; "in"; "index"; "indexed"; "insert"; "intersect"; "into";
      "is"; "isnull"; "join"; "limit"; "not"; "nothing"; "notnull";
      "null"; "on"; "or"; "order"; "over"; "primary"; "references";
      "returning"; "select"; "set"; "table"; "then"; "to"; "transaction";
      "union"; "unique"; "update"; "using"; "values"; "when"; "where";
      "window" ]%string.

Definition plain_word (s : str) : bool :=
  match s with
  | c :: _ =>
      negb (is_digit c) && forallb ascii_word s
      && negb (str_in (map ascii_lower s) reserved_words)
  | [] => false
  end.

(** An unquoted table name that is one plain word names that table. *)
Definition plain_name (s : str) : option str :=
  if plain_word s then Some s else None.

Definition ascii_message (e : sql_error) : str :=
  match e with
  | NoSuchTable name => u "no such table: " ++ name
  | TableExists name =>
      u "table " ++ quote_identifier name ++ u " already exists"
  | DuplicateColumn name => u "duplicate column name: " ++ name
  | SyntaxError => u "syntax error"
  | ColumnCountMismatch name columns values =>
      u "table " ++ name ++ u " has " ++ str_of_nat columns
        ++ u " columns but " ++ str_of_nat values
        ++ u " values were supplied"
  | BindingCountMismatch uses supplied =>
      u "Incorrect number of bindings supplied. The current statement uses "
        ++ str_of_nat uses ++ u ", and there are " ++ str_of_nat supplied
        ++ u " supplied."
  end.

(** The engine keeps the names that start with [sqlite_] to itself, takes
    two thousand columns at most, and reads a plain word as a type. *)
Definition ascii_create_refusal (name : str) (cols : list (str * str))
  : option exception :=
  if startswith (u "sqlite_") (map ascii_lower name) then
    Some (mkExc sqlite3_OperationalError
            [u "object name reserved for internal use: " ++ name])
  else if 2000 <? length cols then
    Some (mkExc sqlite3_OperationalError [u "too many columns on " ++ name])
  else if forallb (fun col => plain_word (snd col)) cols then None
  else Some (mkExc sqlite3_OperationalError [ascii_message SyntaxError]).

Definition ascii_host : Host := {|
  py_int := ascii_int;
  py_float := ascii_float;
  py_isalpha := fun c => is_upper c || is_lower c;
  py_lower := fun c => [ascii_lower c];
  re_word := ascii_word;
  py_repr := fun column => u "(" ++ join (u ", ") column ++ u ")";
  sql_unquoted := plain_name;
  sql_create_refusal := ascii_create_refusal;
  sql_message := ascii_message
|}.

(** A connection that has just been opened on an empty database. *)
Definition fresh : world := mkWorld (mkConn [] None) [] [].

(** The file of [test_ignore_errors_True] and [test_ignore_errors_False]:
    a header, twenty rows [1,2,3] and a last row one column short. *)
Definition short_last_row : csv_file :=
  mkFile true
    ([ [u "A"; u "B"; u "C"] ]
       ++ repeat [u "1"; u "2"; u "3"] 20
       ++ [ [u "7"; u "8"] ]).



Definition abc_loaded : world :=
  snd (@loadfile ascii_host (mkImporter true false) (u "f.csv")
         short_last_row (u "A") true fresh).

(** A file with a header and two rows, one with an empty cell. *)
Definition with_empty_cell : csv_file :=
  mkFile true
    [ [u "id"; u "name"; u "age"];
      [u "1"; u ""; u "30"];
      [u "2"; u "Lucy"; u "16"] ].

(** A file of one record. *)
Definition one_record : csv_file := mkFile true [ [u "x"; u "1"] ].

(** The table of [test_detect_types], with a shorter undecodable cell. *)
Definition blob : str := [0xDC80; 0x41; 0xDCFF]%N.

Definition test_table : list (list str) :=
  [ [u "100"; u "Pony"; u "13.37"; blob];
    [u "200"; u "Duck"; u "0.37"; blob];
    [u "300"; u "Grendel"; u "42.1"; blob] ].

(** ** Vocabulary of the statements *)

(** Text as a file opened with [errors="surrogateescape"] yields it: the
    only surrogates are the escapes of undecodable bytes. *)
Definition decoded_char (c : char) : bool :=
  negb (is_surrogate c) || is_escape c.

Definition decoded (v : str) : bool := forallb decoded_char v.

Definition decoded_table (table : list (list str)) : Prop :=
  Forall (fun row => Forall (fun v => decoded v = true) row) table.

(** Valid text under the declared encoding: no surrogate code point. *)
Definition valid_text (v : str) : bool :=
  forallb (fun c => negb (is_surrogate c)) v.

(** The probe set of a column, in the words of the specification: the
    values that are not empty, or one empty string when there is none. *)
Definition probe_set (column : list str) : list str :=
  match filter (fun v => negb (str_eqb v [])) column with
  | [] => [ [] ]
  | v :: vs => v :: vs
  end.

(** The rows of a table, none when the table is absent. *)
Definition rows_of (name : str) (db : database) : list (list (option str)) :=
  match db_find name db with
  | Some t => tbl_rows t
  | None => []
  end.

Definition present (name : str) (db : database) : bool :=
  returns (db_find name db).

(** Appending [rows] to the table [name], in their order. *)
Definition add_rows (rows : list (list (option str))) (name : str)
  (db : database) : database :=
  fold_left (fun db' row => add_row row name db') rows db.

Section Vocabulary.
Context {H : Host}.

(** The type of a column, in the words of the specification. *)
Definition column_type (column : list str) : str :=
  let probe := probe_set column in
  if forallb py_int probe then u "INTEGER"
  else if forallb py_float probe then u "REAL"
  else if forallb valid_text probe then u "TEXT"
  else u "BLOB".

(** [typedef] is the first entry of [tm] whose validator accepts every
    value of [probe]. *)
Definition first_accepting (tm : list (str * caster)) (probe : list str)
  (typedef : str) : Prop :=
  exists before cast after,
    tm = before ++ (typedef, cast) :: after
    /\ forallb cast probe = true
    /\ Forall (fun entry => forallb (snd entry) probe = false) before.

(** The insert of [row] succeeds on the database [db]: the statement
    can be encoded and compiled, the row has as many cells as the
    statement has marks, and every cell is valid text. *)
Definition accepted (tablename : str) (binds : nat) (db : database)
  (row : list str) : bool :=
  valid_text tablename
  && match prepare_insert tablename binds db with
     | inr _ => true
     | inl _ => false
     end
  && (length row =? binds)
  && forallb valid_text row.

(** The rows that the loop leaves in the database when it runs to its
    end. *)
Definition after_inserts (target : str) (binds : nat) (db : database)
  (rows : list (list str)) : database :=
  match prepare_insert target binds db with
  | inr name =>
      add_rows (map parameters_of (filter (accepted target binds db) rows))
               name db
  | inl _ => db
  end.

End Vocabulary.

(** The cells at position [j] of every row, when every row has one. *)
Fixpoint cells_at {A : Type} (j : nat) (table : list (list A))
  : option (list A) :=
  match table with
  | [] => Some []
  | row :: rest =>
      match nth_error row j, cells_at j rest with
      | Some x, Some column => Some (x :: column)
      | _, _ => None
      end
  end.

(** The names that the loop [while column in _columns] goes through:
    the word itself, then the word with [_2], [_3], ... appended. *)
Definition candidate (word_column : str) (base : nat) : str :=
  if base =? 1 then word_column
  else word_column ++ u "_" ++ str_of_nat base.

(** A name with forty-one runs of characters outside [\w]. *)
Definition many_runs : str := concat (repeat (u "a-") 41) ++ u "a".


(** ** Vocabulary of the further statements *)

Section FurtherVocabulary.
Context {H : Host}.

(** The exception with which the insert of [row] fails on the database
    [db], if it does: the statement cannot be encoded, or compiled, or
    the row has another number of cells than the statement has marks, or
    one of its cells cannot be encoded. *)
Definition rejection (target : str) (binds : nat) (db : database)
  (row : list str) : option exception :=
  match encode_check (insert_query target binds) with
  | Some e => Some e
  | None =>
      match prepare_insert target binds db with
      | inl e => Some (sql_exception e)
      | inr _ =>
          if length row =? binds then
            match find (fun val => negb (valid_text val)) row with
            | Some val => encode_check val
            | None => None
            end
          else Some (sql_exception (BindingCountMismatch binds (length row)))
      end
  end.

(** The warnings that the skipped rows give rise to, in row order,
    [lineno] being the line number of the first row. *)
Fixpoint expected_warnings (filename target : str) (binds : nat)
  (db : database) (lineno : nat) (rows : list (list str)) : list exception :=
  match rows with
  | [] => []
  | row :: rest =>
      match rejection target binds db row with
      | Some e =>
          annotate e filename lineno
            :: expected_warnings filename target binds db (S lineno) rest
      | None => expected_warnings filename target binds db (S lineno) rest
      end
  end.

(** The number of maximal runs of characters outside [\w]; [in_run]
    tells that the previous character belonged to such a run. *)
Fixpoint count_runs (in_run : bool) (s : str) : nat :=
  match s with
  | [] => 0
  | c :: s' =>
      if re_word c then count_runs false s'
      else (if in_run then 0 else 1) + count_runs true s'
  end.

End FurtherVocabulary.

(** A table name that is not one plain word, and a file for it. *)
Definition two_words : str := u "my table".

Definition people : csv_file :=
  mkFile true
    [ [u "name"; u "age"];
      [u "Jan"; u "18"];
      [u "Lucy"; u "16"] ].


(** The strict importer failing on the file with a short last row. *)
Definition abc_failed : result pyvalue * world :=
  @loadfile ascii_host (mkImporter false false) (u "f.csv")
    short_last_row (u "A") true fresh.

Definition people_schema : schema :=
  mkSchema true [u "TEXT"; u "INTEGER"] 2 (Some [u "name"; u "age"]).

(** ** The console: more interpreter and library decisions

    What the functions around the importer ask of the interpreter and of
    [sqlite3]: the white space of [str.strip] and of [\s], [str.upper],
    how a letter of a pattern matches under [re.IGNORECASE], and
    [sqlite3.complete_statement]. *)

Class Console := {
  (** [c.isspace()], which is also the class [\s] of [re] and what
      [str.strip()] removes *)
  py_isspace : char -> bool;
  (** [s.upper()] *)
  py_upper : str -> str;
  (** the literal [a] of a pattern matches the character [c] under
      [re.IGNORECASE] *)
  re_icase : char -> char -> bool;
  (** [sqlite3.complete_statement(s)] *)
  complete_statement : str -> bool
}.

(** [s.split(sep)] for a one-character [sep]. *)
Fixpoint split_char (sep : char) (s : str) : list str :=
  match s with
  | [] => [ [] ]
  | c :: s' =>
      if N.eqb c sep then [] :: split_char sep s'
      else
        match split_char sep s' with
        | piece :: pieces => (c :: piece) :: pieces
        | [] => [ [c] ]
        end
  end.

(** [l[j:k]] for [0 <= j] and [0 <= k]. *)
Definition slice {A : Type} (j k : nat) (l : list A) : list A :=
  firstn (k - j) (skipn j l).

(** ** [cli]: the loop over the parsed options (lines 551 to 604) *)

Inductive cli_error :=
| GetoptError (msg : str)
| OptionIndexError.

Definition loglevels : list str :=
  [u "DEBUG"; u "INFO"; u "WARNING"; u "ERROR"; u "CRITICAL"].

(** [l.index(x)]: [None] is [ValueError]. *)
Fixpoint index_of (x : str) (l : list str) : option nat :=
  match l with
  | [] => None
  | y :: l' => if str_eqb x y then Some 0 else option_map S (index_of x l')
  end.

(** The variables of [cli] that the loop sets.  [importer_kwargs] holds
    its two keys together or not at all. *)
Record cli_state := mkCli {
  cli_loglevel : nat;
  cli_database : option str;
  cli_prettify : bool;
  cli_interact : bool;
  cli_table : option str;
  cli_loadfile_args : list (str * str);
  cli_importer_kwargs : option (bool * bool)
}.

Definition cli_start : cli_state :=
  mkCli 2 None false false None [] None.

Section Cli.
Context {C : Console}.

(** One turn of [for option, value in options]. *)
Definition cli_option (st : cli_state) (option value : str)
  : cli_error + cli_state :=
  let '(mkCli loglevel database prettify interact table loadfile_args
              importer_kwargs) := st in
  if startswith (u "--") option then
    if str_eqb option (u "--invalid") then
      if str_in value [u "ignore"; u "warn"; u "fail"] then
        inr (mkCli loglevel database prettify interact table loadfile_args
               (Some (str_in value [u "ignore"; u "warn"],
                      str_eqb value (u "warn"))))
      else inl (GetoptError (u "Invalid value for --invalid"))
    else if str_eqb option (u "--table") then
      inr (mkCli loglevel database prettify interact (Some value)
             loadfile_args importer_kwargs)
    else if str_eqb option (u "--loglevel") then
      match index_of (py_upper value) loglevels with
      | Some level =>
          inr (mkCli level database prettify interact table loadfile_args
                 importer_kwargs)
      | None =>
          inl (GetoptError (u "Invalid log level '" ++ value ++ u "'"))
      end
    else if str_eqb option (u "--pretty") then
      inr (mkCli loglevel database true interact table loadfile_args
             importer_kwargs)
    else if str_eqb option (u "--database") then
      inr (mkCli loglevel (Some value) prettify interact table loadfile_args
             importer_kwargs)
    else inr st
  else if str_in option [u "-v"; u "-q"; u "-i"] then
    if str_eqb option (u "-v") then
      inr (mkCli (loglevel - (if 0 <? loglevel then 1 else 0)) database
             prettify interact table loadfile_args importer_kwargs)
    else if str_eqb option (u "-q") then
      inr (mkCli (loglevel
                  + (if loglevel <? length loglevels - 1 then 1 else 0))
             database prettify interact table loadfile_args importer_kwargs)
    else
      inr (mkCli loglevel database prettify true table loadfile_args
             importer_kwargs)
  else
    (* [table or option[1]] *)
    match (match table with
           | Some (c :: t) => inr (c :: t)
           | _ =>
               match nth_error option 1 with
               | Some letter => inr [letter]
               | None => inl OptionIndexError
               end
           end) with
    | inl e => inl e
    | inr name =>
        inr (mkCli loglevel database prettify interact None
               (loadfile_args ++ [(value, name)]) importer_kwargs)
    end.

Fixpoint cli_options (st : cli_state) (options : list (str * str))
  : cli_error + cli_state :=
  match options with
  | [] => inr st
  | (option, value) :: rest =>
      match cli_option st option value with
      | inl e => inl e
      | inr st' => cli_options st' rest
      end
  end.

(** Lines 601 to 604: the state after the loop, and
    [loglevels[loglevel]]. *)
Definition cli_settings (options : list (str * str))
  : cli_error + (cli_state * str) :=
  match cli_options cli_start options with
  | inl e => inl e
  | inr st =>
      let interact :=
        if negb (cli_interact st) && negb (returns (cli_database st))
        then true else cli_interact st in
      match nth_error loglevels (cli_loglevel st) with
      | Some level =>
          inr (mkCli (cli_loglevel st) (cli_database st) (cli_prettify st)
                 interact (cli_table st) (cli_loadfile_args st)
                 (cli_importer_kwargs st), level)
      | None => inl OptionIndexError
      end
  end.

End Cli.

(** ** [query_split] *)

(** [l] with [sep] between its elements. *)
Fixpoint intersperse {A : Type} (sep : A) (l : list A) : list A :=
  match l with
  | [] => []
  | [x] => [x]
  | x :: rest => x :: sep :: intersperse sep rest
  end.

Definition semicolon : char := 59%N.

(** [re.split("(;)", text)]: the pieces between the semicolons, and the
    semicolons themselves, which the group captures. *)
Definition split_semicolons (text : str) : list str :=
  intersperse [semicolon] (split_char semicolon text).

Section QuerySplit.
Context {C : Console}.

(** The loop [for k in range(length + 1)], [ks] being the values of [k]
    still to come: the queries yielded, and [j] at the end. *)
Fixpoint split_loop (segments : list str) (ks : list nat) (j : nat)
  : list str * nat :=
  match ks with
  | [] => ([], j)
  | k :: ks' =>
      let query := strip py_isspace (concat (slice j k segments)) in
      if truthy query && complete_statement query then
        let (yielded, j') := split_loop segments ks' k in
        (query :: yielded, j')
      else split_loop segments ks' j
  end.

(** What [query_split(text)] yields, in order. *)
Definition query_split (text : str) : list str :=
  let segments := split_semicolons text in
  let length := length segments in
  let (yielded, j) := split_loop segments (seq 0 (length + 1)) 0 in
  yielded
    ++ (if negb (j =? length) then
          let tail := concat (skipn j segments) in
          if truthy (strip py_isspace tail) then [tail] else []
        else []).

End QuerySplit.

(** ** [metaquery_conversion] *)

Definition re_IGNORECASE : N := 2.
Definition re_MULTILINE : N := 8.

Definition backtick : char := 96%N.

Section MetaQuery.
Context {C : Console}.

(** [re.sub("[;\s]+$", "", query, flags)]: the flags stand where
    [re.sub] takes its count, so the pattern is compiled without them.
    A run of semicolons and white space that [$] can follow ends the
    text (the run takes a last newline with it), so there is one match
    at most whatever the positive count: the run that ends the text. *)
Definition strip_terminators (query : str) (count : N) : str :=
  rstrip (fun c => N.eqb c semicolon || py_isspace c) query.

(** A literal of the pattern at the head of [s], under
    [re.IGNORECASE]: what follows it. *)
Fixpoint match_literal (literal s : str) : option str :=
  match literal with
  | [] => Some s
  | a :: literal' =>
      match s with
      | c :: s' => if re_icase a c then match_literal literal' s' else None
      | [] => None
      end
  end.

(** [$] under [re.MULTILINE]: at the end, or before a newline. *)
Definition at_eol (s : str) : bool :=
  match s with
  | [] => true
  | c :: _ => N.eqb c 10
  end.

(** [\s+] followed by [k]: the longest run first, then shorter ones. *)
Fixpoint spaces_then {A : Type} (k : str -> option A) (s : str) : option A :=
  match s with
  | c :: s' =>
      if py_isspace c then
        match spaces_then k s' with
        | Some r => Some r
        | None => k s'
        end
      else None
  | [] => None
  end.

(** [(\S+)$]: the group, the longest run first, then shorter ones. *)
Fixpoint word_eol (s : str) : option str :=
  match s with
  | c :: s' =>
      if py_isspace c then None
      else
        match word_eol s' with
        | Some w => Some (c :: w)
        | None => if at_eol s' then Some [c] else None
        end
  | [] => None
  end.

(** [re.match("DESC(?:RIBE)?\s+(\S+)$", query, flags)]: group 1. *)
Definition match_describe (query : str) : option str :=
  match match_literal (u "DESC") query with
  | None => None
  | Some r =>
      match match_literal (u "RIBE") r with
      | Some r' =>
          match spaces_then word_eol r' with
          | Some w => Some w
          | None => spaces_then word_eol r
          end
      | None => spaces_then word_eol r
      end
  end.

(** [re.match("SHOW\s+CREATE\s+TABLE\s+(\S+)$", query, flags)]. *)
Definition match_show_create (query : str) : option str :=
  match match_literal (u "SHOW") query with
  | None => None
  | Some r =>
      spaces_then
        (fun r1 =>
           match match_literal (u "CREATE") r1 with
           | None => None
           | Some r2 =>
               spaces_then
                 (fun r3 =>
                    match match_literal (u "TABLE") r3 with
                    | None => None
                    | Some r4 => spaces_then word_eol r4
                    end) r2
           end) r
  end.

(** [re.match("SHOW\s+TABLES$", query, flags)]. *)
Definition match_show_tables (query : str) : bool :=
  match match_literal (u "SHOW") query with
  | None => false
  | Some r =>
      returns
        (spaces_then
           (fun r1 =>
              match match_literal (u "TABLES") r1 with
              | Some r2 => if at_eol r2 then Some tt else None
              | None => None
              end) r)
  end.

Definition show_create_query : str :=
  u "SELECT sql || ';' AS `SHOW CREATE TABLE` "
    ++ u "FROM sqlite_master WHERE tbl_name = ? "
    ++ u "COLLATE NOCASE".

Definition show_tables_query : str :=
  u "SELECT tbl_name AS `Tables` "
    ++ u "FROM sqlite_master "
    ++ u "WHERE type = 'table'".

Definition metaquery_conversion (original_query : str)
  (original_params : list str) : str * list str :=
  let flags := N.lor re_IGNORECASE re_MULTILINE in
  let original_query := strip_terminators original_query flags in
  match match_describe original_query with
  | Some name =>
      (u "PRAGMA table_info(" ++ name ++ u ")", original_params)
  | None =>
      match match_show_create original_query with
      | Some table =>
          let table :=
            match table with
            | c :: _ =>
                if N.eqb c backtick || N.eqb c quote_char
                then removelast (tl table) else table
            | [] => table
            end in
          (show_create_query,
           if str_eqb table (u "?") then original_params else [table])
      | None =>
          if match_show_tables original_query
          then (show_tables_query, original_params)
          else (original_query, original_params)
      end
  end.

End MetaQuery.

(** ** The ASCII console

    CPython's white space, upper case and letter matching on ASCII text,
    and the engine's [sqlite3_complete], which is what
    [sqlite3.complete_statement] calls: a scan of the text that skips
    comments, bracketed and quoted text, reads words, and steps through
    the table [complete_table]; the text is complete when the scan ends
    in state 1 (a semicolon was the last token, white space and comments
    apart, and no trigger body is open). *)

Definition ascii_isspace (c : char) : bool :=
  (N.eqb c 32 || (N.leb 9 c && N.leb c 13) || (N.leb 28 c && N.leb c 31))%N.

Definition ascii_upper (c : char) : char :=
  (if (97 <=? c) && (c <=? 122) then c - 32 else c)%N.

Inductive sql_token :=
| tkSEMI
| tkWS
| tkOTHER
| tkEXPLAIN
| tkCREATE
| tkTEMP
| tkTRIGGER
| tkEND.

Definition token_index (token : sql_token) : nat :=
  match token with
  | tkSEMI => 0
  | tkWS => 1
  | tkOTHER => 2
  | tkEXPLAIN => 3
  | tkCREATE => 4
  | tkTEMP => 5
  | tkTRIGGER => 6
  | tkEND => 7
  end.

(** One line per state (0 invalid, 1 start, 2 normal, 3 explain, 4 create,
    5 trigger, 6 semi, 7 end), one entry per token. *)
Definition complete_table : list (list nat) :=
  [ [1; 0; 2; 3; 4; 2; 2; 2];
    [1; 1; 2; 3; 4; 2; 2; 2];
    [1; 2; 2; 2; 2; 2; 2; 2];
    [1; 3; 3; 2; 4; 2; 2; 2];
    [1; 4; 2; 2; 2; 4; 5; 2];
    [6; 5; 5; 5; 5; 5; 5; 5];
    [6; 6; 5; 5; 5; 5; 5; 7];
    [1; 7; 5; 5; 5; 5; 5; 5] ].

Definition trans (state : nat) (token : sql_token) : nat :=
  nth (token_index token) (nth state complete_table []) 0.

(** A character of a word: a letter, a digit, [_], [$], or anything
    outside ASCII. *)
Definition id_char (c : char) : bool :=
  (ascii_word c || N.eqb c 36 || N.leb 128 c)%N.

Definition sql_space (c : char) : bool :=
  (N.eqb c 32 || N.eqb c 13 || N.eqb c 9 || N.eqb c 10 || N.eqb c 12)%N.

Definition keyword_token (word : str) : sql_token :=
  let folded := map ascii_lower word in
  if str_eqb folded (u "create") then tkCREATE
  else if str_eqb folded (u "trigger") then tkTRIGGER
  else if str_eqb folded (u "temp") then tkTEMP
  else if str_eqb folded (u "temporary") then tkTEMP
  else if str_eqb folded (u "end") then tkEND
  else if str_eqb folded (u "explain") then tkEXPLAIN
  else tkOTHER.

(** Where the scan is: in the statement's own text, with the word it is
    reading if any, or inside a comment, brackets or quotes. *)
Inductive lexing :=
| Code (word : option str)
| BlockComment
| LineComment
| Bracket
| Quoted (c : char).

(** The state once the word being read has ended. *)
Definition settle (state : nat) (word : option str) : nat :=
  match word with
  | Some w => trans state (keyword_token w)
  | None => state
  end.

Fixpoint complete_from (mode : lexing) (state : nat) (s : str) : bool :=
  match mode, s with
  | Code word, [] => settle state word =? 1
  | Code word, c :: s' =>
      if id_char c then
        complete_from
          (Code (Some (match word with Some w => w | None => [] end ++ [c])))
          state s'
      else
        let state := settle state word in
        if N.eqb c semicolon then
          complete_from (Code None) (trans state tkSEMI) s'
        else if sql_space c then
          complete_from (Code None) (trans state tkWS) s'
        else if N.eqb c 47 then
          match s' with
          | d :: s'' =>
              if N.eqb d 42 then complete_from BlockComment state s''
              else complete_from (Code None) (trans state tkOTHER) s'
          | [] => complete_from (Code None) (trans state tkOTHER) s'
          end
        else if N.eqb c 45 then
          match s' with
          | d :: s'' =>
              if N.eqb d 45 then complete_from LineComment state s''
              else complete_from (Code None) (trans state tkOTHER) s'
          | [] => complete_from (Code None) (trans state tkOTHER) s'
          end
        else if N.eqb c 91 then complete_from Bracket state s'
        else if (N.eqb c 96 || N.eqb c 34 || N.eqb c 39)%N then
          complete_from (Quoted c) state s'
        else complete_from (Code None) (trans state tkOTHER) s'
  | BlockComment, [] => false
  | BlockComment, c :: s' =>
      match s' with
      | d :: s'' =>
          if (N.eqb c 42 && N.eqb d 47)%N then
            complete_from (Code None) (trans state tkWS) s''
          else complete_from BlockComment state s'
      | [] => false
      end
  | LineComment, [] => state =? 1
  | LineComment, c :: s' =>
      if N.eqb c 10 then complete_from (Code None) (trans state tkWS) s'
      else complete_from LineComment state s'
  | Bracket, [] => false
  | Bracket, c :: s' =>
      if N.eqb c 93 then complete_from (Code None) (trans state tkOTHER) s'
      else complete_from Bracket state s'
  | Quoted q, [] => false
  | Quoted q, c :: s' =>
      if N.eqb c q then complete_from (Code None) (trans state tkOTHER) s'
      else complete_from (Quoted q) state s'
  end.

Definition sqlite3_complete (s : str) : bool := complete_from (Code None) 0 s.

Definition ascii_console : Console := {|
  py_isspace := ascii_isspace;
  py_upper := map ascii_upper;
  re_icase := fun a c => N.eqb (ascii_lower a) (ascii_lower c);
  complete_statement := sqlite3_complete
|}.

(** ** Vocabulary of the statements about [cli] *)

(** An option that names a file to load: not a long option and not one
    of [-v], [-q], [-i]. *)
Definition is_file_option (option : str) : bool :=
  negb (startswith (u "--") option)
  && negb (str_in option [u "-v"; u "-q"; u "-i"]).

(** The table name waiting for the next file, [earlier] being the options
    before it, the nearest first: the value of a [--table] that no file
    option has taken yet. *)
Fixpoint pending_table (earlier : list (str * str)) : option str :=
  match earlier with
  | [] => None
  | (option, value) :: older =>
      if str_eqb option (u "--table") then Some value
      else if is_file_option option then None
      else pending_table older
  end.

(** What the loop of [cli] keeps true of its variables. *)
Definition cli_invariant (st : cli_state) : Prop :=
  cli_loglevel st < length loglevels
  /\ cli_importer_kwargs st <> Some (false, true).

Definition file_options (options : list (str * str)) : list (str * str) :=
  filter (fun ov => is_file_option (fst ov)) options.

(** Some options of a command line. *)
Definition some_options : list (str * str) :=
  [ (u "--table", u "t1"); (u "-A", u "a.csv"); (u "-v", u "");
    (u "-B", u "b.csv"); (u "-v", u ""); (u "-v", u "");
    (u "--invalid", u "fail") ].

(** ** [pretty_print_table] *)

(** A cell of the table: [None], a string, or a number (an [int] or a
    [float], which has no [expandtabs]). *)
Inductive cell :=
| CellNone
| CellStr (s : str)
| CellNumber.

(** The values of [breakafter]: [True], [False], or row numbers. *)
Inductive breakafter_value :=
| BreakTrue
| BreakFalse
| BreakRows (rows : list nat).

Inductive print_error :=
| PrintAttributeError
| PrintValueError
| PrintIndexError
| PrintTypeError.

(** [s.expandtabs(tabsize)], [line_pos] being the column reached. *)
Fixpoint expandtabs (tabsize line_pos : nat) (s : str) : str :=
  match s with
  | [] => []
  | c :: s' =>
      if N.eqb c 9 then
        if 0 <? tabsize then
          let incr := tabsize - line_pos mod tabsize in
          repeat 32%N incr ++ expandtabs tabsize (line_pos + incr) s'
        else expandtabs tabsize line_pos s'
      else
        c :: expandtabs tabsize
               (if N.eqb c 10 || N.eqb c 13 then 0 else S line_pos) s'
  end.

(** The lines of one cell; a number has no [expandtabs]. *)
Definition cell_lines (tabsize : nat) (column : cell)
  : print_error + list str :=
  match column with
  | CellNone => inr (split_char 10%N (u "NULL"))
  | CellStr s => inr (split_char 10%N (expandtabs tabsize 0 s))
  | CellNumber => inl PrintAttributeError
  end.

(** The loop [for column in row]. *)
Fixpoint row_cells (tabsize : nat) (row : list cell)
  : print_error + list (list str) :=
  match row with
  | [] => inr []
  | column :: rest =>
      match cell_lines tabsize column with
      | inl e => inl e
      | inr lines =>
          match row_cells tabsize rest with
          | inl e => inl e
          | inr cells => inr (lines :: cells)
          end
      end
  end.

(** [separate]: a truth value, or [None] here when it is the empty list
    that [breakafter] was, by which no list can be multiplied. *)
Definition separate_of (breakafter : breakafter_value) (rowindex last : nat)
  : option bool :=
  match breakafter with
  | BreakTrue => Some true
  | BreakFalse => Some (rowindex =? last)
  | BreakRows rows =>
      if rowindex =? last then Some true
      else
        match rows with
        | [] => None
        | _ :: _ => Some (existsb (Nat.eqb rowindex) rows)
        end
  end.

(** [l[index] = x]. *)
Fixpoint set_nth {A : Type} (index : nat) (x : A) (l : list A) : list A :=
  match l, index with
  | [], _ => []
  | _ :: l', O => x :: l'
  | y :: l', S index' => y :: set_nth index' x l'
  end.

(** The loop [for index, contents in enumerate(cells)]. *)
Fixpoint fill_columns (initialize : bool) (separate : option bool)
  (row_height index : nat) (cells : list (list str))
  (colwidths : list nat) (table_lines : list (list (option str)))
  : print_error + (list nat * list (list (option str))) :=
  match cells with
  | [] => inr (colwidths, table_lines)
  | contents :: rest =>
      let width := list_max (map (@length char) contents) in
      match (if initialize then inr (colwidths ++ [width])
             else
               match nth_error colwidths index with
               | Some w => inr (set_nth index (Nat.max width w) colwidths)
               | None => inl PrintIndexError
               end) with
      | inl e => inl e
      | inr colwidths' =>
          let table_lines' :=
            if initialize then table_lines ++ [ [None] ] else table_lines in
          let padded :=
            contents ++ repeat [] (row_height - length contents) in
          match nth_error table_lines' index with
          | None => inl PrintIndexError
          | Some lines =>
              match separate with
              | None => inl PrintTypeError
              | Some b =>
                  fill_columns initialize separate row_height (S index) rest
                    colwidths'
                    (set_nth index
                       (lines ++ map Some padded
                          ++ (if b then [None] else []))
                       table_lines')
              end
          end
      end
  end.

(** The loop [for rowindex, row in enumerate(table)], [rows] being the
    rows from [rowindex] on. *)
Fixpoint scan_rows (tabsize : nat) (breakafter : breakafter_value)
  (last rowindex : nat) (rows : list (list cell))
  (colwidths : list nat) (table_lines : list (list (option str)))
  : print_error + (list nat * list (list (option str))) :=
  match rows with
  | [] => inr (colwidths, table_lines)
  | row :: rest =>
      match row_cells tabsize row with
      | inl e => inl e
      | inr cells =>
          let separate := separate_of breakafter rowindex last in
          match cells with
          | [] => inl PrintValueError
          | _ :: _ =>
              let row_height :=
                list_max (map (@length str) cells) in
              let initialize :=
                match table_lines with [] => true | _ :: _ => false end in
              match fill_columns initialize separate row_height 0 cells
                      colwidths table_lines with
              | inl e => inl e
              | inr (colwidths', table_lines') =>
                  scan_rows tabsize breakafter last (S rowindex) rest
                    colwidths' table_lines'
              end
          end
      end
  end.

(** ["%-Ns" % column]. *)
Definition pad (width : nat) (column : option str) : str :=
  let text := match column with Some s => s | None => u "None" end in
  text ++ repeat 32%N (width - length text).

Definition dashes (width : nat) (column : option str) : str :=
  repeat 45%N width.

(** The loop [for index, column in enumerate(row)] that fills
    [printcols]; [None] is the [IndexError] of [colwidths[index]]. *)
Fixpoint print_columns (f : nat -> option str -> str) (colwidths : list nat)
  (index : nat) (row : list (option str)) : option (list str) :=
  match row with
  | [] => Some []
  | column :: rest =>
      match nth_error colwidths index with
      | None => None
      | Some width =>
          option_map (cons (f width column))
                     (print_columns f colwidths (S index) rest)
      end
  end.

(** What the two [print] calls of one turn write, and the exception that
    ends the turn, if any: the first [print] precedes the loop that
    fills [printcols]. *)
Definition print_row (colwidths : list nat) (row : list (option str))
  : str * option print_error :=
  match row with
  | [] => ([], Some PrintIndexError)
  | None :: _ =>
      match print_columns dashes colwidths 0 row with
      | Some printcols =>
          (u "+-" ++ join (u "-+-") printcols ++ u "-+" ++ newline, None)
      | None => (u "+-", Some PrintIndexError)
      end
  | Some _ :: _ =>
      match print_columns pad colwidths 0 row with
      | Some printcols =>
          (u "| " ++ join (u " | ") printcols ++ u " |" ++ newline, None)
      | None => (u "| ", Some PrintIndexError)
      end
  end.

(** The loop over the zipped [table_lines]: what each turn writes, and
    the exception that stops the loop, if any. *)
Fixpoint print_rows (colwidths : list nat) (rows : list (list (option str)))
  : list str * option print_error :=
  match rows with
  | [] => ([], None)
  | row :: rest =>
      match print_row colwidths row with
      | (written, Some e) => ([written], Some e)
      | (line, None) =>
          let (lines, e) := print_rows colwidths rest in (line :: lines, e)
      end
  end.

(** [pretty_print_table(table, breakafter, dest, tabsize)]: what is
    written to [dest], line after line, and the exception raised, if
    any.  A [tabsize] below zero expands tabs as zero does. *)
Definition pretty_print_table (table : list (list cell))
  (breakafter : breakafter_value) (tabsize : nat)
  : list str * option print_error :=
  let last := length table - 1 in
  match scan_rows tabsize breakafter last 0 table [] [] with
  | inl e => ([], Some e)
  | inr (colwidths, table_lines) =>
      print_rows colwidths (zip_star table_lines)
  end.

(** The tables of the tests. *)
Definition abc_table : list (list cell) :=
  [ [CellStr (u "A"); CellStr (u "B"); CellStr (u "C")];
    [CellStr (u "1"); CellStr (u "2"); CellStr (u "3")];
    [CellStr (u "3"); CellStr (u "9"); CellStr (u "27")] ].

Definition multiline_table : list (list cell) :=
  [ [CellStr (u "A"); CellStr (u "B"); CellStr (u "C")];
    [CellStr (u "1");
     CellStr (u "2" ++ [10; 10; 9]%N ++ u "T");
     CellStr (u "3" ++ [10%N] ++ u "  X")];
    [CellStr (u "3"); CellStr (u "9"); CellStr (u "27")] ].

(** The table of the docstring, whose ages are numbers. *)
Definition docstring_table : list (list cell) :=
  [ [CellStr (u "Name"); CellStr (u "Age"); CellStr (u "Favorite Color")];
    [CellStr (u "Bob"); CellNumber; CellStr (u "Blue")];
    [CellStr (u "Rob"); CellNumber; CellStr (u "Red")] ].

(** Vocabulary of the statements on [pretty_print_table]. *)

(** The line that separates rows. *)
Definition border (colwidths : list nat) : str :=
  u "+-" ++ join (u "-+-") (map (fun w => repeat 45%N w) colwidths)
    ++ u "-+" ++ newline.

Definition is_none {A : Type} (o : option A) : bool :=
  match o with
  | Some _ => false
  | None => true
  end.

Definition entry_width (o : option str) : nat :=
  match o with
  | Some s => length s
  | None => 0
  end.

(** No entry of the column is wider than [w]. *)
Definition bounded (w : nat) (col : list (option str)) : Prop :=
  Forall (fun x => entry_width x <= w) col.

(** The state between two rows of a table of [n] columns: every column
    of [table_lines] has the breaks at the same places, starts with one,
    ends with one when [closed], and fits its width. *)
Definition box_state (n : nat) (colwidths : list nat)
  (table_lines : list (list (option str))) (closed : bool) : Prop :=
  length colwidths = n
  /\ Forall2 bounded colwidths table_lines
  /\ exists shape,
       Forall (fun col => map is_none col = true :: shape) table_lines
       /\ (closed = true -> last (true :: shape) false = true).

(** A row of [n] cells none of which is a number. *)
Definition text_row (n : nat) (row : list cell) : Prop :=
  length row = n /\ ~ In CellNumber row.

(** ** Vocabulary of the statements about [loadfile] *)

Section LoadVocabulary.
Context {H : Host}.

(** The columns of a table whose names are generated: the prefix taken
    from the table name and a number from one on, one per type. *)
Definition numbered_columns (tablename : str) (types : list str)
  : list (str * str) :=
  combine (map (fun n => column_prefix tablename ++ str_of_nat n)
               (seq 1 (length types)))
          types.

(** The columns of a table made for a header: the cells of the header
    restricted to word characters and made unique, each with its type;
    generated names when the header has no cell. *)
Definition header_columns (tablename : str) (header types : list str)
  : list (str * str) :=
  match header with
  | [] => numbered_columns tablename types
  | _ :: _ => combine (restrict_columns header []) types
  end.

End LoadVocabulary.


(** A file whose header holds a space and the same name twice. *)
Definition spaced_header : csv_file :=
  mkFile true
    [ [u "first name"; u "a"; u "a"];
      [u "Jan"; u "1"; u "2"];
      [u "Lucy"; u "3"; u "4"] ].

(** A file of one such record. *)
Definition spaced_record : csv_file :=
  mkFile true [ [u "first name"; u "a"; u "a"] ].


(** Cells as [surrogateescape] yields them for the bytes 0xE9 and 0xFF,
    in a file with a header. *)
Definition latin : csv_file :=
  mkFile true
    [ [u "name"; u "age"];
      [u "Ren" ++ [0xDCE9%N]; u "41"];
      [u "Zo" ++ [0xDCFF%N]; u "29"];
      [u "Max"; u "30"] ].

(** The schemas that [loadfile] finds for the files above. *)
Definition spaced_schema : schema :=
  mkSchema true [u "TEXT"; u "INTEGER"; u "INTEGER"] 2
           (Some [u "first name"; u "a"; u "a"]).


(** * Properties *)

(** ** Strings *)

Lemma str_eqb_eq (a b : str) : str_eqb a b = true <-> a = b.
Proof.
  revert b; induction a as [|x a IH]; intros [|y b]; simpl;
    try (split; [discriminate | congruence]); try tauto.
  rewrite andb_true_iff, N.eqb_eq, IH. split.
  - intros [-> ->]; reflexivity.
  - intros E; injection E; auto.
Qed.

Lemma str_eqb_refl (a : str) : str_eqb a a = true.
Proof. apply str_eqb_eq; reflexivity. Qed.

Lemma strs_eqb_eq (a b : list str) : strs_eqb a b = true <-> a = b.
Proof.
  revert b; induction a as [|x a IH]; intros [|y b]; simpl;
    try (split; [discriminate | congruence]); try tauto.
  rewrite andb_true_iff, str_eqb_eq, IH. split.
  - intros [-> ->]; reflexivity.
  - intros E; injection E; auto.
Qed.

Lemma truthy_not_empty (v : str) : truthy v = negb (str_eqb v []).
Proof. destruct v; reflexivity. Qed.

Lemma str_in_In (x : str) (xs : list str) : str_in x xs = true <-> In x xs.
Proof.
  unfold str_in. rewrite existsb_exists. split.
  - intros (y & Hy & E). apply str_eqb_eq in E. subst; assumption.
  - intros Hx. exists x. split; [assumption | apply str_eqb_refl].
Qed.

(** ** Quoting *)

Lemma unquote_body_quoted (identifier : str) :
  unquote_body
    (replace_char quote_char [quote_char; quote_char] identifier
       ++ [quote_char]) = Some identifier.
Proof.
  induction identifier as [|c s IH]; simpl.
  - reflexivity.
  - destruct (N.eqb c quote_char) eqn:E.
    + apply N.eqb_eq in E. subst c. simpl. rewrite IH. reflexivity.
    + simpl. rewrite E, IH. reflexivity.
Qed.

Lemma count_replace_quote (identifier : str) :
  count_occ N.eq_dec
    (replace_char quote_char [quote_char; quote_char] identifier) quote_char
  = 2 * count_occ N.eq_dec identifier quote_char.
Proof.
  induction identifier as [|c s IH]; simpl.
  - reflexivity.
  - destruct (N.eqb c quote_char) eqn:E.
    + apply N.eqb_eq in E. subst c. simpl.
      destruct (N.eq_dec quote_char quote_char) as [_|N]; [|congruence].
      rewrite IH. lia.
    + apply N.eqb_neq in E. simpl.
      destruct (N.eq_dec c quote_char) as [E'|_]; [congruence|].
      exact IH.
Qed.

Lemma replace_all_quotes (n : nat) :
  replace_char quote_char [quote_char; quote_char] (repeat quote_char n)
  = repeat quote_char (2 * n).
Proof.
  induction n as [|n IH]; simpl.
  - reflexivity.
  - rewrite IH. replace (n + S (n + 0)) with (S (2 * n)) by lia.
    reflexivity.
Qed.

(** C7.  [quote_identifier] puts the identifier between two delimiters
    and doubles every delimiter inside it (the quoted text holds twice the
    delimiters of the identifier, and its two outer ones; an identifier
    of [n] delimiters becomes [2n + 2] delimiters), and reading the result
    back by the dialect's rule (outer delimiters stripped, doubled
    delimiters halved) recovers the identifier exactly. *)
Theorem quote_identifier_round_trip (identifier : str) :
  quote_identifier identifier
    = quote_char
        :: replace_char quote_char [quote_char; quote_char] identifier
        ++ [quote_char]
  /\ count_occ N.eq_dec (quote_identifier identifier) quote_char
     = 2 * count_occ N.eq_dec identifier quote_char + 2
  /\ (forall n, quote_identifier (repeat quote_char n)
                = repeat quote_char (2 * n + 2))
  /\ unquote_identifier (quote_identifier identifier) = Some identifier.
Proof.
  repeat split.
  - unfold quote_identifier. simpl.
    destruct (N.eq_dec quote_char quote_char) as [_|N]; [|congruence].
    rewrite count_occ_app, count_replace_quote. simpl.
    destruct (N.eq_dec quote_char quote_char) as [_|N]; [|congruence].
    lia.
  - intros n. unfold quote_identifier. rewrite replace_all_quotes.
    change [quote_char] with (repeat quote_char 1).
    rewrite <- !repeat_app. f_equal. lia.
  - unfold quote_identifier, unquote_identifier. simpl.
    apply unquote_body_quoted.
Qed.

(** ** Encoding *)

Lemma forallb_ext {A : Type} (f g : A -> bool) :
  (forall a, f a = g a) -> forall l, forallb f l = forallb g l.
Proof.
  intros E l. induction l as [|a l IH]; simpl.
  - reflexivity.
  - rewrite E, IH. reflexivity.
Qed.

Lemma returns_option_map {A B : Type} (f : A -> B) (o : option A) :
  returns (option_map f o) = returns o.
Proof. destruct o; reflexivity. Qed.

Lemma encode_strict_returns (v : str) :
  returns (encode_utf8 strict v) = valid_text v.
Proof.
  induction v as [|c v IH]; simpl.
  - reflexivity.
  - destruct (is_surrogate c); simpl.
    + reflexivity.
    + rewrite returns_option_map. exact IH.
Qed.

Lemma encode_escape_returns (v : str) :
  returns (encode_utf8 surrogateescape v) = decoded v.
Proof.
  induction v as [|c v IH]; simpl.
  - reflexivity.
  - unfold decoded_char. destruct (is_surrogate c); simpl.
    + destruct (is_escape c); simpl.
      * rewrite returns_option_map. exact IH.
      * reflexivity.
    + rewrite returns_option_map. exact IH.
Qed.

(** ** Columns of a table *)

Lemma heads_In {A : Type} (table : list (list A)) (column : list A) (v : A) :
  heads table = Some column -> In v column ->
  exists row, In row table /\ In v row.
Proof.
  revert column. induction table as [|row table IH]; simpl; intros column E Hv.
  - injection E as <-. destruct Hv.
  - destruct row as [|x row]; [discriminate|].
    destruct (heads table) as [col|] eqn:Ec; [|discriminate].
    injection E as <-. destruct Hv as [<- | Hv].
    + exists (x :: row). split; [left; reflexivity | left; reflexivity].
    + destruct (IH col eq_refl Hv) as (r & Hr & Hvr).
      exists r. split; [right; assumption | assumption].
Qed.

Lemma zip_rounds_In {A : Type} (rounds : nat) (table : list (list A))
  (column : list A) (v : A) :
  In column (zip_rounds rounds table) -> In v column ->
  exists row, In row table /\ In v row.
Proof.
  revert table. induction rounds as [|n IH]; simpl; intros table Hc Hv.
  - destruct Hc.
  - destruct (heads table) as [col|] eqn:E; [|destruct Hc].
    destruct Hc as [<- | Hc].
    + eapply heads_In; eassumption.
    + destruct (IH _ Hc Hv) as (r & Hr & Hvr).
      apply in_map_iff in Hr. destruct Hr as (row & <- & Hrow).
      exists row. split; [assumption|].
      destruct row; [destruct Hvr | right; exact Hvr].
Qed.

Lemma zip_star_In {A : Type} (table : list (list A)) (column : list A)
  (v : A) :
  In column (zip_star table) -> In v column ->
  exists row, In row table /\ In v row.
Proof.
  unfold zip_star. destruct table as [|first rest].
  - intros [].
  - apply zip_rounds_In.
Qed.

Lemma zip_star_decoded (table : list (list str)) :
  decoded_table table ->
  Forall (fun column => Forall (fun v => decoded v = true) column)
         (zip_star table).
Proof.
  intros Ht. apply Forall_forall. intros column Hc.
  apply Forall_forall. intros v Hv.
  destruct (zip_star_In table column v Hc Hv) as (row & Hrow & Hvr).
  unfold decoded_table in Ht. rewrite Forall_forall in Ht.
  specialize (Ht row Hrow). rewrite Forall_forall in Ht. auto.
Qed.

(** ** The columns that [zip] yields *)

Lemma heads_cells_at {A : Type} (table : list (list A)) :
  heads table = cells_at 0 table.
Proof.
  induction table as [|row rest IH]; simpl; [reflexivity|].
  destruct row as [|x row]; simpl; [reflexivity|].
  rewrite IH. destruct (cells_at 0 rest); reflexivity.
Qed.

Lemma cells_at_tl {A : Type} (j : nat) (table : list (list A)) :
  cells_at j (map (@tl A) table) = cells_at (S j) table.
Proof.
  induction table as [|row rest IH]; simpl; [reflexivity|].
  rewrite IH. destruct row as [|x row]; simpl; [|reflexivity].
  destruct j; reflexivity.
Qed.

Lemma cells_at_none {A : Type} (j : nat) (table : list (list A)) :
  cells_at 0 table = None -> cells_at j table = None.
Proof.
  induction table as [|row rest IH]; simpl; [discriminate|].
  destruct row as [|x row]; simpl.
  - destruct j; reflexivity.
  - destruct (cells_at 0 rest).
    + discriminate.
    + intros _. rewrite (IH eq_refl).
      destruct (nth_error (x :: row) j); reflexivity.
Qed.

Lemma zip_rounds_nth {A : Type} (rounds : nat) :
  forall (table : list (list A)) (j : nat),
    nth_error (zip_rounds rounds table) j
    = if j <? rounds then cells_at j table else None.
Proof.
  induction rounds as [|n IH]; intros table j.
  - destruct j; reflexivity.
  - cbn [zip_rounds]. rewrite heads_cells_at.
    destruct (cells_at 0 table) as [column|] eqn:E.
    + destruct j as [|j]; [exact (eq_sym E)|].
      cbn [nth_error]. rewrite IH, cells_at_tl. reflexivity.
    + rewrite (cells_at_none j table E).
      destruct j; [reflexivity|]. destruct (S j <? S n); reflexivity.
Qed.

(** X2.  The rounds given to [zip_rounds] are enough: a column of the
    zipped table is made of the cells at its position in every row, and
    there is one for every position that all rows have, so the shortest
    row decides the number of columns that [detect_types] scans. *)
Theorem zip_star_nth {A : Type} (first : list A) (rest : list (list A))
  (j : nat) :
  nth_error (zip_star (first :: rest)) j = cells_at j (first :: rest).
Proof.
  unfold zip_star. rewrite zip_rounds_nth.
  destruct (j <? length first) eqn:E; [reflexivity|].
  apply Nat.ltb_ge in E. cbn [cells_at].
  apply nth_error_None in E. rewrite E. reflexivity.
Qed.

(** ** Type detection *)

Lemma scanned_probe_set (column : list str) : scanned column = probe_set column.
Proof.
  unfold scanned, probe_set.
  rewrite (filter_ext truthy (fun v => negb (str_eqb v [])) truthy_not_empty).
  destruct (filter _ column); reflexivity.
Qed.

Lemma probe_set_decoded (column : list str) :
  Forall (fun v => decoded v = true) column ->
  forallb decoded (probe_set column) = true.
Proof.
  intros Hc. unfold probe_set.
  destruct (filter (fun v => negb (str_eqb v [])) column) as [|v vs] eqn:E.
  - reflexivity.
  - apply forallb_forall. intros x Hx. rewrite <- E in Hx.
    apply filter_In in Hx. destruct Hx as [Hx _].
    rewrite Forall_forall in Hc. auto.
Qed.

Section TypeDetection.
Context {H : Host}.

Lemma first_typedef_decoded (probe : list str) :
  forallb decoded probe = true ->
  first_typedef typemap probe
  = Some (if forallb py_int probe then u "INTEGER"
          else if forallb py_float probe then u "REAL"
          else if forallb valid_text probe then u "TEXT"
          else u "BLOB").
Proof.
  intros Hd. unfold typemap, PYTHON_3. cbn [first_typedef].
  destruct (forallb py_int probe); [reflexivity|].
  destruct (forallb py_float probe); [reflexivity|].
  rewrite (forallb_ext _ _ encode_strict_returns probe).
  destruct (forallb valid_text probe); [reflexivity|].
  rewrite (forallb_ext _ _ encode_escape_returns probe), Hd. reflexivity.
Qed.

Lemma detect_columns_decoded (columns : list (list str)) :
  Forall (fun column => Forall (fun v => decoded v = true) column) columns ->
  detect_columns columns = Ok (map column_type columns).
Proof.
  induction 1 as [|column rest Hc _ IH]; cbn [detect_columns map].
  - reflexivity.
  - rewrite scanned_probe_set, (first_typedef_decoded _ (probe_set_decoded _ Hc)).
    rewrite IH. reflexivity.
Qed.

Lemma column_type_first_accepting (column : list str) :
  Forall (fun v => decoded v = true) column ->
  first_accepting typemap (probe_set column) (column_type column).
Proof.
  intros Hc. pose proof (probe_set_decoded _ Hc) as Hd.
  unfold first_accepting, column_type, typemap, PYTHON_3.
  set (probe := probe_set column) in *.
  destruct (forallb py_int probe) eqn:Ei.
  { exists [], py_int. eexists. repeat split; [assumption | constructor]. }
  destruct (forallb py_float probe) eqn:Ef.
  { exists [(u "INTEGER", py_int)], py_float. eexists.
    repeat split; [assumption | repeat constructor; assumption]. }
  destruct (forallb valid_text probe) eqn:Et.
  { eexists [(u "INTEGER", py_int); (u "REAL", py_float)], _, _.
    split; [reflexivity|]. split.
    - rewrite (forallb_ext _ _ encode_strict_returns probe). exact Et.
    - repeat constructor; assumption. }
  eexists [(u "INTEGER", py_int); (u "REAL", py_float); (u "TEXT", _)], _, _.
  split; [reflexivity|]. split.
  - rewrite (forallb_ext _ _ encode_escape_returns probe). exact Hd.
  - repeat constructor; try assumption. simpl.
    rewrite (forallb_ext _ _ encode_strict_returns probe). exact Et.
Qed.

(** C1.  On a table of sampled text (cells as a file opened with
    [surrogateescape] yields them), [detect_types] returns, column by
    column of the zipped table, the type that the specification names:
    INTEGER when [int] accepts every value of the probe set (the non-empty
    values, or one empty string when all are empty), otherwise REAL when
    [float] accepts them all, otherwise TEXT when all are valid text,
    otherwise BLOB; the code scans exactly that probe set, and the type is
    the first entry of the type map, in its order INTEGER, REAL, TEXT,
    BLOB, whose caster accepts every probed value. *)
Theorem detect_types_first_accepting (table : list (list str)) :
  decoded_table table ->
  detect_types table = Ok (map column_type (zip_star table))
  /\ map fst typemap = [u "INTEGER"; u "REAL"; u "TEXT"; u "BLOB"]
  /\ forall column, In column (zip_star table) ->
       scanned column = probe_set column
       /\ first_accepting typemap (probe_set column) (column_type column).
Proof.
  intros Ht. pose proof (zip_star_decoded _ Ht) as Hz.
  split; [|split].
  - unfold detect_types. apply detect_columns_decoded. exact Hz.
  - reflexivity.
  - intros column Hc. split.
    + apply scanned_probe_set.
    + apply column_type_first_accepting.
      rewrite Forall_forall in Hz. auto.
Qed.






End TypeDetection.

(** ** The database *)

Lemma name_eqb_eq (a b : str) :
  name_eqb a b = true <-> map ascii_lower a = map ascii_lower b.
Proof. apply str_eqb_eq. Qed.

Lemma name_eqb_refl (a : str) : name_eqb a a = true.
Proof. apply name_eqb_eq. reflexivity. Qed.

Lemma name_eqb_congr (a b c : str) :
  name_eqb a b = true -> name_eqb c a = name_eqb c b.
Proof.
  intros E. apply name_eqb_eq in E. unfold name_eqb. rewrite E. reflexivity.
Qed.

Lemma db_find_set (n n' : str) (t : table) (db : database) :
  db_find n' (db_set n t db)
  = if name_eqb n' n
    then match db_find n db with Some _ => Some t | None => None end
    else db_find n' db.
Proof.
  induction db as [|[k t0] db IH]; simpl.
  - destruct (name_eqb n' n); reflexivity.
  - destruct (name_eqb n k) eqn:Enk; simpl.
    + rewrite <- (name_eqb_congr n k n' Enk).
      destruct (name_eqb n' n); reflexivity.
    + destruct (name_eqb n' k) eqn:En'k.
      * destruct (name_eqb n' n) eqn:En'n; [|reflexivity].
        apply name_eqb_eq in En'k, En'n.
        assert (name_eqb n k = true) as C
            by (apply name_eqb_eq; congruence).
        congruence.
      * exact IH.
Qed.

Lemma db_find_app_new (n name : str) (t : table) (db : database) :
  db_find n (db ++ [(name, t)])
  = match db_find n db with
    | Some x => Some x
    | None => if name_eqb n name then Some t else None
    end.
Proof.
  induction db as [|[k t0] db IH]; simpl.
  - reflexivity.
  - destruct (name_eqb n k); [reflexivity | exact IH].
Qed.

Lemma db_find_congr (n n' : str) (db : database) :
  name_eqb n n' = true -> db_find n db = db_find n' db.
Proof.
  intros E. apply name_eqb_eq in E.
  induction db as [|[k t0] db IH]; simpl; [reflexivity|].
  unfold name_eqb. rewrite E. fold (name_eqb n' k).
  destruct (name_eqb n' k); [reflexivity | exact IH].
Qed.

(** ** Text that can be encoded *)

Lemma encode_failure_valid (s : str) :
  forall pos, encode_failure pos s = None <-> valid_text s = true.
Proof.
  unfold valid_text.
  induction s as [|c s IH]; intros pos; cbn [encode_failure forallb].
  - split; reflexivity.
  - destruct (is_surrogate c); cbn [negb andb].
    + split; discriminate.
    + apply IH.
Qed.

Lemma encode_check_valid (s : str) :
  encode_check s = None <-> valid_text s = true.
Proof.
  unfold encode_check. rewrite <- (encode_failure_valid s 0).
  destruct (encode_failure 0 s) as [[start stop]|]; split;
    try discriminate; reflexivity.
Qed.

Lemma encode_check_invalid (s : str) :
  valid_text s = false -> exists e, encode_check s = Some e.
Proof.
  intros E. destruct (encode_check s) as [e|] eqn:Ec.
  - exists e. reflexivity.
  - apply encode_check_valid in Ec. congruence.
Qed.

Lemma valid_text_app (a b : str) :
  valid_text (a ++ b) = valid_text a && valid_text b.
Proof. apply forallb_app. Qed.

Lemma valid_text_marks (binds : nat) :
  valid_text (join (u ", ") (repeat (u "?") binds)) = true.
Proof.
  induction binds as [|[|b] IH]; try reflexivity.
  change (join (u ", ") (repeat (u "?") (S (S b))))
    with (u "?" ++ u ", " ++ join (u ", ") (repeat (u "?") (S b))).
  rewrite !valid_text_app, IH. reflexivity.
Qed.

Lemma valid_text_insert_query (tablename : str) (binds : nat) :
  valid_text (insert_query tablename binds) = valid_text tablename.
Proof.
  unfold insert_query. rewrite !valid_text_app, valid_text_marks.
  change (valid_text (u "INSERT INTO ")) with true.
  change (valid_text (u " VALUES (")) with true.
  change (valid_text (u ")")) with true.
  cbn [andb]. rewrite !andb_true_r. reflexivity.
Qed.

Lemma find_invalid (row : list str) :
  find (fun val => negb (valid_text val)) row = None
  <-> forallb valid_text row = true.
Proof.
  induction row as [|val row IH]; cbn [find forallb].
  - split; reflexivity.
  - destruct (valid_text val); cbn [negb andb].
    + exact IH.
    + split; discriminate.
Qed.

(** Binding the parameters of a row fails at its first cell that is not
    valid text. *)
Lemma bind_failure_parameters (row : list str) :
  bind_failure (parameters_of row)
  = match find (fun val => negb (valid_text val)) row with
    | Some val => encode_check val
    | None => None
    end.
Proof.
  induction row as [|val row IH]; [reflexivity|].
  cbn [parameters_of map bind_failure find].
  fold (parameters_of row).
  destruct val as [|c val].
  - cbn [truthy bind_failure]. exact IH.
  - cbn [truthy bind_failure].
    destruct (valid_text (c :: val)) eqn:Ev; cbn [negb].
    + apply encode_check_valid in Ev. rewrite Ev. exact IH.
    + destruct (encode_check_invalid _ Ev) as (e & ->). reflexivity.
Qed.

Section EngineFacts.
Context {H : Host}.

Lemma db_find_add_row (row : list (option str)) (name n : str)
  (db : database) :
  db_find n (add_row row name db)
  = match db_find n db with
    | Some t =>
        Some (if name_eqb n name
              then mkTable (tbl_columns t) (tbl_rows t ++ [row]) else t)
    | None => None
    end.
Proof.
  unfold add_row. destruct (db_find name db) as [t|] eqn:E.
  - rewrite db_find_set, E.
    destruct (name_eqb n name) eqn:En.
    + rewrite (db_find_congr n name db En), E. reflexivity.
    + destruct (db_find n db); reflexivity.
  - destruct (db_find n db) as [t|] eqn:En; [|reflexivity].
    destruct (name_eqb n name) eqn:Enn; [|reflexivity].
    rewrite (db_find_congr n name db Enn) in En. congruence.
Qed.

Lemma prepare_insert_add_row (target : str) (binds : nat)
  (row : list (option str)) (name : str) (db : database) :
  prepare_insert target binds (add_row row name db)
  = prepare_insert target binds db.
Proof.
  unfold prepare_insert. destruct (sql_unquoted target) as [n|]; [|reflexivity].
  destruct binds as [|b]; [reflexivity|].
  rewrite db_find_add_row. destruct (db_find n db) as [t|]; [|reflexivity].
  destruct (name_eqb n name); reflexivity.
Qed.

Lemma accepted_add_row (target : str) (binds : nat)
  (row : list (option str)) (name : str) (db : database) (r : list str) :
  accepted target binds (add_row row name db) r = accepted target binds db r.
Proof. unfold accepted. rewrite prepare_insert_add_row. reflexivity. Qed.

Lemma rejection_add_row (target : str) (binds : nat)
  (params : list (option str)) (name : str) (db : database)
  (row : list str) :
  rejection target binds (add_row params name db) row
  = rejection target binds db row.
Proof. unfold rejection. rewrite prepare_insert_add_row. reflexivity. Qed.

(** The insert of a row succeeds exactly when nothing rejects it. *)
Lemma rejection_accepted (target : str) (binds : nat) (db : database)
  (row : list str) :
  rejection target binds db row = None
  <-> accepted target binds db row = true.
Proof.
  unfold rejection, accepted.
  destruct (valid_text target) eqn:Ev.
  - rewrite <- valid_text_insert_query with (binds := binds) in Ev.
    apply encode_check_valid in Ev. rewrite Ev. cbn [andb].
    destruct (prepare_insert target binds db) as [e|name]; cbn [andb].
    + split; discriminate.
    + destruct (length row =? binds); cbn [andb]; [|split; discriminate].
      rewrite <- find_invalid.
      destruct (find (fun val => negb (valid_text val)) row) as [val|] eqn:Ef.
      * apply find_some in Ef. destruct Ef as [_ Ef].
        apply negb_true_iff in Ef.
        destruct (encode_check_invalid _ Ef) as (e & ->).
        split; discriminate.
      * split; reflexivity.
  - cbn [andb].
    rewrite <- valid_text_insert_query with (binds := binds) in Ev.
    destruct (encode_check_invalid _ Ev) as (e & ->). split; discriminate.
Qed.



Lemma prepare_insert_present (target : str) (binds : nat) (db : database)
  (name : str) :
  prepare_insert target binds db = inr name ->
  sql_unquoted target = Some name /\ present name db = true.
Proof.
  unfold prepare_insert, present.
  destruct (sql_unquoted target) as [n|]; [|discriminate].
  destruct binds as [|b]; [discriminate|].
  destruct (db_find n db) as [t|] eqn:E; [|discriminate].
  destruct (length (tbl_columns t) =? S b); [|discriminate].
  intros [= <-]. rewrite E. split; reflexivity.
Qed.

Lemma live_begin (c : connection) : live (begin c) = live c.
Proof. unfold begin. destruct (snapshot c); reflexivity. Qed.

Lemma rollback_begin (c : connection) :
  live (rollback (begin c)) = live (rollback c).
Proof. destruct c as [db [s|]]; reflexivity. Qed.

Lemma rollback_keeps (d : database) (c : connection) :
  live (rollback (mkConn d (snapshot (begin c)))) = live (rollback c).
Proof. destruct c as [db [s|]]; reflexivity. Qed.

(** The insert of a row that something rejects raises that exception and
    stores nothing. *)
Lemma insert_rejected (target : str) (binds : nat) (row : list str)
  (w : world) (e : exception) :
  rejection target binds (live (dbc w)) row = Some e ->
  exists c,
    cursor_execute (insert_query target binds) (InsertInto target binds)
      (parameters_of row) w
    = (Raise e,
       mkWorld c (insert_query target binds :: sent w) (warnings w))
    /\ live c = live (dbc w)
    /\ live (rollback c) = live (rollback (dbc w)).
Proof.
  unfold rejection, cursor_execute, run_statement.
  destruct (encode_check (insert_query target binds)) as [e0|].
  { intros [= <-]. exists (dbc w). repeat split; reflexivity. }
  destruct (prepare_insert target binds (live (dbc w))) as [err|name].
  { intros [= <-]. exists (dbc w). repeat split; reflexivity. }
  unfold parameters_of at 1. rewrite length_map.
  destruct (length row =? binds).
  - rewrite bind_failure_parameters.
    destruct (find (fun val => negb (valid_text val)) row) as [val|];
      [|discriminate].
    intros ->. exists (begin (dbc w)).
    split; [reflexivity|]. split; [apply live_begin | apply rollback_begin].
  - intros [= <-]. exists (begin (dbc w)).
    unfold parameters_of. rewrite length_map.
    split; [reflexivity|]. split; [apply live_begin | apply rollback_begin].
Qed.

(** The insert of a row that nothing rejects stores its parameters. *)
Lemma insert_accepted (target : str) (binds : nat) (row : list str)
  (w : world) :
  rejection target binds (live (dbc w)) row = None ->
  exists name,
    prepare_insert target binds (live (dbc w)) = inr name
    /\ cursor_execute (insert_query target binds) (InsertInto target binds)
         (parameters_of row) w
       = (Ok tt,
          mkWorld (mkConn (add_row (parameters_of row) name (live (dbc w)))
                          (snapshot (begin (dbc w))))
                  (insert_query target binds :: sent w) (warnings w)).
Proof.
  unfold rejection, cursor_execute, run_statement.
  destruct (encode_check (insert_query target binds)) as [e0|];
    [discriminate|].
  destruct (prepare_insert target binds (live (dbc w))) as [err|name];
    [discriminate|].
  unfold parameters_of at 1. rewrite length_map.
  destruct (length row =? binds); [|discriminate].
  rewrite bind_failure_parameters.
  destruct (find (fun val => negb (valid_text val)) row) as [val|].
  - intros E. rewrite E. exists name. split; [reflexivity|].
    rewrite live_begin. reflexivity.
  - intros _. exists name. split; [reflexivity|].
    rewrite live_begin. reflexivity.
Qed.

End EngineFacts.

(** ** The insert loop *)

Section InsertLoop.
Context {H : Host}.

Lemma insert_rows_cons (self : importer) (fn q target : str) (binds : nat)
  (ending : option exception) (lineno : nat) (row : list str)
  (rest : list (list str)) (w : world) :
  insert_rows self fn q target binds ending lineno (row :: rest) w
  = match cursor_execute q (InsertInto target binds) (parameters_of row) w with
    | (Ok _, w1) =>
        insert_rows self fn q target binds ending (S lineno) rest w1
    | (Raise e, w1) =>
        if ignore_errors self then
          insert_rows self fn q target binds ending (S lineno) rest
            (if log_warnings self
             then mkWorld (dbc w1) (sent w1)
                          (annotate e fn lineno :: warnings w1)
             else w1)
        else (Raise (annotate e fn lineno), w1)
    end.
Proof.
  cbn [insert_rows]. unfold bind, try.
  destruct (cursor_execute q (InsertInto target binds) (parameters_of row) w)
    as [[[]|e] w1]; [reflexivity|].
  destruct (ignore_errors self), (log_warnings self); reflexivity.
Qed.

Lemma accepted_rejection (target : str) (binds : nat) (db : database)
  (row : list str) :
  accepted target binds db row = false ->
  exists e, rejection target binds db row = Some e.
Proof.
  intros Ea. destruct (rejection target binds db row) as [e|] eqn:Er.
  - exists e. reflexivity.
  - apply rejection_accepted in Er. congruence.
Qed.

Lemma filter_accepted_add_row (target : str) (binds : nat)
  (params : list (option str)) (name : str) (db : database)
  (rows : list (list str)) :
  filter (accepted target binds (add_row params name db)) rows
  = filter (accepted target binds db) rows.
Proof. apply filter_ext. intros r. apply accepted_add_row. Qed.

Lemma after_inserts_rejected (target : str) (binds : nat) (db : database)
  (row : list str) (rest : list (list str)) :
  accepted target binds db row = false ->
  after_inserts target binds db (row :: rest)
  = after_inserts target binds db rest.
Proof.
  intros Ea. unfold after_inserts. cbn [filter]. rewrite Ea. reflexivity.
Qed.

Lemma after_inserts_accepted (target : str) (binds : nat) (db : database)
  (row : list str) (rest : list (list str)) (name : str) :
  accepted target binds db row = true ->
  prepare_insert target binds db = inr name ->
  after_inserts target binds db (row :: rest)
  = after_inserts target binds (add_row (parameters_of row) name db) rest.
Proof.
  intros Ea Ep. unfold after_inserts.
  rewrite prepare_insert_add_row, Ep, filter_accepted_add_row.
  cbn [filter]. rewrite Ea. reflexivity.
Qed.

(** The loop runs to the end of the rows when errors are ignored or no
    row is rejected; it then ends as the reader does. *)
Lemma insert_rows_completes (self : importer) (fn target : str)
  (binds : nat) (ending : option exception) (rows : list (list str)) :
  forall (lineno : nat) (w : world),
    ignore_errors self = true
    \/ forallb (accepted target binds (live (dbc w))) rows = true ->
    exists w',
      insert_rows self fn (insert_query target binds) target binds ending
        lineno rows w
      = (match ending with Some e => Raise e | None => Ok tt end, w')
      /\ live (dbc w') = after_inserts target binds (live (dbc w)) rows
      /\ live (rollback (dbc w')) = live (rollback (dbc w)).
Proof.
  induction rows as [|row rest IH]; intros lineno w Hyp.
  - exists w. unfold after_inserts. cbn [insert_rows filter map].
    unfold add_rows. cbn [fold_left].
    split; [destruct ending; reflexivity|].
    destruct (prepare_insert target binds (live (dbc w)));
      split; reflexivity.
  - rewrite insert_rows_cons.
    destruct (accepted target binds (live (dbc w)) row) eqn:Ea.
    + destruct (insert_accepted target binds row w
                  (proj2 (rejection_accepted _ _ _ _) Ea))
        as (name & Ep & ->).
      set (w1 := mkWorld _ _ _).
      destruct (IH (S lineno) w1) as (w' & Erun & Elive & Eroll).
      { destruct Hyp as [Hi | Hall]; [left; exact Hi | right].
        cbn [forallb] in Hall. rewrite Ea in Hall. cbn [andb] in Hall.
        subst w1. cbn [dbc live].
        rewrite (forallb_ext _ _ (accepted_add_row target binds _ name _)).
        exact Hall. }
      exists w'. split; [exact Erun|]. split.
      * rewrite Elive. subst w1. cbn [dbc live].
        symmetry. apply after_inserts_accepted; assumption.
      * rewrite Eroll. subst w1. cbn [dbc]. apply rollback_keeps.
    + assert (ignore_errors self = true) as Hi.
      { destruct Hyp as [Hi | Hall]; [exact Hi|].
        cbn [forallb] in Hall. rewrite Ea in Hall. discriminate. }
      rewrite Hi, (after_inserts_rejected _ _ _ _ _ Ea).
      destruct (accepted_rejection _ _ _ _ Ea) as (e & Er).
      destruct (insert_rejected target binds row w e Er)
        as (c & -> & Elc & Erc).
      set (w1 := if log_warnings self then _ else _).
      assert (dbc w1 = c) as Edbc
          by (subst w1; destruct (log_warnings self); reflexivity).
      destruct (IH (S lineno) w1 (or_introl Hi)) as (w' & Erun & El & Er').
      exists w'. rewrite Edbc in El, Er'. rewrite Elc in El.
      rewrite Erc in Er'. repeat split; assumption.
Qed.

(** With errors not ignored the loop stops at the first row that is
    rejected, raising its exception with the place appended. *)
Lemma insert_rows_raises (self : importer) (fn target : str)
  (binds : nat) (ending : option exception) (rows : list (list str)) :
  ignore_errors self = false ->
  forall (i lineno : nat) (w : world) (row : list str),
    nth_error rows i = Some row ->
    accepted target binds (live (dbc w)) row = false ->
    (forall j r, j < i -> nth_error rows j = Some r ->
                 accepted target binds (live (dbc w)) r = true) ->
    exists e w',
      rejection target binds (live (dbc w)) row = Some e
      /\ insert_rows self fn (insert_query target binds) target binds ending
           lineno rows w
         = (Raise (annotate e fn (lineno + i)), w')
      /\ live (rollback (dbc w')) = live (rollback (dbc w)).
Proof.
  intros Hi. induction rows as [|head rest IH]; intros i lineno w row Hn Ha Hb.
  - destruct i; discriminate.
  - rewrite insert_rows_cons, Hi.
    destruct i as [|i].
    + injection Hn as ->. rewrite Nat.add_0_r.
      destruct (accepted_rejection _ _ _ _ Ha) as (e & Er).
      destruct (insert_rejected target binds row w e Er)
        as (c & -> & _ & Erc).
      exists e. eexists. split; [exact Er|]. split; [reflexivity|].
      exact Erc.
    + assert (accepted target binds (live (dbc w)) head = true) as Eh
          by (apply (Hb 0); [lia | reflexivity]).
      destruct (insert_accepted target binds head w
                  (proj2 (rejection_accepted _ _ _ _) Eh))
        as (name & Ep & ->).
      set (w1 := mkWorld _ _ _).
      destruct (IH i (S lineno) w1 row) as (e & w' & Er & Erun & Eroll).
      * exact Hn.
      * subst w1. cbn [dbc live]. rewrite accepted_add_row. exact Ha.
      * intros j r Hj Hr. subst w1. cbn [dbc live].
        rewrite accepted_add_row. apply (Hb (S j)); [lia | exact Hr].
      * exists e, w'. split; [|split].
        -- subst w1. cbn [dbc live] in Er. rewrite rejection_add_row in Er.
           exact Er.
        -- replace (lineno + S i) with (S lineno + i) by lia. exact Erun.
        -- rewrite Eroll. subst w1. cbn [dbc]. apply rollback_keeps.
Qed.

(** However the loop ends, a rollback leads where it would have led
    before the loop. *)
Lemma insert_rows_rollback (self : importer) (fn target : str)
  (binds : nat) (ending : option exception) (rows : list (list str)) :
  forall (lineno : nat) (w w' : world) (r : result unit),
    insert_rows self fn (insert_query target binds) target binds ending
      lineno rows w = (r, w') ->
    live (rollback (dbc w')) = live (rollback (dbc w)).
Proof.
  induction rows as [|row rest IH]; intros lineno w w' r.
  - cbn [insert_rows]. destruct ending; intros [= _ <-]; reflexivity.
  - rewrite insert_rows_cons.
    destruct (rejection target binds (live (dbc w)) row) as [e|] eqn:Er.
    + destruct (insert_rejected target binds row w e Er)
        as (c & -> & _ & Erc).
      destruct (ignore_errors self).
      * intros E. apply IH in E. rewrite E, <- Erc.
        destruct (log_warnings self); reflexivity.
      * intros [= _ <-]. exact Erc.
    + destruct (insert_accepted target binds row w Er) as (name & _ & ->).
      intros E. apply IH in E. rewrite E. cbn [dbc].
      apply rollback_keeps.
Qed.

Lemma expected_warnings_add_row (fn target : str) (binds : nat)
  (params : list (option str)) (name : str) (db : database)
  (rows : list (list str)) :
  forall lineno,
    expected_warnings fn target binds (add_row params name db) lineno rows
    = expected_warnings fn target binds db lineno rows.
Proof.
  induction rows as [|row rest IH]; intros lineno; cbn [expected_warnings].
  - reflexivity.
  - rewrite rejection_add_row, !IH. reflexivity.
Qed.

Lemma expected_warnings_add_rows (fn target : str) (binds : nat)
  (added : list (list (option str))) (name : str) (rows : list (list str))
  (lineno : nat) :
  forall db,
    expected_warnings fn target binds (add_rows added name db) lineno rows
    = expected_warnings fn target binds db lineno rows.
Proof.
  induction added as [|params added IH]; intros db; [reflexivity|].
  unfold add_rows in *. cbn [fold_left]. rewrite IH.
  apply expected_warnings_add_row.
Qed.



End InsertLoop.

(** ** Creating the table *)

Section CreateTableFacts.
Context {H : Host}.

Lemma create_table_no_types (tablename : str) (columns : option (list str))
  (if_not_exists : bool) (w : world) :
  create_table tablename [] columns if_not_exists w
  = (Raise (mkExc ValueError [u "Must specify types."]), w).
Proof. reflexivity. Qed.

(** With a type, [create_table] hands one statement to the engine. *)
Lemma create_table_run (tablename : str) (types : list str)
  (columns : option (list str)) (if_not_exists : bool) (w : world) :
  types <> [] ->
  create_table tablename types columns if_not_exists w
  = let pairs := zip_columns (name_columns tablename columns) types in
    let sql := create_table_sql tablename pairs if_not_exists in
    (match encode_check sql with
     | Some e => Raise e
     | None =>
         match run_create if_not_exists tablename pairs (live (dbc w)) with
         | inl e => Raise e
         | inr _ => Ok tt
         end
     end,
     mkWorld
       (match encode_check sql with
        | Some _ => dbc w
        | None =>
            match run_create if_not_exists tablename pairs (live (dbc w)) with
            | inl _ => dbc w
            | inr db => mkConn db (snapshot (dbc w))
            end
        end)
       (sql :: sent w) (warnings w)).
Proof.
  intros Ht. destruct types as [|t ts]; [congruence|].
  unfold create_table, cursor_execute, run_statement. cbv zeta.
  destruct (encode_check _); [reflexivity|].
  destruct (run_create _ _ _ _); reflexivity.
Qed.

Lemma create_table_sends (tablename : str) (types : list str)
  (columns : option (list str)) (if_not_exists : bool) (w : world) :
  types <> [] ->
  exists r c,
    create_table tablename types columns if_not_exists w
    = (r, mkWorld c
            (create_table_sql tablename
               (zip_columns (name_columns tablename columns) types)
               if_not_exists :: sent w)
            (warnings w)).
Proof.
  intros Ht. rewrite (create_table_run _ _ _ _ _ Ht). cbv zeta.
  eexists. eexists. reflexivity.
Qed.

Lemma run_create_rows (if_not_exists : bool) (name : str)
  (cols : list (str * str)) (db db' : database) :
  run_create if_not_exists name cols db = inr db' ->
  present name db' = true
  /\ forall n, rows_of n db' = rows_of n db.
Proof.
  unfold run_create. destruct cols as [|col cols]; [discriminate|].
  destruct (sql_create_refusal name (col :: cols)); [discriminate|].
  destruct (db_find name db) as [t0|] eqn:Ef.
  - destruct if_not_exists; [|discriminate]. intros [= <-].
    unfold present. rewrite Ef. split; reflexivity.
  - destruct (dup_names _); [discriminate|]. intros [= <-]. split.
    + unfold present. rewrite db_find_app_new, Ef, name_eqb_refl.
      reflexivity.
    + intros n. unfold rows_of. rewrite db_find_app_new.
      destruct (db_find n db); [reflexivity|].
      destruct (name_eqb n name); reflexivity.
Qed.

(** Whatever [create_table] answers, no transaction is opened or closed,
    nothing is logged and no table gains or loses a row. *)
Lemma create_table_effect (tablename : str) (types : list str)
  (columns : option (list str)) (if_not_exists : bool) (w w1 : world)
  (r : result unit) :
  create_table tablename types columns if_not_exists w = (r, w1) ->
  snapshot (dbc w1) = snapshot (dbc w)
  /\ warnings w1 = warnings w
  /\ forall n, rows_of n (live (dbc w1)) = rows_of n (live (dbc w)).
Proof.
  destruct types as [|t ts].
  - intros [= _ <-]. repeat split; reflexivity.
  - rewrite create_table_run by discriminate. cbv zeta.
    destruct (encode_check _).
    { intros [= _ <-]. repeat split; reflexivity. }
    destruct (run_create _ _ _ _) as [e|db] eqn:Er.
    { intros [= _ <-]. repeat split; reflexivity. }
    intros [= _ <-]. cbn [dbc live snapshot warnings].
    split; [reflexivity|]. split; [reflexivity|].
    apply (run_create_rows _ _ _ _ _ Er).
Qed.

Lemma create_table_ok (tablename : str) (types : list str)
  (columns : option (list str)) (w w1 : world) :
  create_table tablename types columns true w = (Ok tt, w1) ->
  snapshot (dbc w1) = snapshot (dbc w)
  /\ present tablename (live (dbc w1)) = true
  /\ forall n, rows_of n (live (dbc w1)) = rows_of n (live (dbc w)).
Proof.
  intros E. destruct (create_table_effect _ _ _ _ _ _ _ E) as (Hs & _ & Hr).
  split; [exact Hs|]. split; [|exact Hr].
  destruct types as [|t ts]; [discriminate|].
  rewrite create_table_run in E by discriminate. cbv zeta in E.
  destruct (encode_check _); [discriminate|].
  destruct (run_create _ _ _ _) as [e|db] eqn:Er; [discriminate|].
  injection E as <-. cbn [dbc live].
  apply (run_create_rows _ _ _ _ _ Er).
Qed.

(** A [create_table] that returns on a database without the table has
    added it, with the columns of the statement and no row. *)
Lemma create_table_created (tablename : str) (types : list str)
  (columns : option (list str)) (if_not_exists : bool) (w w1 : world) :
  create_table tablename types columns if_not_exists w = (Ok tt, w1) ->
  db_find tablename (live (dbc w)) = None ->
  live (dbc w1)
  = live (dbc w)
      ++ [(tablename,
           mkTable (zip_columns (name_columns tablename columns) types) [])].
Proof.
  intros E Hf. destruct types as [|t ts]; [discriminate|].
  rewrite create_table_run in E by discriminate. cbv zeta in E.
  destruct (encode_check _); [discriminate|].
  destruct (run_create _ _ _ _) as [e|db] eqn:Er; [discriminate|].
  injection E as <-. cbn [dbc live].
  unfold run_create in Er.
  destruct (zip_columns _ _) as [|p pairs]; [discriminate|].
  destruct (sql_create_refusal _ _); [discriminate|].
  rewrite Hf in Er. destruct (dup_names _); [discriminate|].
  injection Er as <-. reflexivity.
Qed.

Lemma create_step_effect (tablename : str) (flag : bool) (sch : schema)
  (w w1 : world) (r : result unit) :
  (if flag then create_table tablename (types sch) (columns sch) true
   else ret tt) w = (r, w1) ->
  snapshot (dbc w1) = snapshot (dbc w)
  /\ warnings w1 = warnings w
  /\ forall n, rows_of n (live (dbc w1)) = rows_of n (live (dbc w)).
Proof.
  destruct flag.
  - apply create_table_effect.
  - intros [= _ <-]. repeat split; reflexivity.
Qed.

End CreateTableFacts.

(** ** Loading *)

Lemma first_rejected {A : Type} (f : A -> bool) (l : list A) :
  forallb f l = false ->
  exists i x,
    nth_error l i = Some x /\ f x = false
    /\ forall j r, j < i -> nth_error l j = Some r -> f r = true.
Proof.
  induction l as [|a l IH]; simpl; [discriminate|].
  destruct (f a) eqn:Ea; simpl.
  - intros E. destruct (IH E) as (i & x & Hn & Hx & Hb).
    exists (S i), x. repeat split; try assumption.
    intros [|j] r Hj Hr.
    + injection Hr as <-. exact Ea.
    + apply (Hb j); [lia | exact Hr].
  - intros _. exists 0, a. repeat split; try assumption. intros j r Hj. lia.
Qed.

Lemma snapshot_rollback (c : connection) : snapshot (rollback c) = None.
Proof. destruct c as [db [s|]]; reflexivity. Qed.

Lemma rollback_idle (c : connection) : idle c -> rollback c = c.
Proof. unfold idle. destruct c as [db [s|]]; [discriminate | reflexivity]. Qed.

Section LoadFileFacts.
Context {H : Host}.

Lemma load_rows_eq (self : importer) (fn tablename : str) (flag : bool)
  (sch : schema) (first : list str) (sample : list (list str))
  (rows : list (list str)) (ending : option exception) (w : world) :
  load_rows self fn tablename flag sch (first :: sample) rows ending w
  = match (if flag
           then create_table tablename (types sch) (columns sch) true
           else ret tt) w with
    | (Raise e, w1) =>
        (Raise e, mkWorld (rollback (dbc w1)) (sent w1) (warnings w1))
    | (Ok _, w1) =>
        match insert_rows self fn (insert_query tablename (length first))
                tablename (length first) ending (first_line_number sch)
                rows w1 with
        | (Ok _, w2) =>
            (Ok PyNone, mkWorld (commit (dbc w2)) (sent w2) (warnings w2))
        | (Raise e, w2) =>
            (Raise e, mkWorld (rollback (dbc w2)) (sent w2) (warnings w2))
        end
    end.
Proof.
  unfold load_rows, with_dbc, bind.
  set (step := if flag then create_table tablename (types sch) (columns sch)
                              true
               else ret tt).
  destruct (step w) as [[[]|e] w1]; [|reflexivity].
  destruct (insert_rows _ _ _ _ _ _ _ _ w1) as [[[]|e] w2]; reflexivity.
Qed.

Lemma loadfile_eq (self : importer) (fn tablename : str) (file : csv_file)
  (flag : bool) (sch : schema) :
  sniffs file = true ->
  detect_schema (firstn 20 (records file)) = Ok sch ->
  loadfile self fn file tablename flag
  = load_rows self fn tablename flag sch (firstn 20 (records file))
      (rowgen file (has_header sch)) (reader_end file).
Proof.
  intros Hs Hd. unfold loadfile. rewrite Hs, Hd. reflexivity.
Qed.



Lemma prepare_insert_add_rows (target : str) (binds : nat)
  (rows : list (list (option str))) (name : str) (db : database) :
  prepare_insert target binds (add_rows rows name db)
  = prepare_insert target binds db.
Proof.
  revert db. induction rows as [|r rows IH]; intros db; [reflexivity|].
  unfold add_rows in *. cbn [fold_left]. rewrite IH.
  apply prepare_insert_add_row.
Qed.

Lemma accepted_after_inserts (target : str) (binds : nat) (db : database)
  (rows : list (list str)) (r : list str) :
  accepted target binds (after_inserts target binds db rows) r
  = accepted target binds db r.
Proof.
  unfold after_inserts.
  destruct (prepare_insert target binds db) as [e|name] eqn:E;
    [reflexivity|].
  unfold accepted. rewrite prepare_insert_add_rows. reflexivity.
Qed.


Lemma accepted_prepare (target : str) (binds : nat) (db : database)
  (row : list str) :
  accepted target binds db row = true ->
  exists name, prepare_insert target binds db = inr name.
Proof.
  unfold accepted. destruct (prepare_insert target binds db) as [e|name].
  - rewrite andb_false_r. discriminate.
  - intros _. exists name. reflexivity.
Qed.



(** Tables other than the one the statement names gain nothing. *)
Lemma db_find_after_inserts (tablename : str) (binds : nat) (db : database)
  (rows : list (list str)) (t : table) :
  sql_unquoted tablename = Some tablename ->
  db_find tablename db = Some t ->
  db_find tablename (after_inserts tablename binds db rows)
  = Some (mkTable (tbl_columns t)
            (tbl_rows t
               ++ map parameters_of
                    (filter (accepted tablename binds db) rows))).
Proof.
  intros Hplain Hf. unfold after_inserts.
  destruct (prepare_insert tablename binds db) as [e|name] eqn:E.
  - assert (filter (accepted tablename binds db) rows = []) as ->.
    { induction rows as [|r rows IH]; [reflexivity|]. cbn [filter].
      destruct (accepted tablename binds db r) eqn:Ea; [|exact IH].
      destruct (accepted_prepare _ _ _ _ Ea) as (name & En). congruence. }
    cbn [map]. rewrite app_nil_r, Hf. destruct t; reflexivity.
  - destruct (prepare_insert_present _ _ _ _ E) as [En _].
    assert (name = tablename) as -> by congruence.
    generalize (map parameters_of (filter (accepted tablename binds db) rows)).
    intros added. revert db t Hf E.
    induction added as [|r added IH]; intros db t Hf E.
    + cbn [add_rows fold_left]. rewrite app_nil_r, Hf.
      destruct t; reflexivity.
    + unfold add_rows in *. cbn [fold_left].
      rewrite (IH (add_row r tablename db)
                  (mkTable (tbl_columns t) (tbl_rows t ++ [r]))).
      * cbn [tbl_columns tbl_rows]. rewrite <- app_assoc. reflexivity.
      * rewrite db_find_add_row, Hf, name_eqb_refl. reflexivity.
      * rewrite prepare_insert_add_row. exact E.
Qed.

(** What a loop that returns has done. *)
Lemma insert_rows_ok (self : importer) (fn target : str) (binds : nat)
  (ending : option exception) (rows : list (list str)) (lineno : nat)
  (w w' : world) :
  insert_rows self fn (insert_query target binds) target binds ending lineno
    rows w = (Ok tt, w') ->
  ending = None
  /\ live (dbc w') = after_inserts target binds (live (dbc w)) rows
  /\ (ignore_errors self = false ->
      forallb (accepted target binds (live (dbc w))) rows = true).
Proof.
  intros Erun.
  assert (ignore_errors self = true
          \/ forallb (accepted target binds (live (dbc w))) rows = true)
    as Hyp.
  { destruct (ignore_errors self) eqn:Hi; [left; reflexivity|right].
    destruct (forallb (accepted target binds (live (dbc w))) rows) eqn:Ea;
      [reflexivity|].
    destruct (first_rejected _ _ Ea) as (i & x & Hn & Hx & Hb).
    destruct (insert_rows_raises self fn target binds ending rows Hi
                i lineno w x Hn Hx Hb) as (e & w3 & _ & E3 & _).
    rewrite Erun in E3. discriminate. }
  destruct (insert_rows_completes self fn target binds ending rows lineno w
              Hyp) as (w3 & E3 & Elive & _).
  rewrite Erun in E3. destruct ending as [e|]; [discriminate|].
  injection E3 as <-. split; [reflexivity|]. split; [exact Elive|].
  intros Hi. destruct Hyp as [Ht|Ha]; [congruence | exact Ha].
Qed.

(** What a call that returns went through. *)
Lemma loadfile_ok_steps (self : importer) (fn tablename : str)
  (file : csv_file) (flag : bool) (first : list str)
  (rest : list (list str)) (sch : schema) (w w' : world) (v : pyvalue) :
  sniffs file = true ->
  records file = first :: rest ->
  detect_schema (firstn 20 (records file)) = Ok sch ->
  loadfile self fn file tablename flag w = (Ok v, w') ->
  exists w1 w2,
    (if flag then create_table tablename (types sch) (columns sch) true
     else ret tt) w = (Ok tt, w1)
    /\ insert_rows self fn (insert_query tablename (length first)) tablename
         (length first) None (first_line_number sch)
         (rowgen file (has_header sch)) w1 = (Ok tt, w2)
    /\ reader_fails file = false
    /\ v = PyNone
    /\ w' = mkWorld (commit (dbc w2)) (sent w2) (warnings w2).
Proof.
  intros Hs Hr Hd Hrun.
  rewrite (loadfile_eq self fn tablename file flag sch Hs Hd) in Hrun.
  rewrite Hr in Hrun. cbn [firstn] in Hrun. rewrite load_rows_eq in Hrun.
  set (step := if flag then create_table tablename (types sch) (columns sch)
                              true
               else ret tt) in *.
  destruct (step w) as [[[]|e] w1] eqn:Ec; [|discriminate].
  destruct (insert_rows _ _ _ _ _ _ _ _ w1) as [[[]|e] w2] eqn:Ei;
    [|discriminate].
  injection Hrun as <- <-. exists w1, w2.
  destruct (insert_rows_ok _ _ _ _ _ _ _ _ _ Ei) as (Eend & _).
  unfold reader_end in Eend, Ei.
  destruct (reader_fails file); [discriminate|].
  repeat split; assumption.
Qed.


(** A block that raises leaves the rows as they were. *)
Lemma load_rows_failure (self : importer) (fn tablename : str) (flag : bool)
  (sch : schema) (sample rows : list (list str))
  (ending : option exception) (w w' : world) (e : exception) :
  idle (dbc w) ->
  load_rows self fn tablename flag sch sample rows ending w = (Raise e, w') ->
  idle (dbc w')
  /\ forall n, rows_of n (live (dbc w')) = rows_of n (live (dbc w)).
Proof.
  intros Hidle. unfold load_rows, with_dbc, bind.
  set (step := if flag then create_table tablename (types sch) (columns sch)
                              true
               else ret tt).
  destruct (step w) as [[[]|e1] w1] eqn:Ec.
  - destruct (create_step_effect _ _ _ _ _ _ Ec) as (Hsnap & _ & Hrows).
    assert (idle (dbc w1)) as Hidle1 by (unfold idle in *; congruence).
    destruct sample as [|first sample].
    + unfold raise. intros [= _ <-]. cbn [dbc].
      rewrite (rollback_idle _ Hidle1). split; [exact Hidle1 | exact Hrows].
    + destruct (insert_rows _ _ _ _ _ _ _ _ w1) as [[[]|e2] w2] eqn:Ei;
        [discriminate|].
      intros [= _ <-]. cbn [dbc]. split; [apply snapshot_rollback|].
      intros n. rewrite (insert_rows_rollback _ _ _ _ _ _ _ _ _ _ Ei).
      rewrite (rollback_idle _ Hidle1). apply Hrows.
  - destruct (create_step_effect _ _ _ _ _ _ Ec) as (Hsnap & _ & Hrows).
    assert (idle (dbc w1)) as Hidle1 by (unfold idle in *; congruence).
    intros [= _ <-]. cbn [dbc].
    rewrite (rollback_idle _ Hidle1). split; [exact Hidle1 | exact Hrows].
Qed.

End LoadFileFacts.

(** ** The claims about [loadfile] *)



Section LoadFileClaims.
Context {H : Host}.


(** The table that a returning call has created, on a database that did
    not have it. *)
Lemma loadfile_created (self : importer) (fn tablename : str)
  (file : csv_file) (first : list str) (rest : list (list str))
  (sch : schema) (w w' : world) (v : pyvalue) :
  sniffs file = true ->
  records file = first :: rest ->
  detect_schema (firstn 20 (records file)) = Ok sch ->
  sql_unquoted tablename = Some tablename ->
  db_find tablename (live (dbc w)) = None ->
  loadfile self fn file tablename true w = (Ok v, w') ->
  db_find tablename (live (dbc w'))
  = Some (mkTable
            (zip_columns (name_columns tablename (columns sch)) (types sch))
            (map parameters_of
               (filter (accepted tablename (length first) (live (dbc w')))
                       (rowgen file (has_header sch))))).
Proof.
  intros Hs Hr Hd Hplain Hf Hrun.
  destruct (loadfile_ok_steps self fn tablename file true first rest sch
              w w' v Hs Hr Hd Hrun) as (w1 & w2 & Ec & Ei & _ & _ & ->).
  pose proof (create_table_created _ _ _ _ _ _ Ec Hf) as Elive1.
  destruct (insert_rows_ok _ _ _ _ _ _ _ _ _ Ei) as (_ & Elive & _).
  cbn [dbc live commit]. rewrite Elive.
  rewrite (filter_ext _ _ (accepted_after_inserts tablename _ _ _)).
  rewrite (db_find_after_inserts tablename (length first) (live (dbc w1))
             (rowgen file (has_header sch))
             (mkTable
                (zip_columns (name_columns tablename (columns sch))
                             (types sch)) [])
             Hplain).
  - reflexivity.
  - rewrite Elive1, db_find_app_new, Hf, name_eqb_refl. reflexivity.
Qed.

(** C2, as amended.  Let both inferences over the sample succeed, and
    let a call that is to create the table, on a database that does not
    have it, return.  The first record is declared a header exactly when
    the type vector over all sampled rows differs from the one over all
    but the first.  With a header the columns of the table are named by
    the cells of the first record, each restricted to word characters
    and made unique, and typed by the vector over the rows after the
    first (over all rows when that is empty); the first record is not
    inserted: the rows of the table are the records after it that the
    engine accepts.  Without a header the names are generated, the types
    are the vector over all rows and the rows are all the records that
    the engine accepts. *)
Theorem loadfile_header_decision (self : importer) (filename tablename : str)
  (file : csv_file) (types_with_row_one types_sans_row_one : list str)
  (w w' : world) (v : pyvalue) :
  sniffs file = true ->
  detect_types (firstn 20 (records file)) = Ok types_with_row_one ->
  detect_types (tl (firstn 20 (records file))) = Ok types_sans_row_one ->
  sql_unquoted tablename = Some tablename ->
  db_find tablename (live (dbc w)) = None ->
  loadfile self filename file tablename true w = (Ok v, w') ->
  exists sch first rest t,
    detect_schema (firstn 20 (records file)) = Ok sch
    /\ records file = first :: rest
    /\ (has_header sch = true <-> types_sans_row_one <> types_with_row_one)
    /\ db_find tablename (live (dbc w')) = Some t
    /\ if has_header sch then
         tbl_columns t
         = header_columns tablename first
             (match types_sans_row_one with
              | [] => types_with_row_one
              | _ :: _ => types_sans_row_one
              end)
         /\ tbl_rows t
            = map parameters_of
                (filter (accepted tablename (length first) (live (dbc w')))
                        rest)
       else
         tbl_columns t = numbered_columns tablename types_with_row_one
         /\ tbl_rows t
            = map parameters_of
                (filter (accepted tablename (length first) (live (dbc w')))
                        (first :: rest)).
Proof.
  intros Hs Hw Hn Hplain Hf Hrun.
  destruct (records file) as [|first rest] eqn:Hr.
  { (* no record: no type, and [create_table] raises *)
    exfalso. unfold loadfile, detect_schema in Hrun.
    rewrite Hs, Hr in Hrun. cbn in Hrun. discriminate. }
  assert (exists sch,
             detect_schema (firstn 20 (first :: rest)) = Ok sch
             /\ has_header sch
                = negb (strs_eqb types_sans_row_one types_with_row_one)
             /\ columns sch
                = (if has_header sch then Some first else None)
             /\ types sch
                = match types_sans_row_one with
                  | [] => types_with_row_one
                  | _ :: _ => types_sans_row_one
                  end) as (sch & Hd & Eh & Ecol & Ety).
  { unfold detect_schema. rewrite Hw, Hn. cbv zeta.
    destruct (negb (strs_eqb types_sans_row_one types_with_row_one)) eqn:E.
    - cbn [firstn]. eexists. split; [reflexivity|]. cbn [has_header columns types].
      repeat split.
    - eexists. split; [reflexivity|]. cbn [has_header columns types].
      repeat split. }
  rewrite <- Hr in Hd.
  pose proof (loadfile_created self filename tablename file first rest sch
                w w' v Hs Hr Hd Hplain Hf Hrun) as Et.
  exists sch, first, rest. eexists.
  split; [rewrite <- Hr; exact Hd|]. split; [reflexivity|]. split.
  { rewrite Eh, negb_true_iff, <- not_true_iff_false, strs_eqb_eq. tauto. }
  split; [exact Et|].
  cbn [tbl_columns tbl_rows]. unfold rowgen.
  rewrite Ecol, Ety, Hr, Eh.
  destruct (strs_eqb types_sans_row_one types_with_row_one) eqn:E;
    cbn [negb tl].
  - apply strs_eqb_eq in E. subst types_sans_row_one.
    split; [|reflexivity]. destruct types_with_row_one; reflexivity.
  - split; [|reflexivity]. destruct first; reflexivity.
Qed.




End LoadFileClaims.

(** ** A sample of one row *)

Lemma zip_rounds_single {A : Type} (row : list A) :
  zip_rounds (length row) [row] = map (fun v => [v]) row.
Proof.
  induction row as [|x row IH]; simpl; [reflexivity|].
  rewrite IH. reflexivity.
Qed.

Lemma firstn_single {A : Type} (l : list A) (x : A) :
  firstn 20 l = [x] -> l = [x].
Proof.
  destruct l as [|a [|b l]]; simpl; intros E;
    [discriminate | exact E | discriminate].
Qed.

Section SingleRow.
Context {H : Host}.

(** C10, as amended.  When the sample holds exactly one row, of at least
    one decoded cell, the vector over the remaining rows is empty and
    differs from the vector over all rows, so [loadfile] declares the
    row a header, the schema types are those inferred from the row's own
    values, one per cell, and the insert loop is given no row.  When the
    engine then accepts the [CREATE TABLE], on a database that does not
    have the table, the call returns and has added the table, with no
    row, its columns named by the cells of the row, each restricted to
    word characters and made unique; nothing else has changed. *)
Theorem loadfile_single_record (self : importer) (filename tablename : str)
  (file : csv_file) (row : list str) :
  sniffs file = true ->
  firstn 20 (records file) = [row] ->
  reader_fails file = false ->
  row <> [] ->
  Forall (fun v => decoded v = true) row ->
  exists typedefs,
    detect_types (firstn 20 (records file)) = Ok typedefs
    /\ detect_types (tl (firstn 20 (records file))) = Ok []
    /\ typedefs <> []
    /\ typedefs = map (fun v => column_type [v]) row
    /\ detect_schema (firstn 20 (records file))
       = Ok (mkSchema true typedefs 2 (Some row))
    /\ rowgen file true = []
    /\ forall w w1,
         db_find tablename (live (dbc w)) = None ->
         create_table tablename typedefs (Some row) true w = (Ok tt, w1) ->
         exists w',
           loadfile self filename file tablename true w = (Ok PyNone, w')
           /\ idle (dbc w')
           /\ live (dbc w')
              = live (dbc w)
                  ++ [(tablename,
                       mkTable (combine (restrict_columns row []) typedefs)
                               [])].
Proof.
  intros Hs Hsample Hread Hne Hd.
  assert (records file = [row]) as Hr by (apply firstn_single; exact Hsample).
  assert (detect_types [row] = Ok (map (fun v => column_type [v]) row)) as Ew.
  { unfold detect_types, zip_star. rewrite zip_rounds_single.
    rewrite detect_columns_decoded, map_map; [reflexivity|].
    apply Forall_forall. intros column Hc. apply in_map_iff in Hc.
    destruct Hc as (v & <- & Hv). constructor; [|constructor].
    rewrite Forall_forall in Hd. auto. }
  assert (map (fun v => column_type [v]) row <> []) as Hty
      by (destruct row; [congruence | discriminate]).
  set (typedefs := map (fun v => column_type [v]) row) in *.
  assert (detect_schema [row] = Ok (mkSchema true typedefs 2 (Some row)))
    as Esch.
  { unfold detect_schema. rewrite Ew. cbn [tl].
    change (detect_types []) with (@Ok (list str) []).
    destruct typedefs; [congruence | reflexivity]. }
  exists typedefs. rewrite Hr. cbn [firstn tl].
  split; [exact Ew|]. split; [reflexivity|]. split; [exact Hty|].
  split; [reflexivity|]. split; [exact Esch|].
  split; [unfold rowgen; rewrite Hr; reflexivity|].
  intros w w1 Hf Hc.
  unfold loadfile, rowgen, reader_end. rewrite Hs, Hr, Hread.
  cbn [firstn negb]. rewrite Esch. cbn [has_header tl].
  rewrite load_rows_eq. cbn [types columns first_line_number].
  rewrite Hc. cbn [insert_rows]. unfold ret.
  eexists. split; [reflexivity|]. cbn [dbc live commit].
  split; [reflexivity|].
  rewrite (create_table_created _ _ _ _ _ _ Hc Hf).
  destruct row as [|c cs]; [congruence|]. reflexivity.
Qed.

End SingleRow.

(** ** Unique column names *)

Lemma u_inj (a b : string) : u a = u b -> a = b.
Proof.
  unfold u. intros E.
  rewrite <- (string_of_list_ascii_of_string a),
          <- (string_of_list_ascii_of_string b).
  f_equal. revert E.
  generalize (list_ascii_of_string a), (list_ascii_of_string b).
  intros l. induction l as [|x l IH]; intros [|y l']; simpl;
    try discriminate; try reflexivity.
  intros E. injection E as Exy El. f_equal; [|apply IH; exact El].
  rewrite <- (ascii_N_embedding x), <- (ascii_N_embedding y), Exy.
  reflexivity.
Qed.

Lemma str_of_nat_inj (a b : nat) : str_of_nat a = str_of_nat b -> a = b.
Proof.
  unfold str_of_nat. intros E. apply u_inj in E.
  apply DecimalNat.Unsigned.to_uint_inj.
  pose proof (NilEmpty.usu (Nat.to_uint a)) as Ea.
  pose proof (NilEmpty.usu (Nat.to_uint b)) as Eb.
  rewrite E in Ea. congruence.
Qed.

Lemma candidate_inj (word_column : str) (a b : nat) :
  1 <= a -> 1 <= b ->
  candidate word_column a = candidate word_column b -> a = b.
Proof.
  unfold candidate. intros Ha Hb.
  destruct (a =? 1) eqn:Ea, (b =? 1) eqn:Eb.
  - apply Nat.eqb_eq in Ea, Eb. congruence.
  - intros E. apply (f_equal (@length char)) in E.
    rewrite !length_app in E. simpl in E. lia.
  - intros E. apply (f_equal (@length char)) in E.
    rewrite !length_app in E. simpl in E. lia.
  - intros E. apply app_inv_head in E. apply app_inv_head in E.
    apply str_of_nat_inj. exact E.
Qed.

Lemma dedup_fresh (word_column : str) (_columns : list str) :
  forall (fuel base : nat) (left : list str),
    1 <= base ->
    (forall k, base <= k -> In (candidate word_column k) _columns ->
               In (candidate word_column k) left) ->
    length left < fuel ->
    exists b,
      base <= b
      /\ dedup fuel word_column _columns base (candidate word_column base)
         = candidate word_column b
      /\ ~ In (candidate word_column b) _columns
      /\ forall k, base <= k < b -> In (candidate word_column k) _columns.
Proof.
  induction fuel as [|fuel IH]; intros base left Hbase Hleft Hlen; [lia|].
  cbn [dedup].
  destruct (str_in (candidate word_column base) _columns) eqn:E.
  - apply str_in_In in E.
    assert (word_column ++ u "_" ++ str_of_nat (S base)
            = candidate word_column (S base)) as ->.
    { unfold candidate. destruct base; [lia | reflexivity]. }
    destruct (IH (S base)
                (remove (list_eq_dec N.eq_dec) (candidate word_column base)
                        left)) as (b & Hb & Eb & Hfresh & Hbelow).
    + lia.
    + intros k Hk Hin. apply in_in_remove.
      * intros C. apply candidate_inj in C; lia.
      * apply Hleft; [lia | exact Hin].
    + apply Nat.lt_le_trans with (m := length left).
      * exact (remove_length_lt (list_eq_dec N.eq_dec) left
                 (candidate word_column base) (Hleft base (le_n _) E)).
      * apply Nat.lt_succ_r. exact Hlen.
    + exists b. split; [lia|]. split; [exact Eb|]. split; [exact Hfresh|].
      intros k Hk. destruct (Nat.eq_dec k base) as [->|Hne]; [exact E|].
      apply Hbelow. lia.
  - exists base. split; [lia|]. split; [reflexivity|]. split.
    + intros Hin. apply str_in_In in Hin. congruence.
    + intros k Hk. lia.
Qed.

Section UniqueNames.
Context {H : Host}.

(** The fuel of the inner loop is enough.  [restrict_columns] keeps the
    names it was given and appends one name per column, in order: the
    restricted word, or that word with the least suffix [_2], [_3], ...
    that is not yet taken; the names stay pairwise distinct. *)
Lemma restrict_columns_unique (columns : list str) :
  forall _columns : list str,
    NoDup _columns ->
    exists names,
      restrict_columns columns _columns = _columns ++ names
      /\ NoDup (_columns ++ names)
      /\ Forall2 (fun column name =>
                    exists b,
                      1 <= b
                      /\ name = candidate (word_column_of column) b)
                 columns names.
Proof.
  induction columns as [|column rest IH]; intros _columns Hnd.
  - exists []. rewrite app_nil_r. repeat split; [exact Hnd | constructor].
  - cbn [restrict_columns].
    destruct (dedup_fresh (word_column_of column) _columns
                (S (length _columns)) 1 _columns (le_n 1)
                (fun k _ Hin => Hin) (Nat.lt_succ_diag_r _))
      as (b & Hb & Eb & Hfresh & _).
    change (candidate (word_column_of column) 1)
      with (word_column_of column) in Eb.
    rewrite Eb.
    destruct (IH (_columns ++ [candidate (word_column_of column) b]))
      as (names & En & Hnd' & Hall).
    { apply NoDup_app; [exact Hnd | repeat constructor; intros [] |].
      intros x Hx [<- | []]. exact (Hfresh Hx). }
    exists (candidate (word_column_of column) b :: names).
    rewrite En, <- app_assoc. cbn [app].
    rewrite <- app_assoc in Hnd'. cbn [app] in Hnd'.
    split; [reflexivity|]. split; [exact Hnd'|].
    constructor; [|exact Hall]. exists b. split; [exact Hb | reflexivity].
Qed.

(** X1.  The column names that [create_table] makes of supplied names
    are pairwise distinct, one per supplied name and in the same order,
    each the restricted word of its name or that word with a suffix
    [_2], [_3], ... *)
Theorem restrict_columns_distinct (columns : list str) :
  NoDup (restrict_columns columns [])
  /\ Forall2 (fun column name =>
                exists b,
                  1 <= b /\ name = candidate (word_column_of column) b)
             columns (restrict_columns columns []).
Proof.
  destruct (restrict_columns_unique columns [] (NoDup_nil _))
    as (names & -> & Hnd & Hall).
  split; [exact Hnd | exact Hall].
Qed.

End UniqueNames.

(** ** The claims about [create_table] *)

Section CreateTableClaims.
Context {H : Host}.

Lemma length_zip_columns (columns : column_names) (types : list str) :
  length (zip_columns columns types)
  = match columns with
    | Generated _ => length types
    | Listed names => Nat.min (length names) (length types)
    end.
Proof.
  destruct columns as [char|names]; unfold zip_columns.
  - rewrite length_combine, length_map, length_seq. apply Nat.min_id.
  - apply length_combine.
Qed.

Lemma snd_combine_firstn {A B : Type} (l : list A) (l' : list B) :
  map snd (combine l l') = firstn (length (combine l l')) l'.
Proof.
  revert l'. induction l as [|a l IH]; intros [|b l']; simpl;
    try reflexivity.
  rewrite IH. reflexivity.
Qed.

(** C6, as amended.  [create_table] requires one type at least: with no
    type it raises [ValueError] and nothing reaches the engine.  It does
    not compare the number of columns with the number of types.  With a
    type it hands the engine one statement, whose body is one clause per
    pair of the column names zipped with the types, the quoted name then
    the type as given, joined by commas: as many clauses as there are
    types when the names are generated, and as the shorter of the two
    lists otherwise. *)
Theorem create_table_contract (tablename : str) (types : list str)
  (columns : option (list str)) (if_not_exists : bool) (w : world) :
  (types = [] ->
   create_table tablename types columns if_not_exists w
   = (Raise (mkExc ValueError [u "Must specify types."]), w))
  /\ (types <> [] ->
      exists r c pairs,
        pairs = zip_columns (name_columns tablename columns) types
        /\ create_table tablename types columns if_not_exists w
           = (r, mkWorld c
                   (create_table_sql tablename pairs if_not_exists :: sent w)
                   (warnings w))
        /\ map snd pairs = firstn (length pairs) types
        /\ length pairs
           = match name_columns tablename columns with
             | Generated _ => length types
             | Listed names => Nat.min (length names) (length types)
             end
        /\ create_table_sql tablename pairs if_not_exists
           = u "CREATE TABLE "
               ++ (if if_not_exists then u "IF NOT EXISTS " else [])
               ++ quote_identifier tablename ++ u " (" ++ newline ++ u "  "
               ++ join (u "," ++ newline ++ u "  ")
                    (map (fun ct => quote_identifier (fst ct) ++ u " "
                                      ++ snd ct) pairs)
               ++ newline ++ u ")").
Proof.
  split.
  - intros ->. apply create_table_no_types.
  - intros Ht.
    destruct (create_table_sends tablename types columns if_not_exists w Ht)
      as (r & c & E).
    exists r, c. eexists. split; [reflexivity|]. split; [exact E|].
    split; [|split].
    + destruct (name_columns tablename columns) as [char|names];
        unfold zip_columns.
      * rewrite snd_combine_firstn. reflexivity.
      * apply snd_combine_firstn.
    + apply length_zip_columns.
    + reflexivity.
Qed.

End CreateTableClaims.

(** ** Running the code on the examples *)


(** [test_detect_types]. *)
Example detect_types_test_table :
  @detect_types ascii_host test_table
  = Ok [u "INTEGER"; u "TEXT"; u "REAL"; u "BLOB"].
Proof. vm_compute. reflexivity. Qed.

(** [test_create_table_duplication_prevention]. *)
Example restrict_columns_colours :
  @restrict_columns ascii_host
    [u "Red"; u "Green"; u "Red"; u "Blue"; u "Green"; u "Green"] []
  = [u "Red"; u "Green"; u "Red_2"; u "Blue"; u "Green_2"; u "Green_3"].
Proof. vm_compute. reflexivity. Qed.

(** [test_ignore_errors_True]: the twenty full rows are loaded, the
    short row is left out. *)
Example loadfile_ignores_short_row :
  rows_of (u "A") (live (dbc abc_loaded))
  = repeat [Some (u "1"); Some (u "2"); Some (u "3")] 20.
Proof. vm_compute. reflexivity. Qed.

(** An empty cell is stored as null. *)
Example loadfile_stores_null :
  rows_of (u "T")
    (live (dbc (snd (@loadfile ascii_host (mkImporter false false)
                       (u "t.csv") with_empty_cell (u "T") true fresh))))
  = [ [Some (u "1"); None; Some (u "30")];
      [Some (u "2"); Some (u "Lucy"); Some (u "16")] ].
Proof. vm_compute. reflexivity. Qed.

(** A cell that holds the escape of an undecodable byte cannot be bound:
    with errors ignored its row is skipped, and the warning is the
    [UnicodeEncodeError] of the cell; with errors not ignored the call
    raises it. *)
Example loadfile_skips_undecodable :
  rows_of (u "T")
    (live (dbc (snd (@loadfile ascii_host (mkImporter true true)
                       (u "l.csv") latin (u "T") true fresh))))
  = [ [Some (u "Max"); Some (u "30")] ]
  /\ map exc_type
       (warnings (snd (@loadfile ascii_host (mkImporter true true)
                         (u "l.csv") latin (u "T") true fresh)))
     = [UnicodeEncodeError; UnicodeEncodeError]
  /\ fst (@loadfile ascii_host (mkImporter false false)
            (u "l.csv") latin (u "T") true fresh)
     = Raise (mkExc UnicodeEncodeError
                [u "utf-8"; u "Ren" ++ [0xDCE9%N]; u "3"; u "4";
                 u "surrogates not allowed (l.csv, row 2) "]).
Proof. vm_compute. repeat split; reflexivity. Qed.

(** C5, at the failing input.  [re.M | re.U] is forty and is taken for
    the count of [re.sub]: in a name with forty-one runs of characters
    outside [\w] the last run is left as it is, so the restricted name
    still holds such a character; replacing every run would give the
    name of forty-two letters joined by underscores. *)
Theorem restrict_columns_leaves_run :
  N.lor re_M re_U = 40%N
  /\ @restrict_columns ascii_host [many_runs] []
     = [concat (repeat (u "a_") 40) ++ u "a-a"]
  /\ existsb (fun c => negb (ascii_word c))
             (concat (@restrict_columns ascii_host [many_runs] [])) = true
  /\ strip (N.eqb underscore) (@re_sub_nonword ascii_host many_runs 0)
     = concat (repeat (u "a_") 41) ++ u "a".
Proof. vm_compute. repeat split; reflexivity. Qed.


(** C6, counterexample.  Two columns and one type: no error is raised
    and the statement is executed, creating a table of one column. *)
Lemma create_table_accepts_arity_mismatch :
  length [u "a"; u "b"] <> length [u "INTEGER"]
  /\ fst (@create_table ascii_host (u "A") [u "INTEGER"]
            (Some [u "a"; u "b"]) true fresh) = Ok tt
  /\ live (dbc (snd (@create_table ascii_host (u "A") [u "INTEGER"]
                       (Some [u "a"; u "b"]) true fresh)))
     = [(u "A", mkTable [(u "a", u "INTEGER")] [])].
Proof.
  split; [discriminate|]. vm_compute. split; reflexivity.
Qed.

(** C2, counterexample.  The first record of the file is declared a
    header, and the columns of the table are not named by its cells as
    they stand: the space has become an underscore and the second [a]
    has got a suffix. *)
Lemma loadfile_header_not_literal :
  (exists sch,
      @detect_schema ascii_host (firstn 20 (records spaced_header)) = Ok sch
      /\ has_header sch = true
      /\ columns sch = Some [u "first name"; u "a"; u "a"])
  /\ fst (@loadfile ascii_host (mkImporter false false) (u "s.csv")
            spaced_header (u "T") true fresh) = Ok PyNone
  /\ (exists t,
         db_find (u "T")
           (live (dbc (snd (@loadfile ascii_host (mkImporter false false)
                              (u "s.csv") spaced_header (u "T") true fresh))))
         = Some t
         /\ map fst (tbl_columns t) = [u "first_name"; u "a"; u "a_2"])
  /\ [u "first_name"; u "a"; u "a_2"] <> [u "first name"; u "a"; u "a"].
Proof.
  split; [|split; [|split]].
  - eexists. vm_compute. repeat split; reflexivity.
  - vm_compute. reflexivity.
  - eexists. vm_compute. split; reflexivity.
  - discriminate.
Qed.

(** C10, counterexample.  The one record of the file is declared a
    header, and the columns of the table are not named by its cells as
    they stand. *)
Lemma loadfile_single_record_not_literal :
  firstn 20 (records spaced_record) = [ [u "first name"; u "a"; u "a"] ]
  /\ fst (@loadfile ascii_host (mkImporter false false) (u "s.csv")
            spaced_record (u "T") true fresh) = Ok PyNone
  /\ live (dbc (snd (@loadfile ascii_host (mkImporter false false)
                       (u "s.csv") spaced_record (u "T") true fresh)))
     = [(u "T",
         mkTable [(u "first_name", u "TEXT"); (u "a", u "TEXT");
                  (u "a_2", u "TEXT")] [])]
  /\ [u "first_name"; u "a"; u "a_2"] <> [u "first name"; u "a"; u "a"].
Proof.
  split; [reflexivity|]. split; [vm_compute; reflexivity|].
  split; [vm_compute; reflexivity | discriminate].
Qed.



(** ** The theorems at the examples *)

Lemma detect_types_first_accepting_witness :
  decoded_table test_table
  /\ @detect_types ascii_host test_table
     = Ok (map (@column_type ascii_host) (zip_star test_table)).
Proof.
  assert (decoded_table test_table) as Hd by (repeat constructor).
  split; [exact Hd|].
  exact (proj1 (@detect_types_first_accepting ascii_host test_table Hd)).
Defined.


Lemma loadfile_header_decision_witness :
  exists sch first rest t,
    @detect_schema ascii_host (firstn 20 (records spaced_header)) = Ok sch
    /\ records spaced_header = first :: rest
    /\ (has_header sch = true
        <-> [u "TEXT"; u "INTEGER"; u "INTEGER"]
            <> [u "TEXT"; u "TEXT"; u "TEXT"])
    /\ db_find (u "T")
         (live (dbc (snd (@loadfile ascii_host (mkImporter false false)
                            (u "s.csv") spaced_header (u "T") true fresh))))
       = Some t
    /\ if has_header sch then
         tbl_columns t
         = @header_columns ascii_host (u "T") first
             [u "TEXT"; u "INTEGER"; u "INTEGER"]
         /\ tbl_rows t
            = map parameters_of
                (filter
                   (@accepted ascii_host (u "T") (length first)
                      (live (dbc (snd (@loadfile ascii_host
                                         (mkImporter false false) (u "s.csv")
                                         spaced_header (u "T") true fresh)))))
                   rest)
       else
         tbl_columns t
         = @numbered_columns ascii_host (u "T") [u "TEXT"; u "TEXT"; u "TEXT"]
         /\ tbl_rows t
            = map parameters_of
                (filter
                   (@accepted ascii_host (u "T") (length first)
                      (live (dbc (snd (@loadfile ascii_host
                                         (mkImporter false false) (u "s.csv")
                                         spaced_header (u "T") true fresh)))))
                   (first :: rest)).
Proof.
  apply (@loadfile_header_decision ascii_host (mkImporter false false)
           (u "s.csv") (u "T") spaced_header
           [u "TEXT"; u "TEXT"; u "TEXT"]
           [u "TEXT"; u "INTEGER"; u "INTEGER"] fresh
           (snd (@loadfile ascii_host (mkImporter false false) (u "s.csv")
                   spaced_header (u "T") true fresh)) PyNone);
    vm_compute; reflexivity.
Defined.




Lemma loadfile_single_record_witness :
  exists typedefs,
    @detect_schema ascii_host (firstn 20 (records one_record))
    = Ok (mkSchema true typedefs 2 (Some [u "x"; u "1"]))
    /\ typedefs = [u "TEXT"; u "INTEGER"]
    /\ @rowgen one_record true = []
    /\ exists w',
         @loadfile ascii_host (mkImporter true false) (u "f.csv") one_record
           (u "A") true fresh = (Ok PyNone, w')
         /\ live (dbc w')
            = [(u "A",
                mkTable (combine (@restrict_columns ascii_host
                                    [u "x"; u "1"] []) typedefs) [])].
Proof.
  destruct (@loadfile_single_record ascii_host (mkImporter true false)
              (u "f.csv") (u "A") one_record [u "x"; u "1"])
    as (typedefs & _ & _ & _ & Et & Es & Er & Hload).
  - reflexivity.
  - reflexivity.
  - reflexivity.
  - discriminate.
  - repeat constructor.
  - exists typedefs. split; [exact Es|].
    assert (typedefs = [u "TEXT"; u "INTEGER"]) as Ety
        by (rewrite Et; vm_compute; reflexivity).
    split; [exact Ety|]. split; [exact Er|].
    destruct (Hload fresh
                (snd (@create_table ascii_host (u "A") typedefs
                        (Some [u "x"; u "1"]) true fresh)))
      as (w' & Erun & _ & Elive).
    + reflexivity.
    + rewrite Ety. vm_compute. reflexivity.
    + exists w'. split; [exact Erun | exact Elive].
Defined.

(** * Further properties of the importer *)

(** ** Every way out of [loadfile] *)

Section LoadFileOutcomes.
Context {H : Host}.


(** X3.  Whatever makes [loadfile] raise (no dialect, no type, no types
    for the table, a statement the engine refuses, a row it refuses while
    errors are not ignored), a call made on an idle connection leaves the
    connection idle and every table with exactly the rows it had. *)
Theorem loadfile_failure_keeps_rows (self : importer)
  (filename tablename : str) (file : csv_file) (flag : bool)
  (w w' : world) (e : exception) :
  idle (dbc w) ->
  loadfile self filename file tablename flag w = (Raise e, w') ->
  idle (dbc w')
  /\ forall n, rows_of n (live (dbc w')) = rows_of n (live (dbc w)).
Proof.
  intros Hidle. unfold loadfile.
  destruct (sniffs file); cbn [negb].
  - destruct (detect_schema (firstn 20 (records file))) as [sch|e0].
    + apply load_rows_failure. exact Hidle.
    + intros [= _ <-]. split; [exact Hidle | reflexivity].
  - intros [= _ <-]. split; [exact Hidle | reflexivity].
Qed.


(** X5.  The [INSERT] statement names the table by its unquoted text.
    When the engine does not read that text as a table name, a call that
    returns has inserted nothing: every table holds exactly the rows it
    had, the table created by the call none. *)
Theorem loadfile_unquoted_name_inserts_nothing (self : importer)
  (filename tablename : str) (file : csv_file) (flag : bool)
  (first : list str) (rest : list (list str)) (sch : schema)
  (w w' : world) (v : pyvalue) :
  sql_unquoted tablename = None ->
  sniffs file = true ->
  records file = first :: rest ->
  detect_schema (firstn 20 (records file)) = Ok sch ->
  loadfile self filename file tablename flag w = (Ok v, w') ->
  (forall n, rows_of n (live (dbc w')) = rows_of n (live (dbc w)))
  /\ (flag = true -> present tablename (live (dbc w')) = true)
  /\ (ignore_errors self = false -> rowgen file (has_header sch) = []).
Proof.
  intros Hu Hs Hr Hd Hrun.
  destruct (loadfile_ok_steps self filename tablename file flag first rest
              sch w w' v Hs Hr Hd Hrun) as (w1 & w2 & Ec & Ei & _ & _ & ->).
  destruct (create_step_effect _ _ _ _ _ _ Ec) as (_ & _ & Hrows).
  cbn [dbc live commit].
  assert (forall db, prepare_insert tablename (length first) db
                     = inl SyntaxError) as Hprep
      by (intros db; unfold prepare_insert; rewrite Hu; reflexivity).
  destruct (insert_rows_ok _ _ _ _ _ _ _ _ _ Ei) as (_ & Elive & Hall).
  unfold after_inserts in Elive. rewrite Hprep in Elive. rewrite Elive.
  split; [exact Hrows|]. split.
  - intros ->. apply (create_table_ok _ _ _ _ _ Ec).
  - intros Hi. specialize (Hall Hi).
    destruct (rowgen file (has_header sch)) as [|row rows]; [reflexivity|].
    cbn [forallb] in Hall. apply andb_true_iff in Hall.
    destruct Hall as [Ha _]. unfold accepted in Ha. rewrite Hprep in Ha.
    rewrite andb_false_r in Ha. discriminate.
Qed.


End LoadFileOutcomes.

(** ** Generated and restricted column names *)

Lemma u_cons (c : ascii) (s : string) :
  u (String c s) = N_of_ascii c :: u s.
Proof. reflexivity. Qed.

Lemma str_of_nat_digits (n : nat) : forallb is_digit (str_of_nat n) = true.
Proof.
  unfold str_of_nat. generalize (Nat.to_uint n). intros d.
  induction d; cbn [NilEmpty.string_of_uint]; try reflexivity;
    rewrite u_cons; cbn [forallb]; rewrite IHd; reflexivity.
Qed.

Lemma ascii_lower_digits (s : str) :
  forallb is_digit s = true -> map ascii_lower s = s.
Proof.
  induction s as [|c s IH]; cbn [forallb map]; [reflexivity|].
  intros E. apply andb_true_iff in E. destruct E as [Ec Es].
  rewrite (IH Es). f_equal. unfold is_digit in Ec. unfold ascii_lower.
  apply andb_true_iff in Ec. destruct Ec as [E1 E2].
  apply N.leb_le in E1, E2.
  destruct (N.leb_spec 65 c) as [L|L]; [|reflexivity].
  exfalso. lia.
Qed.

Lemma numbered_name_eqb (char : str) (a b : nat) :
  name_eqb (char ++ str_of_nat a) (char ++ str_of_nat b) = true -> a = b.
Proof.
  intros E. apply name_eqb_eq in E. rewrite !map_app in E.
  apply app_inv_head in E.
  rewrite !ascii_lower_digits in E by apply str_of_nat_digits.
  apply str_of_nat_inj. exact E.
Qed.

Lemma dup_names_numbered (char : str) (len start : nat) :
  dup_names (map (fun n => char ++ str_of_nat n) (seq start len)) = false.
Proof.
  revert start. induction len as [|len IH]; intros start; [reflexivity|].
  cbn [seq map dup_names]. rewrite IH, orb_false_r.
  apply not_true_iff_false. intros E. apply existsb_exists in E.
  destruct E as (x & Hx & Ex). apply in_map_iff in Hx.
  destruct Hx as (k & <- & Hk). apply in_seq in Hk.
  apply numbered_name_eqb in Ex. lia.
Qed.

Section ColumnNames.
Context {H : Host}.

Lemma combine_split {A B : Type} (l : list A) (l' : list B) :
  length l = length l' ->
  map fst (combine l l') = l /\ map snd (combine l l') = l'.
Proof.
  revert l'. induction l as [|a l IH]; intros [|b l'] E;
    try discriminate; cbn [combine map fst snd].
  - split; reflexivity.
  - injection E as E. destruct (IH l' E) as [-> ->]. split; reflexivity.
Qed.

(** X7.  Without column names ([None] or an empty list) [create_table]
    numbers the columns from one after the lower-cased first letter of
    the table name, or after [n]: one column per type, the types in
    their order, no two names alike even to the engine, and the statement
    sent declares exactly these columns.  Whether the engine takes the
    statement is another matter: the table name goes into it quoted but
    may be one the engine reserves, and the type texts go into it as they
    are.  On a database that has no such table, when the statement's text
    can be encoded and the engine refuses neither the name nor the
    declarations, the statement is accepted and the table exists
    afterwards with exactly these columns and no row. *)
Theorem create_table_generated_names (tablename : str) (types : list str)
  (columns : option (list str)) (if_not_exists : bool) (w : world) :
  columns = None \/ columns = Some [] ->
  types <> [] ->
  exists pairs,
    pairs = numbered_columns tablename types
    /\ map snd pairs = types
    /\ map fst pairs
       = map (fun n => column_prefix tablename ++ str_of_nat n)
             (seq 1 (length types))
    /\ dup_names (map fst pairs) = false
    /\ (exists r c,
           create_table tablename types columns if_not_exists w
           = (r, mkWorld c
                   (create_table_sql tablename pairs if_not_exists :: sent w)
                   (warnings w)))
    /\ (db_find tablename (live (dbc w)) = None ->
        encode_check (create_table_sql tablename pairs if_not_exists) = None ->
        sql_create_refusal tablename pairs = None ->
        exists w',
          create_table tablename types columns if_not_exists w = (Ok tt, w')
          /\ db_find tablename (live (dbc w')) = Some (mkTable pairs [])).
Proof.
  intros Hc Ht.
  assert (name_columns tablename columns
          = Generated (column_prefix tablename)) as En
      by (destruct Hc as [-> | ->]; reflexivity).
  assert (zip_columns (name_columns tablename columns) types
          = numbered_columns tablename types) as Ep
      by (rewrite En; reflexivity).
  destruct (@combine_split str str
              (map (fun n => column_prefix tablename ++ str_of_nat n)
                   (seq 1 (length types))) types) as [E1 E2].
  { rewrite length_map, length_seq. reflexivity. }
  change (combine _ types) with (numbered_columns tablename types) in E1, E2.
  exists (numbered_columns tablename types).
  split; [reflexivity|]. split; [exact E2|]. split; [exact E1|].
  split; [rewrite E1; apply dup_names_numbered|]. split.
  - rewrite <- Ep. apply create_table_sends. exact Ht.
  - intros Hf He Hr. rewrite (create_table_run _ _ _ _ _ Ht), Ep.
    cbv zeta. rewrite He.
    assert (run_create if_not_exists tablename
              (numbered_columns tablename types) (live (dbc w))
            = inr (live (dbc w)
                     ++ [(tablename,
                          mkTable (numbered_columns tablename types) [])]))
      as Erun.
    { unfold run_create. clear Ep He.
      remember (numbered_columns tablename types) as pairs eqn:Ez.
      destruct pairs as [|p ps].
      - destruct types; [congruence | discriminate E2].
      - rewrite Hr, Hf, E1, dup_names_numbered. reflexivity. }
    rewrite Erun. eexists. split; [reflexivity|].
    cbn [dbc live]. rewrite db_find_app_new, Hf, name_eqb_refl. reflexivity.
Qed.

Lemma sub_runs_words (s : str) :
  forall (k : nat) (in_run : bool),
    count_runs in_run s <= k ->
    re_word underscore = true ->
    forallb re_word (sub_runs (Some k) in_run s) = true.
Proof.
  induction s as [|c s IH]; intros k in_run Hk Hu; [reflexivity|].
  cbn [sub_runs count_runs] in *.
  destruct (re_word c) eqn:Ec.
  - cbn [forallb]. rewrite Ec. apply IH; assumption.
  - destruct in_run.
    + apply IH; [exact Hk | exact Hu].
    + destruct k as [|k]; [lia|]. cbn [forallb]. rewrite Hu.
      apply IH; [lia | exact Hu].
Qed.

Lemma lstrip_forallb (p q : char -> bool) (s : str) :
  forallb q s = true -> forallb q (lstrip p s) = true.
Proof.
  induction s as [|c s IH]; cbn [lstrip forallb]; [reflexivity|].
  intros E. apply andb_true_iff in E. destruct E as [Ec Es].
  destruct (p c); [apply IH; exact Es|].
  cbn [forallb]. rewrite Ec, Es. reflexivity.
Qed.

Lemma forallb_rev {A : Type} (q : A -> bool) (s : list A) :
  forallb q (rev s) = forallb q s.
Proof.
  induction s as [|c s IH]; [reflexivity|].
  cbn [rev forallb]. rewrite forallb_app, IH. cbn [forallb].
  rewrite andb_true_r. apply andb_comm.
Qed.

Lemma strip_forallb (p q : char -> bool) (s : str) :
  forallb q s = true -> forallb q (strip p s) = true.
Proof.
  intros E. unfold strip, rstrip. rewrite forallb_rev.
  apply lstrip_forallb. rewrite forallb_rev.
  apply lstrip_forallb. exact E.
Qed.

Lemma lstrip_head (p : char -> bool) (s : str) :
  match lstrip p s with
  | [] => True
  | c :: _ => p c = false
  end.
Proof.
  induction s as [|c s IH]; cbn [lstrip]; [exact I|].
  destruct (p c) eqn:E; [exact IH | exact E].
Qed.

Lemma lstrip_suffix (p : char -> bool) (s : str) :
  exists dropped, s = dropped ++ lstrip p s.
Proof.
  induction s as [|c s IH]; cbn [lstrip]; [exists []; reflexivity|].
  destruct (p c).
  - destruct IH as (d & E). exists (c :: d). cbn [app]. f_equal. exact E.
  - exists []. reflexivity.
Qed.

Lemma strip_ends (p : char -> bool) (s : str) :
  match strip p s with
  | [] => True
  | c :: _ => p c = false
  end
  /\ match rev (strip p s) with
     | [] => True
     | c :: _ => p c = false
     end.
Proof.
  unfold strip, rstrip. split.
  - (* what is left of the head after the tail was stripped *)
    pose proof (lstrip_head p s) as Hh.
    destruct (lstrip_suffix p (rev (lstrip p s))) as (d & E).
    apply (f_equal (@rev char)) in E. rewrite rev_involutive, rev_app_distr in E.
    destruct (rev (lstrip p (rev (lstrip p s)))) as [|c t] eqn:Er; [exact I|].
    rewrite E in Hh. exact Hh.
  - rewrite rev_involutive. apply lstrip_head.
Qed.

(** X8.  A column name that has at most forty runs of characters outside
    [\w] is restricted to characters of [\w] only, and a restricted name
    neither starts nor ends with an underscore (the underscore being a
    character of [\w], as it is for [re]). *)
Theorem word_column_of_words (column : str) :
  re_word underscore = true ->
  count_runs false column <= 40 ->
  forallb re_word (word_column_of column) = true
  /\ hd_error (word_column_of column) <> Some underscore
  /\ hd_error (rev (word_column_of column)) <> Some underscore.
Proof.
  intros Hu Hk. unfold word_column_of. split.
  - apply strip_forallb. unfold re_sub_nonword.
    change (N.eqb (N.lor re_M re_U) 0) with false. cbn iota.
    change (N.to_nat (N.lor re_M re_U)) with 40.
    apply sub_runs_words; assumption.
  - destruct (strip_ends (N.eqb underscore)
                (re_sub_nonword column (N.lor re_M re_U))) as [E1 E2].
    split.
    + destruct (strip _ _) as [|c t]; [discriminate|].
      cbn [hd_error]. intros [= ->]. rewrite N.eqb_refl in E1. discriminate.
    + destruct (rev (strip _ _)) as [|c t]; [discriminate|].
      cbn [hd_error]. intros [= ->]. rewrite N.eqb_refl in E2. discriminate.
Qed.

End ColumnNames.

(** ** The further properties at the examples *)

Lemma loadfile_failure_keeps_rows_witness :
  idle (dbc fresh)
  /\ idle (dbc (snd abc_failed))
  /\ forall n,
       rows_of n (live (dbc (snd abc_failed))) = rows_of n (live (dbc fresh)).
Proof.
  split; [reflexivity|].
  apply (@loadfile_failure_keeps_rows ascii_host (mkImporter false false)
           (u "f.csv") (u "A") short_last_row true fresh (snd abc_failed)
           (match fst abc_failed with
            | Raise e => e
            | Ok _ => mkExc ValueError []
            end)).
  - reflexivity.
  - vm_compute. reflexivity.
Defined.


Lemma loadfile_unquoted_name_inserts_nothing_witness :
  @sql_unquoted ascii_host two_words = None
  /\ fst (@loadfile ascii_host (mkImporter true false) (u "p.csv")
            people two_words true fresh) = Ok PyNone
  /\ forall n,
       rows_of n
         (live (dbc (snd (@loadfile ascii_host (mkImporter true false)
                            (u "p.csv") people two_words true fresh))))
       = rows_of n (live (dbc fresh)).
Proof.
  split; [reflexivity|]. split; [vm_compute; reflexivity|].
  apply (@loadfile_unquoted_name_inserts_nothing ascii_host
           (mkImporter true false) (u "p.csv") two_words people true
           [u "name"; u "age"]
           [ [u "Jan"; u "18"]; [u "Lucy"; u "16"] ]
           people_schema fresh
           (snd (@loadfile ascii_host (mkImporter true false) (u "p.csv")
                   people two_words true fresh)) PyNone);
    vm_compute; reflexivity.
Defined.


Lemma create_table_generated_names_witness :
  exists pairs w',
    pairs = [(u "a1", u "INTEGER"); (u "a2", u "TEXT")]
    /\ @create_table ascii_host (u "A") [u "INTEGER"; u "TEXT"] None true fresh
       = (Ok tt, w')
    /\ db_find (u "A") (live (dbc w')) = Some (mkTable pairs []).
Proof.
  destruct (@create_table_generated_names ascii_host (u "A")
              [u "INTEGER"; u "TEXT"] None true fresh)
    as (pairs & Ep & _ & _ & _ & _ & Hrun).
  - left. reflexivity.
  - discriminate.
  - destruct Hrun as (w' & Erun & Efind).
    + reflexivity.
    + rewrite Ep. vm_compute. reflexivity.
    + rewrite Ep. vm_compute. reflexivity.
    + exists pairs, w'. split; [|split; [exact Erun | exact Efind]].
      rewrite Ep. vm_compute. reflexivity.
Defined.

Lemma word_column_of_words_witness :
  forallb ascii_word (@word_column_of ascii_host (u "  First - Name (s) "))
  = true
  /\ hd_error (@word_column_of ascii_host (u "  First - Name (s) "))
     <> Some underscore
  /\ hd_error (rev (@word_column_of ascii_host (u "  First - Name (s) ")))
     <> Some underscore.
Proof.
  apply (@word_column_of_words ascii_host (u "  First - Name (s) ")).
  - reflexivity.
  - vm_compute. repeat constructor.
Defined.

(** * The functions around the importer *)

(** ** [cli] *)

Lemma index_of_lt (x : str) (l : list str) (i : nat) :
  index_of x l = Some i -> i < length l.
Proof.
  revert i. induction l as [|y l IH]; intros i; cbn [index_of length].
  - discriminate.
  - destruct (str_eqb x y).
    + intros [= <-]. lia.
    + destruct (index_of x l) as [k|]; [|discriminate].
      intros [= <-]. specialize (IH k eq_refl). lia.
Qed.

Section CliFacts.
Context {C : Console}.

Lemma cli_option_invariant (st st' : cli_state) (option value : str) :
  cli_invariant st ->
  cli_option st option value = inr st' ->
  cli_invariant st'.
Proof.
  destruct st as [lv db pr ia tb args kw]. unfold cli_invariant.
  cbn [cli_loglevel cli_importer_kwargs cli_option].
  change (length loglevels) with 5. intros [Hl Hk].
  destruct (startswith (u "--") option).
  - destruct (str_eqb option (u "--invalid")).
    { destruct (str_in value [u "ignore"; u "warn"; u "fail"]) eqn:Ev;
        [|discriminate].
      intros [= <-]. cbn [cli_loglevel cli_importer_kwargs].
      split; [exact Hl|]. intros [= E1 E2].
      apply str_eqb_eq in E2. subst value. discriminate E1. }
    destruct (str_eqb option (u "--table")).
    { intros [= <-]. split; assumption. }
    destruct (str_eqb option (u "--loglevel")).
    { destruct (index_of (py_upper value) loglevels) as [level|] eqn:Ei;
        [|discriminate].
      intros [= <-]. split; [|exact Hk].
      apply (index_of_lt _ _ _ Ei). }
    destruct (str_eqb option (u "--pretty")).
    { intros [= <-]. split; assumption. }
    destruct (str_eqb option (u "--database")).
    { intros [= <-]. split; assumption. }
    intros [= <-]. split; assumption.
  - destruct (str_in option [u "-v"; u "-q"; u "-i"]).
    + destruct (str_eqb option (u "-v")).
      { intros [= <-]. cbn [cli_loglevel cli_importer_kwargs].
        split; [|exact Hk]. destruct (0 <? lv); lia. }
      destruct (str_eqb option (u "-q")).
      { intros [= <-]. cbn [cli_loglevel cli_importer_kwargs].
        split; [|exact Hk].
        destruct (lv <? 4) eqn:E; [apply Nat.ltb_lt in E|]; lia. }
      intros [= <-]. split; assumption.
    + destruct tb as [[|c t]|];
        try (destruct (nth_error option 1); [|discriminate]);
        intros [= <-]; split; assumption.
Qed.

Lemma cli_options_invariant (options : list (str * str)) :
  forall st st',
    cli_invariant st ->
    cli_options st options = inr st' ->
    cli_invariant st'.
Proof.
  induction options as [|[option value] rest IH]; intros st st' Hinv.
  - intros [= <-]. exact Hinv.
  - cbn [cli_options].
    destruct (cli_option st option value) as [e|st1] eqn:E; [discriminate|].
    apply IH. apply (cli_option_invariant _ _ _ _ Hinv E).
Qed.

(** X9.  Whatever options are given, when the loop of [cli] ends the
    verbosity is one of the five log levels: [-v] and [-q] stop at the
    two ends, so [loglevels[loglevel]] is always found; and the importer
    is never asked to log warnings for errors it does not ignore. *)
Theorem cli_loglevel_in_range (options : list (str * str)) (st : cli_state) :
  cli_options cli_start options = inr st ->
  cli_loglevel st < length loglevels
  /\ cli_importer_kwargs st <> Some (false, true)
  /\ exists st' level,
       cli_settings options = inr (st', level)
       /\ nth_error loglevels (cli_loglevel st) = Some level
       /\ cli_loadfile_args st' = cli_loadfile_args st.
Proof.
  intros E.
  assert (cli_invariant st) as [Hl Hk].
  { apply (cli_options_invariant options cli_start st); [|exact E].
    split; [cbn; lia | discriminate]. }
  split; [exact Hl|]. split; [exact Hk|].
  unfold cli_settings. rewrite E.
  destruct (nth_error loglevels (cli_loglevel st)) as [level|] eqn:En.
  - eexists. exists level. repeat split.
  - apply nth_error_None in En. lia.
Qed.

Lemma cli_options_app (pre post : list (str * str)) :
  forall st,
    cli_options st (pre ++ post)
    = match cli_options st pre with
      | inl e => inl e
      | inr st1 => cli_options st1 post
      end.
Proof.
  induction pre as [|[option value] pre IH]; intros st; [reflexivity|].
  cbn [app cli_options].
  destruct (cli_option st option value) as [e|st1]; [reflexivity|].
  apply IH.
Qed.

(** What one option does to the pending table name and to the files. *)
Lemma cli_option_files (st st' : cli_state) (option value : str) :
  cli_option st option value = inr st' ->
  if is_file_option option then
    cli_table st' = None
    /\ exists name,
         cli_loadfile_args st' = cli_loadfile_args st ++ [(value, name)]
         /\ match cli_table st with
            | Some (c :: t) => name = c :: t
            | _ =>
                exists letter,
                  nth_error option 1 = Some letter /\ name = [letter]
            end
  else
    cli_loadfile_args st' = cli_loadfile_args st
    /\ cli_table st'
       = if str_eqb option (u "--table") then Some value else cli_table st.
Proof.
  destruct st as [lv db pr ia tb args kw]. unfold is_file_option.
  cbn [cli_option cli_table cli_loadfile_args].
  destruct (startswith (u "--") option) eqn:Es; cbn [negb andb].
  - destruct (str_eqb option (u "--invalid")) eqn:E1.
    { apply str_eqb_eq in E1. subst option.
      destruct (str_in value _); [|discriminate].
      intros [= <-]. split; reflexivity. }
    destruct (str_eqb option (u "--table")) eqn:E2.
    { intros [= <-]. split; reflexivity. }
    destruct (str_eqb option (u "--loglevel")).
    { destruct (index_of _ _); [|discriminate].
      intros [= <-]. split; reflexivity. }
    destruct (str_eqb option (u "--pretty")).
    { intros [= <-]. split; reflexivity. }
    destruct (str_eqb option (u "--database")).
    { intros [= <-]. split; reflexivity. }
    intros [= <-]. split; reflexivity.
  - destruct (str_in option [u "-v"; u "-q"; u "-i"]) eqn:Ei; cbn [negb].
    + assert (str_eqb option (u "--table") = false) as Et.
      { apply not_true_iff_false. intros Et. apply str_eqb_eq in Et.
        subst option. discriminate Es. }
      rewrite Et.
      destruct (str_eqb option (u "-v")); [intros [= <-]; split; reflexivity|].
      destruct (str_eqb option (u "-q")); intros [= <-]; split; reflexivity.
    + destruct tb as [[|c t]|].
      * destruct (nth_error option 1) as [letter|]; [|discriminate].
        intros [= <-]. split; [reflexivity|]. eexists.
        split; [reflexivity|]. exists letter. split; reflexivity.
      * intros [= <-]. split; [reflexivity|]. eexists.
        split; reflexivity.
      * destruct (nth_error option 1) as [letter|]; [|discriminate].
        intros [= <-]. split; [reflexivity|]. eexists.
        split; [reflexivity|]. exists letter. split; reflexivity.
Qed.

Lemma cli_options_before (pre : list (str * str)) :
  forall st1,
    cli_options cli_start pre = inr st1 ->
    cli_table st1 = pending_table (rev pre)
    /\ length (cli_loadfile_args st1) = length (file_options pre).
Proof.
  induction pre as [|[option value] pre IH] using rev_ind; intros st1.
  - intros [= <-]. split; reflexivity.
  - rewrite cli_options_app.
    destruct (cli_options cli_start pre) as [e|st0] eqn:E0; [discriminate|].
    destruct (IH st0 eq_refl) as [Ht Hl].
    cbn [cli_options].
    destruct (cli_option st0 option value) as [e|st] eqn:E; [discriminate|].
    intros [= <-]. apply cli_option_files in E.
    rewrite rev_app_distr. cbn [rev app pending_table].
    unfold file_options. rewrite filter_app, length_app. cbn [filter fst].
    destruct (is_file_option option) eqn:Ef.
    + destruct E as (Et & name & Ea & _). rewrite Ea, length_app.
      assert (str_eqb option (u "--table") = false) as ->.
      { apply not_true_iff_false. intros Eo. apply str_eqb_eq in Eo.
        subst option. discriminate Ef. }
      split; [exact Et|]. unfold file_options in Hl. cbn [length]. lia.
    + destruct E as (Ea & Et). rewrite Ea, Et.
      destruct (str_eqb option (u "--table")).
      * split; [reflexivity|]. unfold file_options in Hl. cbn [length]. lia.
      * split; [exact Ht|]. unfold file_options in Hl. cbn [length]. lia.
Qed.

Lemma cli_options_extends (post : list (str * str)) :
  forall st st',
    cli_options st post = inr st' ->
    exists more, cli_loadfile_args st' = cli_loadfile_args st ++ more.
Proof.
  induction post as [|[option value] post IH]; intros st st'.
  - intros [= <-]. exists []. rewrite app_nil_r. reflexivity.
  - cbn [cli_options].
    destruct (cli_option st option value) as [e|st1] eqn:E; [discriminate|].
    intros E'. destruct (IH st1 st' E') as (more & Em).
    apply cli_option_files in E. destruct (is_file_option option).
    + destruct E as (_ & name & Ea & _). rewrite Ea in Em.
      exists ((value, name) :: more). rewrite Em, <- app_assoc. reflexivity.
    + destruct E as (Ea & _). rewrite Ea in Em. exists more. exact Em.
Qed.

(** X10.  Every file option of the command line gives one call of
    [loadfile], in the order of the command line.  The file is loaded
    into the table named by a [--table] option that stands before it
    with no other file option in between, the nearest one if several
    do, when that name is not empty; otherwise into the table named by
    the letter of the file option. *)
Theorem cli_file_tables (pre post : list (str * str)) (option value : str)
  (st : cli_state) :
  is_file_option option = true ->
  cli_options cli_start (pre ++ (option, value) :: post) = inr st ->
  length (cli_loadfile_args st)
  = length (file_options (pre ++ (option, value) :: post))
  /\ exists name,
       nth_error (cli_loadfile_args st) (length (file_options pre))
       = Some (value, name)
       /\ match pending_table (rev pre) with
          | Some (c :: t) => name = c :: t
          | _ =>
              exists letter,
                nth_error option 1 = Some letter /\ name = [letter]
          end.
Proof.
  intros Hf E. split.
  - apply (cli_options_before _ _ E).
  - rewrite cli_options_app in E.
    destruct (cli_options cli_start pre) as [e|st0] eqn:E0; [discriminate|].
    destruct (cli_options_before pre st0 E0) as [Ht Hl].
    cbn [cli_options] in E.
    destruct (cli_option st0 option value) as [e|st1] eqn:E1; [discriminate|].
    destruct (cli_options_extends post st1 st E) as (more & Em).
    apply cli_option_files in E1. rewrite Hf in E1.
    destruct E1 as (_ & name & Ea & Hname).
    exists name. split.
    + rewrite Em, Ea, <- app_assoc, <- Hl. cbn [app].
      rewrite nth_error_app2 by lia. rewrite Nat.sub_diag. reflexivity.
    + rewrite <- Ht. exact Hname.
Qed.

End CliFacts.
(** ** [query_split] *)

Lemma split_char_cons (sep : char) (s : str) :
  exists piece pieces, split_char sep s = piece :: pieces.
Proof.
  destruct s as [|c s]; cbn [split_char]; [eexists; eexists; reflexivity|].
  destruct (N.eqb c sep); [eexists; eexists; reflexivity|].
  destruct (split_char sep s); eexists; eexists; reflexivity.
Qed.

Lemma concat_intersperse_cons (sep : str) (c : char) (piece : str)
  (pieces : list str) :
  concat (intersperse sep ((c :: piece) :: pieces))
  = c :: concat (intersperse sep (piece :: pieces)).
Proof. destruct pieces; reflexivity. Qed.

(** The segments of [re.split] put together give the text back. *)
Lemma concat_split_semicolons (text : str) :
  concat (split_semicolons text) = text.
Proof.
  unfold split_semicolons. induction text as [|c s IH]; [reflexivity|].
  cbn [split_char]. destruct (N.eqb c semicolon) eqn:E.
  - apply N.eqb_eq in E. subst c.
    destruct (split_char_cons semicolon s) as (p & ps & Es).
    rewrite Es in *.
    change (concat (intersperse [semicolon] ([] :: p :: ps)))
      with ([semicolon] ++ concat (intersperse [semicolon] (p :: ps))).
    rewrite IH. reflexivity.
  - destruct (split_char_cons semicolon s) as (p & ps & Es).
    rewrite Es in *. cbv beta iota.
    rewrite concat_intersperse_cons. f_equal. exact IH.
Qed.

Lemma slice_skipn {A : Type} (j k : nat) (l : list A) :
  j <= k -> slice j k l ++ skipn k l = skipn j l.
Proof.
  intros Hjk. unfold slice.
  replace (skipn k l) with (skipn (k - j) (skipn j l)).
  - apply firstn_skipn.
  - rewrite skipn_skipn. f_equal. lia.
Qed.

Lemma slice_to_end {A : Type} (j : nat) (l : list A) :
  slice j (length l) l = skipn j l.
Proof.
  unfold slice. apply firstn_all2. rewrite length_skipn. lia.
Qed.

Section QuerySplitFacts.
Context {C : Console}.

Lemma split_loop_covers (segments : list str) (n : nat) :
  forall a j,
    j <= a ->
    a + n = length segments + 1 ->
    exists pieces j',
      split_loop segments (seq a n) j
      = (map (strip py_isspace) pieces, j')
      /\ Forall (fun p => truthy (strip py_isspace p) = true
                          /\ complete_statement (strip py_isspace p) = true)
                pieces
      /\ concat pieces ++ concat (skipn j' segments)
         = concat (skipn j segments)
      /\ (1 <= n ->
          truthy (strip py_isspace (concat (skipn j' segments)))
          && complete_statement
               (strip py_isspace (concat (skipn j' segments))) = false).
Proof.
  induction n as [|n IH]; intros a j Hj Ha.
  - exists [], j. repeat split; [constructor | lia].
  - cbn [seq split_loop].
    set (piece := concat (slice j a segments)).
    destruct (truthy (strip py_isspace piece)
              && complete_statement (strip py_isspace piece)) eqn:Et.
    + destruct (IH (S a) a) as (pieces & j' & Er & Hp & Hc & Hlast);
        [lia | lia |].
      rewrite Er. exists (piece :: pieces), j'.
      split; [reflexivity|]. split; [|split].
      * constructor; [|exact Hp]. apply andb_true_iff in Et. exact Et.
      * cbn [concat]. rewrite <- app_assoc, Hc. subst piece.
        rewrite <- concat_app. f_equal. apply slice_skipn. exact Hj.
      * intros _. destruct n as [|n].
        -- (* the last turn: everything was yielded *)
           cbn [seq split_loop] in Er. injection Er as Ep <-.
           assert (a = length segments) as -> by lia.
           rewrite skipn_all. reflexivity.
        -- apply Hlast. lia.
    + destruct (IH (S a) j) as (pieces & j' & Er & Hp & Hc & Hlast);
        [lia | lia |].
      rewrite Er. exists pieces, j'.
      split; [reflexivity|]. split; [exact Hp|]. split; [exact Hc|].
      intros _. destruct n as [|n].
      * cbn [seq split_loop] in Er. injection Er as Ep <-.
        assert (a = length segments) as Ea by lia.
        subst piece. rewrite Ea, slice_to_end in Et. exact Et.
      * apply Hlast. lia.
Qed.

(** X11.  [query_split] loses nothing of the text but white space: the
    text is a sequence of pieces and a remainder; the queries yielded
    are the pieces, each stripped and each a complete statement, then
    the remainder, as it stands, unless it is blank.  The remainder is
    the only query yielded that may be incomplete. *)
Theorem query_split_covers (text : str) :
  exists pieces tail,
    text = concat pieces ++ tail
    /\ query_split text
       = map (strip py_isspace) pieces
           ++ (if truthy (strip py_isspace tail) then [tail] else [])
    /\ Forall (fun p => truthy (strip py_isspace p) = true
                        /\ complete_statement (strip py_isspace p) = true)
              pieces
    /\ truthy (strip py_isspace tail)
       && complete_statement (strip py_isspace tail) = false.
Proof.
  destruct (split_loop_covers (split_semicolons text)
              (length (split_semicolons text) + 1) 0 0 (le_n 0) eq_refl)
    as (pieces & j & Er & Hp & Hc & Hlast).
  exists pieces, (concat (skipn j (split_semicolons text))).
  split; [|split; [|split]].
  - rewrite Hc. cbn [skipn]. symmetry. apply concat_split_semicolons.
  - unfold query_split. rewrite Er.
    destruct (j =? length (split_semicolons text)) eqn:Ej; cbn [negb];
      [|reflexivity].
    apply Nat.eqb_eq in Ej. rewrite Ej, skipn_all. reflexivity.
  - exact Hp.
  - apply Hlast. lia.
Qed.

End QuerySplitFacts.

(** ** [metaquery_conversion] *)

Lemma lstrip_app (p : char -> bool) (a b : str) :
  forallb p a = true -> lstrip p (a ++ b) = lstrip p b.
Proof.
  induction a as [|c a IH]; cbn [forallb app lstrip]; [reflexivity|].
  intros E. apply andb_true_iff in E. destruct E as [-> Ea].
  apply IH. exact Ea.
Qed.

Lemma rstrip_app (p : char -> bool) (s t : str) :
  forallb p t = true -> rstrip p (s ++ t) = rstrip p s.
Proof.
  intros E. unfold rstrip. rewrite rev_app_distr, lstrip_app; [reflexivity|].
  rewrite forallb_rev. exact E.
Qed.

Section MetaQueryFacts.
Context {C : Console}.

(** X12.  Semicolons and white space at the end of a query never change
    what [metaquery_conversion] returns for it. *)
Theorem metaquery_conversion_ignores_terminators (query ending : str)
  (params : list str) :
  forallb (fun c => N.eqb c semicolon || py_isspace c) ending = true ->
  metaquery_conversion (query ++ ending) params
  = metaquery_conversion query params.
Proof.
  intros E.
  assert (forall count,
             strip_terminators (query ++ ending) count
             = strip_terminators query count) as Es
      by (intros count; exact (rstrip_app _ query ending E)).
  unfold metaquery_conversion. cbv zeta. rewrite Es. reflexivity.
Qed.

End MetaQueryFacts.

(** ** These properties at the examples *)

Lemma cli_loglevel_in_range_witness :
  exists st,
    @cli_options ascii_console cli_start some_options = inr st
    /\ cli_loglevel st = 0
    /\ cli_loglevel st < length loglevels
    /\ cli_importer_kwargs st <> Some (false, true).
Proof.
  eexists. split; [vm_compute; reflexivity|]. split; [reflexivity|].
  destruct (@cli_loglevel_in_range ascii_console some_options _ eq_refl)
    as (Hl & Hk & _).
  split; [exact Hl | exact Hk].
Defined.

Lemma cli_file_tables_witness :
  exists st name,
    @cli_options ascii_console cli_start some_options = inr st
    /\ nth_error (cli_loadfile_args st) 1 = Some (u "b.csv", name)
    /\ name = u "B".
Proof.
  eexists.
  destruct (@cli_file_tables ascii_console
              [ (u "--table", u "t1"); (u "-A", u "a.csv"); (u "-v", u "") ]
              [ (u "-v", u ""); (u "-v", u ""); (u "--invalid", u "fail") ]
              (u "-B") (u "b.csv") _ eq_refl eq_refl)
    as (_ & name & En & letter & El & Ename).
  exists name. split; [reflexivity|]. split; [exact En|].
  rewrite Ename. injection El as <-. reflexivity.
Defined.

Lemma metaquery_conversion_ignores_terminators_witness :
  @metaquery_conversion ascii_console (u "DESC A" ++ u "; ;") []
  = @metaquery_conversion ascii_console (u "DESC A") [].
Proof.
  apply (@metaquery_conversion_ignores_terminators ascii_console).
  reflexivity.
Defined.

(** [test_query_split]. *)
Example query_split_test :
  @query_split ascii_console (u "SELECT 1; SELECT ';'    ; SELECT 100")
  = [u "SELECT 1;"; u "SELECT ';'    ;"; u " SELECT 100"].
Proof. vm_compute. reflexivity. Qed.

(** The grammars of [test_metaquery_conversion]. *)
Example metaquery_conversion_test :
  @metaquery_conversion ascii_console (u "DESC A") []
  = (u "PRAGMA table_info(A)", [])
  /\ @metaquery_conversion ascii_console (u "describe B;") []
     = (u "PRAGMA table_info(B)", [])
  /\ @metaquery_conversion ascii_console (u "SHOW CREATE TABLE `B`") []
     = (show_create_query, [u "B"])
  /\ @metaquery_conversion ascii_console (u "SHOW TABLES") []
     = (show_tables_query, [])
  /\ @metaquery_conversion ascii_console (u "SELECT * FROM A") []
     = (u "SELECT * FROM A", []).
Proof. vm_compute. repeat split; reflexivity. Qed.

(** ** [pretty_print_table] *)

Lemma set_nth_app {A : Type} (done : list A) (x y : A) (rest : list A)
  (index : nat) :
  index = length done ->
  set_nth index x (done ++ y :: rest) = done ++ x :: rest.
Proof.
  intros ->. induction done as [|d done IH]; cbn [set_nth length app].
  - reflexivity.
  - rewrite IH. reflexivity.
Qed.

Lemma nth_error_middle {A : Type} (done : list A) (y : A) (rest : list A)
  (index : nat) :
  index = length done ->
  nth_error (done ++ y :: rest) index = Some y.
Proof.
  intros ->. induction done as [|d done IH]; cbn [nth_error length app].
  - reflexivity.
  - exact IH.
Qed.

Lemma app_cons_assoc {A : Type} (done : list A) (y : A) (rest : list A) :
  done ++ y :: rest = (done ++ [y]) ++ rest.
Proof. rewrite <- app_assoc. reflexivity. Qed.

(** The first row fills the empty [colwidths] and [table_lines]. *)
Lemma fill_columns_initialize (b : bool) (row_height : nat)
  (cells : list (list str)) :
  forall (index : nat) (colwidths : list nat)
         (table_lines : list (list (option str))),
    index = length colwidths ->
    index = length table_lines ->
    fill_columns true (Some b) row_height index cells colwidths table_lines
    = inr (colwidths
             ++ map (fun c => list_max (map (@length char) c)) cells,
           table_lines
             ++ map (fun c =>
                       [None]
                         ++ map Some
                              (c ++ repeat [] (row_height - length c))
                         ++ (if b then [None] else []))
                    cells).
Proof.
  induction cells as [|c cells IH]; intros index colwidths table_lines Ec Et.
  - cbn [fill_columns map]. rewrite !app_nil_r. reflexivity.
  - cbn [fill_columns map]. cbv zeta.
    rewrite (nth_error_middle table_lines [None] [] index Et).
    rewrite (set_nth_app table_lines _ [None] [] index Et).
    rewrite IH.
    + rewrite <- !app_assoc. reflexivity.
    + rewrite length_app. cbn [length]. lia.
    + rewrite length_app. cbn [length]. lia.
Qed.

(** A later row updates them in place. *)
Lemma fill_columns_update (b : bool) (row_height : nat)
  (cells : list (list str)) :
  forall (index : nat) (done : list nat) (lines_done : list (list (option str)))
         (colwidths : list nat) (table_lines : list (list (option str))),
    index = length done ->
    index = length lines_done ->
    length cells = length colwidths ->
    length cells = length table_lines ->
    fill_columns false (Some b) row_height index cells
      (done ++ colwidths) (lines_done ++ table_lines)
    = inr (done
             ++ map (fun p => Nat.max (list_max (map (@length char) (fst p)))
                                      (snd p))
                    (combine cells colwidths),
           lines_done
             ++ map (fun p =>
                       snd p
                         ++ map Some
                              (fst p
                                 ++ repeat [] (row_height - length (fst p)))
                         ++ (if b then [None] else []))
                    (combine cells table_lines)).
Proof.
  induction cells as [|c cells IH];
    intros index done lines_done colwidths table_lines Ed El Ec Et.
  - destruct colwidths; [|discriminate]. destruct table_lines; [|discriminate].
    reflexivity.
  - destruct colwidths as [|w colwidths]; [discriminate|].
    destruct table_lines as [|col table_lines]; [discriminate|].
    cbn [fill_columns combine map fst snd]. cbv zeta.
    rewrite (nth_error_middle done w colwidths index Ed).
    rewrite (set_nth_app done _ w colwidths index Ed).
    rewrite (nth_error_middle lines_done col table_lines index El).
    rewrite (set_nth_app lines_done _ col table_lines index El).
    rewrite (app_cons_assoc done), (app_cons_assoc lines_done).
    rewrite IH.
    + rewrite <- !app_assoc. reflexivity.
    + rewrite length_app. cbn [length]. lia.
    + rewrite length_app. cbn [length]. lia.
    + cbn [length] in Ec. lia.
    + cbn [length] in Et. lia.
Qed.

Lemma row_cells_text (tabsize : nat) (row : list cell) :
  ~ In CellNumber row ->
  exists cells, row_cells tabsize row = inr cells
                /\ length cells = length row.
Proof.
  induction row as [|c row IH]; intros Hn.
  - exists []. split; reflexivity.
  - destruct IH as (cells & E & L).
    { intros Hin. apply Hn. right. exact Hin. }
    cbn [row_cells]. destruct c as [|s|].
    + cbn [cell_lines]. rewrite E. eexists. split; [reflexivity|].
      cbn [length]. lia.
    + cbn [cell_lines]. rewrite E. eexists. split; [reflexivity|].
      cbn [length]. lia.
    + exfalso. apply Hn. left. reflexivity.
Qed.

Lemma separate_of_some (breakafter : breakafter_value) (rowindex last : nat) :
  breakafter <> BreakRows [] ->
  exists b, separate_of breakafter rowindex last = Some b
            /\ (rowindex = last -> b = true).
Proof.
  intros Hb. destruct breakafter as [| |rows]; cbn [separate_of].
  - exists true. split; [reflexivity|intros _; reflexivity].
  - exists (rowindex =? last). split; [reflexivity|].
    intros ->. apply Nat.eqb_refl.
  - destruct (rowindex =? last) eqn:E.
    + exists true. split; [reflexivity|intros _; reflexivity].
    + destruct rows as [|r rows]; [contradiction Hb; reflexivity|].
      eexists. split; [reflexivity|].
      intros ->. rewrite Nat.eqb_refl in E. discriminate.
Qed.

Lemma map_is_none_some {A : Type} (l : list A) :
  map is_none (map Some l) = repeat false (length l).
Proof.
  induction l as [|x l IH]; [reflexivity|].
  cbn [map is_none length repeat]. rewrite IH. reflexivity.
Qed.

Lemma padded_length (c : list str) (h : nat) :
  length c <= h -> length (c ++ repeat [] (h - length c)) = h.
Proof. intros L. rewrite length_app, repeat_length. lia. Qed.

Lemma cells_heights (cells : list (list str)) :
  Forall (fun c => length c <= list_max (map (@length str) cells)) cells.
Proof.
  apply (proj1 (Forall_map (@length str) (fun k => k <= _) cells)).
  apply list_max_le. apply Nat.le_refl.
Qed.

Lemma bounded_extension (w : nat) (c : list str) (k : nat) (b : bool) :
  list_max (map (@length char) c) <= w ->
  bounded w (map Some (c ++ repeat [] k) ++ (if b then [None] else [])).
Proof.
  intros Hw. unfold bounded. apply Forall_app. split.
  - apply Forall_map. apply Forall_app. split.
    + apply list_max_le in Hw. apply Forall_map in Hw. exact Hw.
    + apply Forall_forall. intros x Hx. apply repeat_spec in Hx. subst x.
      cbn. lia.
  - destruct b; [|constructor].
    constructor; [cbn; lia|constructor].
Qed.

Lemma bounded_le (w w' : nat) (col : list (option str)) :
  bounded w col -> w <= w' -> bounded w' col.
Proof.
  intros Hb L. unfold bounded in *.
  eapply Forall_impl; [|exact Hb]. cbv beta. intros x Hx. lia.
Qed.

Lemma bounded_update (b : bool) (h : nat) (cells : list (list str)) :
  forall (colwidths : list nat) (table_lines : list (list (option str))),
    Forall2 bounded colwidths table_lines ->
    Forall2 bounded
      (map (fun p => Nat.max (list_max (map (@length char) (fst p))) (snd p))
           (combine cells colwidths))
      (map (fun p =>
              snd p
                ++ map Some (fst p ++ repeat [] (h - length (fst p)))
                ++ (if b then [None] else []))
           (combine cells table_lines)).
Proof.
  induction cells as [|c cells IH]; intros colwidths table_lines HF.
  - constructor.
  - destruct HF as [|w col colwidths table_lines Hw HF]; [constructor|].
    cbn [combine map fst snd]. constructor.
    + apply Forall_app. split.
      * apply (bounded_le w); [exact Hw|lia].
      * apply bounded_extension. lia.
    + apply IH. exact HF.
Qed.

Lemma box_state_update (n : nat) (colwidths : list nat)
  (table_lines : list (list (option str))) (closed b : bool) (h : nat)
  (cells : list (list str)) :
  box_state n colwidths table_lines closed ->
  length cells = n ->
  Forall (fun c => length c <= h) cells ->
  box_state n
    (map (fun p => Nat.max (list_max (map (@length char) (fst p))) (snd p))
         (combine cells colwidths))
    (map (fun p =>
            snd p
              ++ map Some (fst p ++ repeat [] (h - length (fst p)))
              ++ (if b then [None] else []))
         (combine cells table_lines))
    b.
Proof.
  intros (Hlen & Hb & shape & Hs & _) Hc Hh.
  split; [|split].
  - rewrite length_map, length_combine. lia.
  - apply bounded_update. exact Hb.
  - exists (shape ++ repeat false h ++ (if b then [true] else [])). split.
    + apply Forall_forall. intros x Hx. apply in_map_iff in Hx.
      destruct Hx as ((c & col) & <- & Hin). cbn [fst snd].
      pose proof (in_combine_l _ _ _ _ Hin) as Hcin.
      pose proof (in_combine_r _ _ _ _ Hin) as Hcol.
      rewrite Forall_forall in Hs, Hh.
      rewrite map_app.
      apply (f_equal2 (@app bool) (y1 := true :: shape));
        [exact (Hs col Hcol)|].
      rewrite map_app, map_is_none_some.
      rewrite padded_length by (apply Hh; exact Hcin).
      destruct b; reflexivity.
    + intros ->.
      change (true :: shape ++ repeat false h ++ [true])
        with ((true :: shape) ++ repeat false h ++ [true]).
      rewrite app_assoc. apply last_last.
Qed.

Lemma box_state_initial (b : bool) (h : nat) (cells : list (list str)) :
  Forall (fun c => length c <= h) cells ->
  box_state (length cells)
    (map (fun c => list_max (map (@length char) c)) cells)
    (map (fun c =>
            [None] ++ map Some (c ++ repeat [] (h - length c))
              ++ (if b then [None] else []))
         cells)
    b.
Proof.
  intros Hh. split; [|split].
  - apply length_map.
  - clear Hh. induction cells as [|c cells IH]; cbn [map]; constructor.
    + constructor; [cbn; lia|]. apply bounded_extension. lia.
    + exact IH.
  - exists (repeat false h ++ (if b then [true] else [])). split.
    + apply Forall_forall. intros x Hx. apply in_map_iff in Hx.
      destruct Hx as (c & <- & Hin).
      rewrite Forall_forall in Hh.
      cbn [app map is_none]. f_equal.
      rewrite map_app, map_is_none_some.
      rewrite padded_length by (apply Hh; exact Hin).
      destruct b; reflexivity.
    + intros ->.
      change (true :: repeat false h ++ [true])
        with ((true :: repeat false h) ++ [true]).
      apply last_last.
Qed.

(** The rows after the first keep the state of a box. *)
Lemma scan_rows_box (tabsize : nat) (breakafter : breakafter_value)
  (last n : nat) :
  breakafter <> BreakRows [] ->
  0 < n ->
  forall (rows : list (list cell)) (rowindex : nat) (colwidths : list nat)
         (table_lines : list (list (option str))) (closed : bool),
    Forall (text_row n) rows ->
    box_state n colwidths table_lines closed ->
    (rowindex = S last -> closed = true) ->
    exists colwidths' table_lines' closed',
      scan_rows tabsize breakafter last rowindex rows colwidths table_lines
      = inr (colwidths', table_lines')
      /\ box_state n colwidths' table_lines' closed'
      /\ (rowindex + length rows = S last -> closed' = true).
Proof.
  intros Hb Hn rows.
  induction rows as [|row rows IH];
    intros rowindex colwidths table_lines closed Hrows Hbox Hclosed.
  - exists colwidths, table_lines, closed. split; [reflexivity|].
    split; [exact Hbox|]. cbn [length]. rewrite Nat.add_0_r. exact Hclosed.
  - apply Forall_cons_iff in Hrows. destruct Hrows as ((Hl & Hnum) & Hrows).
    destruct (row_cells_text tabsize row Hnum) as (cells & Ec & Lc).
    destruct (separate_of_some breakafter rowindex last Hb)
      as (b & Es & Hlast).
    pose proof Hbox as (Hlen & Hbd & _).
    pose proof (Forall2_length Hbd) as Hlen2.
    cbn [scan_rows]. rewrite Ec. cbv zeta.
    destruct cells as [|c cells']; [cbn [length] in Lc; lia|].
    destruct table_lines as [|col table_lines']; [cbn [length] in Hlen2; lia|].
    cbv match.
    set (cells := c :: cells') in *.
    set (table_lines := col :: table_lines') in *.
    rewrite Es.
    rewrite (fill_columns_update b _ cells 0 [] [] colwidths table_lines
               eq_refl eq_refl) by lia.
    cbn [app].
    destruct (IH (S rowindex) _ _ b Hrows
                (box_state_update n colwidths table_lines closed b _ cells
                   Hbox ltac:(lia) (cells_heights cells)))
      as (colwidths' & table_lines'' & closed' & E & Hbox' & Hclosed').
    + intros Hi. apply Hlast. lia.
    + exists colwidths', table_lines'', closed'.
      split; [exact E|]. split; [exact Hbox'|].
      intros Hi. apply Hclosed'. cbn [length] in Hi. lia.
Qed.

Lemma scan_rows_app (tabsize : nat) (breakafter : breakafter_value)
  (last : nat) (rows more : list (list cell)) :
  forall (rowindex : nat) (colwidths : list nat)
         (table_lines : list (list (option str))),
    scan_rows tabsize breakafter last rowindex (rows ++ more)
      colwidths table_lines
    = match scan_rows tabsize breakafter last rowindex rows
              colwidths table_lines with
      | inl e => inl e
      | inr (colwidths', table_lines') =>
          scan_rows tabsize breakafter last (rowindex + length rows) more
            colwidths' table_lines'
      end.
Proof.
  induction rows as [|row rows IH]; intros rowindex colwidths table_lines.
  - cbn [app scan_rows length]. rewrite Nat.add_0_r. reflexivity.
  - cbn [app scan_rows length].
    destruct (row_cells tabsize row) as [e|cells]; [reflexivity|].
    cbv zeta. destruct cells as [|c cells]; [reflexivity|].
    destruct (fill_columns _ _ _ _ _ _ _) as [e|[colwidths' table_lines']];
      [reflexivity|].
    rewrite IH. rewrite Nat.add_succ_r. reflexivity.
Qed.

(** The first rows of a table, all text rows of one length, leave the
    state of a box to the rows that follow. *)
Lemma scan_rows_prefix (tabsize : nat) (breakafter : breakafter_value)
  (last n : nat) (good : list (list cell)) :
  breakafter <> BreakRows [] ->
  0 < n ->
  good <> [] ->
  Forall (text_row n) good ->
  exists colwidths table_lines closed,
    (forall more,
        scan_rows tabsize breakafter last 0 (good ++ more) [] []
        = scan_rows tabsize breakafter last (length good) more
            colwidths table_lines)
    /\ box_state n colwidths table_lines closed
    /\ (length good = S last -> closed = true).
Proof.
  intros Hb Hn Hg Hrows.
  destruct good as [|row rows]; [contradiction Hg; reflexivity|].
  apply Forall_cons_iff in Hrows. destruct Hrows as ((Hl & Hnum) & Hrows).
  destruct (row_cells_text tabsize row Hnum) as (cells & Ec & Lc).
  destruct (separate_of_some breakafter 0 last Hb) as (b & Es & Hlast).
  destruct cells as [|c cells']; [cbn [length] in Lc; lia|].
  set (cells := c :: cells') in *.
  set (h := list_max (map (@length str) cells)).
  destruct (scan_rows_box tabsize breakafter last n Hb Hn rows 1
              (map (fun c => list_max (map (@length char) c)) cells)
              (map (fun c =>
                      [None] ++ map Some (c ++ repeat [] (h - length c))
                        ++ (if b then [None] else []))
                   cells)
              b Hrows)
    as (colwidths & table_lines & closed & E & Hbox & Hclosed).
  { rewrite <- Hl, <- Lc. apply box_state_initial. apply cells_heights. }
  { intros Hi. apply Hlast. lia. }
  exists colwidths, table_lines, closed. split; [|split].
  - intros more. cbn [app scan_rows]. rewrite Ec. cbv zeta.
    subst cells. cbv match.
    set (cells := c :: cells') in *.
    rewrite Es.
    rewrite (fill_columns_initialize b _ cells 0 [] [] eq_refl eq_refl).
    cbn [app]. rewrite scan_rows_app.
    match goal with
    | |- match ?x with inl _ => _ | inr _ => _ end = _ =>
        replace x with (@inr print_error _ (colwidths, table_lines))
          by (symmetry; exact E)
    end.
    reflexivity.
  - exact Hbox.
  - intros Hi. apply Hclosed. cbn [length] in Hi. lia.
Qed.

(** The scan of a table of text rows of one length ends in a closed
    box. *)
Lemma scan_rows_table (tabsize : nat) (breakafter : breakafter_value)
  (n : nat) (table : list (list cell)) :
  breakafter <> BreakRows [] ->
  0 < n ->
  table <> [] ->
  Forall (text_row n) table ->
  exists colwidths table_lines,
    scan_rows tabsize breakafter (length table - 1) 0 table [] []
    = inr (colwidths, table_lines)
    /\ box_state n colwidths table_lines true.
Proof.
  intros Hb Hn Ht Hrows.
  destruct (scan_rows_prefix tabsize breakafter (length table - 1) n table
              Hb Hn Ht Hrows)
    as (colwidths & table_lines & closed & E & Hbox & Hclosed).
  exists colwidths, table_lines.
  specialize (E []). rewrite app_nil_r in E. rewrite E.
  split; [reflexivity|].
  rewrite Hclosed in Hbox; [exact Hbox|].
  destruct table; [contradiction Ht; reflexivity|]. cbn [length]. lia.
Qed.

(** One round of [zip] over columns that break at the same places. *)
Lemma heads_uniform (b : bool) (shape : list bool) (colwidths : list nat)
  (table_lines : list (list (option str))) :
  Forall2 bounded colwidths table_lines ->
  Forall (fun col => map is_none col = b :: shape) table_lines ->
  exists row,
    heads table_lines = Some row
    /\ Forall (fun x => is_none x = b) row
    /\ Forall2 (fun w x => entry_width x <= w) colwidths row
    /\ Forall2 bounded colwidths (map (@tl (option str)) table_lines)
    /\ Forall (fun col => map is_none col = shape)
              (map (@tl (option str)) table_lines).
Proof.
  induction 1 as [|w col colwidths table_lines Hw HF IH]; intros Hs.
  - exists []. repeat split; constructor.
  - apply Forall_cons_iff in Hs. destruct Hs as (Hc & Hs).
    destruct (IH Hs) as (row & E & Hn & Hle & Hbt & Hst).
    destruct col as [|x col]; [discriminate|].
    cbn [map] in Hc. injection Hc as Hx Hc.
    apply Forall_cons_iff in Hw. destruct Hw as (Hxw & Hw).
    exists (x :: row). cbn [heads map tl]. rewrite E.
    split; [reflexivity|].
    repeat split; constructor; assumption.
Qed.

Lemma zip_rounds_uniform (colwidths : list nat) :
  forall (shape : list bool) (table_lines : list (list (option str))),
    Forall2 bounded colwidths table_lines ->
    Forall (fun col => map is_none col = shape) table_lines ->
    Forall2 (fun b row =>
               Forall (fun x => is_none x = b) row
               /\ Forall2 (fun w x => entry_width x <= w) colwidths row)
            shape (zip_rounds (length shape) table_lines).
Proof.
  induction shape as [|b shape IH]; intros table_lines Hb Hs.
  - constructor.
  - cbn [length zip_rounds].
    destruct (heads_uniform b shape colwidths table_lines Hb Hs)
      as (row & E & Hn & Hle & Hbt & Hst).
    rewrite E. constructor.
    + split; assumption.
    + apply IH; assumption.
Qed.

Lemma print_columns_all (f : nat -> option str -> str) :
  forall (row : list (option str)) (index : nat) (done colwidths : list nat),
    index = length done ->
    length colwidths = length row ->
    print_columns f (done ++ colwidths) index row
    = Some (map (fun p => f (fst p) (snd p)) (combine colwidths row)).
Proof.
  induction row as [|x row IH]; intros index done colwidths Ed El.
  - destruct colwidths; [|discriminate]. reflexivity.
  - destruct colwidths as [|w colwidths]; [discriminate|].
    cbn [print_columns combine map fst snd].
    rewrite (nth_error_middle done w colwidths index Ed).
    rewrite (app_cons_assoc done).
    rewrite IH.
    + reflexivity.
    + rewrite length_app. cbn [length]. lia.
    + cbn [length] in El. lia.
Qed.

Lemma join_length (sep : str) (colwidths : list nat) (parts : list str) :
  Forall2 (fun w p => length p = w) colwidths parts ->
  colwidths <> [] ->
  length (join sep parts)
  = list_sum colwidths + length sep * (length colwidths - 1).
Proof.
  induction 1 as [|w p colwidths parts Hp HF IH]; intros Hne.
  - contradiction Hne. reflexivity.
  - destruct HF as [|w' p' colwidths parts Hp' HF].
    + cbn [join list_sum fold_right length]. rewrite Nat.sub_diag, Nat.mul_0_r. lia.
    + change (join sep (p :: p' :: parts))
        with (p ++ sep ++ join sep (p' :: parts)).
      rewrite !length_app, IH by discriminate.
      cbn [list_sum fold_right length].
      replace (S (S (length colwidths)) - 1)
        with (S (S (length colwidths) - 1)) by lia.
      rewrite Nat.mul_succ_r.
      generalize (length sep * (S (length colwidths) - 1)). intros k. lia.
Qed.

Lemma dashes_columns (colwidths : list nat) :
  forall row : list (option str),
    length colwidths = length row ->
    map (fun p => dashes (fst p) (snd p)) (combine colwidths row)
    = map (fun w => repeat 45%N w) colwidths.
Proof.
  induction colwidths as [|w colwidths IH]; intros row El.
  - reflexivity.
  - destruct row as [|x row]; [discriminate|].
    cbn [combine map fst snd]. rewrite IH by (cbn [length] in El; lia).
    reflexivity.
Qed.

Lemma pad_columns (colwidths : list nat) (row : list (option str)) :
  Forall2 (fun w x => entry_width x <= w) colwidths row ->
  Forall (fun x => is_none x = false) row ->
  Forall2 (fun w p => length p = w) colwidths
          (map (fun p => pad (fst p) (snd p)) (combine colwidths row)).
Proof.
  induction 1 as [|w x colwidths row Hw HF IH]; intros Hs.
  - constructor.
  - apply Forall_cons_iff in Hs. destruct Hs as (Hx & Hs).
    cbn [combine map fst snd]. constructor.
    + destruct x as [s|]; [|discriminate].
      unfold pad. cbn [entry_width] in Hw.
      rewrite length_app, repeat_length. lia.
    + apply IH. exact Hs.
Qed.

Lemma border_length (colwidths : list nat) :
  colwidths <> [] ->
  length (border colwidths)
  = list_sum colwidths + 3 * length colwidths + 2.
Proof.
  intros Hne. unfold border.
  rewrite !length_app, (join_length _ colwidths).
  - change (length (u "+-")) with 2. change (length (u "-+-")) with 3.
    change (length (u "-+")) with 2. change (length newline) with 1.
    destruct colwidths; [contradiction Hne; reflexivity|].
    cbn [length]. lia.
  - clear Hne. induction colwidths as [|w colwidths IH]; cbn [map];
      constructor; [apply repeat_length|exact IH].
  - exact Hne.
Qed.

(** What one turn of the printing loop writes for a row that is all
    breaks, or all text that fits the widths. *)
Lemma print_row_line (colwidths : list nat) (b : bool)
  (row : list (option str)) :
  colwidths <> [] ->
  Forall (fun x => is_none x = b) row ->
  Forall2 (fun w x => entry_width x <= w) colwidths row ->
  exists line,
    print_row colwidths row = (line, None)
    /\ length line = list_sum colwidths + 3 * length colwidths + 2
    /\ (if b then line = border colwidths
        else exists body, line = u "| " ++ body ++ u " |" ++ newline).
Proof.
  intros Hne Hs Hw.
  pose proof (Forall2_length Hw) as El.
  destruct row as [|x row].
  { destruct colwidths; [contradiction Hne; reflexivity|discriminate]. }
  pose proof (Forall_inv Hs) as Hx. cbv beta in Hx.
  unfold print_row.
  destruct x as [s|].
  - destruct b; [discriminate|].
    pose proof (print_columns_all pad (Some s :: row) 0 [] colwidths
                  eq_refl El) as Ep.
    cbn [app] in Ep. rewrite Ep.
    eexists. split; [reflexivity|]. split.
    + rewrite !length_app.
      rewrite (join_length _ colwidths) by
        (try exact Hne; apply pad_columns; assumption).
      change (length (u "| ")) with 2. change (length (u " | ")) with 3.
      change (length (u " |")) with 2. change (length newline) with 1.
      destruct colwidths; [contradiction Hne; reflexivity|].
      cbn [length]. lia.
    + eexists. reflexivity.
  - destruct b; [|discriminate].
    pose proof (print_columns_all dashes (None :: row) 0 [] colwidths
                  eq_refl El) as Ep.
    cbn [app] in Ep. rewrite Ep.
    rewrite (dashes_columns colwidths (None :: row) El).
    exists (border colwidths). split; [reflexivity|]. split.
    + apply border_length. exact Hne.
    + reflexivity.
Qed.

Lemma print_rows_lines (colwidths : list nat) (shape : list bool)
  (rows : list (list (option str))) :
  colwidths <> [] ->
  Forall2 (fun b row =>
             Forall (fun x => is_none x = b) row
             /\ Forall2 (fun w x => entry_width x <= w) colwidths row)
          shape rows ->
  exists lines,
    print_rows colwidths rows = (lines, None)
    /\ Forall2 (fun (b : bool) (line : str) =>
                  length line
                  = list_sum colwidths + 3 * length colwidths + 2
                  /\ (if b then line = border colwidths
                      else exists body,
                          line = u "| " ++ body ++ u " |" ++ newline))
               shape lines.
Proof.
  intros Hne HF. induction HF as [|b row shape rows [Hs Hw] HF IH].
  - exists []. split; [reflexivity|constructor].
  - destruct (print_row_line colwidths b row Hne Hs Hw) as (line & E & Hl).
    destruct IH as (lines & Er & Hlines).
    exists (line :: lines). cbn [print_rows]. rewrite E, Er.
    split; [reflexivity|]. constructor; assumption.
Qed.

Lemma Forall2_last {A B : Type} (P : A -> B -> Prop) (l1 : list A)
  (l2 : list B) (d1 : A) (d2 : B) :
  Forall2 P l1 l2 -> l1 <> [] -> P (last l1 d1) (last l2 d2).
Proof.
  induction 1 as [|x y l1 l2 Hxy HF IH]; intros Hne.
  - contradiction Hne. reflexivity.
  - destruct HF as [|x' y' l1 l2 Hxy' HF].
    + exact Hxy.
    + apply IH. discriminate.
Qed.

Lemma Forall2_right {A B : Type} (P : A -> B -> Prop) (Q : B -> Prop)
  (l1 : list A) (l2 : list B) :
  (forall x y, P x y -> Q y) -> Forall2 P l1 l2 -> Forall Q l2.
Proof.
  intros HPQ. induction 1; constructor; eauto.
Qed.

(** X13.  A non-empty table whose rows all have the same number n > 0 of
    cells, each a string or None, printed with a [breakafter] other than
    the empty list, is written without an exception as a box: the first
    and the last line are the border of the column widths, every line is
    the border or a text line between bars, and all lines have the same
    length, the sum of the widths plus 3 n + 2 with the line feed. *)
Theorem pretty_print_table_box (table : list (list cell))
  (breakafter : breakafter_value) (tabsize n : nat) :
  table <> [] ->
  0 < n ->
  Forall (text_row n) table ->
  breakafter <> BreakRows [] ->
  exists colwidths lines,
    pretty_print_table table breakafter tabsize = (lines, None)
    /\ length colwidths = n
    /\ hd [] lines = border colwidths
    /\ last lines [] = border colwidths
    /\ Forall (fun line =>
                 length line = list_sum colwidths + 3 * n + 2
                 /\ (line = border colwidths
                     \/ exists body,
                         line = u "| " ++ body ++ u " |" ++ newline))
              lines.
Proof.
  intros Ht Hn Hrows Hb.
  destruct (scan_rows_table tabsize breakafter n table Hb Hn Ht Hrows)
    as (colwidths & table_lines & Es & Hlen & Hbd & shape & Hs & Hclosed).
  assert (colwidths <> []) as Hne.
  { intros ->. cbn [length] in Hlen. lia. }
  unfold pretty_print_table. cbv zeta. rewrite Es. cbv match.
  assert (zip_star table_lines
          = zip_rounds (length (true :: shape)) table_lines) as Ez.
  { destruct table_lines as [|first rest].
    - apply Forall2_length in Hbd. cbn [length] in Hbd. lia.
    - unfold zip_star. apply Forall_inv in Hs. cbv beta in Hs.
      rewrite <- Hs, length_map. reflexivity. }
  rewrite Ez.
  pose proof (zip_rounds_uniform colwidths (true :: shape) table_lines
                Hbd Hs) as Hz.
  destruct (print_rows_lines colwidths _ _ Hne Hz) as (lines & Ep & Hl).
  exists colwidths, lines.
  split; [exact Ep|]. split; [exact Hlen|].
  split; [|split].
  - inversion Hl as [|b line shape' lines' Hline HF]; subst.
    exact (proj2 Hline).
  - pose proof (Forall2_last _ _ _ false [] Hl) as Hlast.
    cbv beta in Hlast. rewrite (Hclosed eq_refl) in Hlast.
    apply Hlast. discriminate.
  - rewrite <- Hlen.
    refine (Forall2_right _ _ _ _ _ Hl).
    intros b line (Hq1 & Hq2). split; [exact Hq1|].
    destruct b; [left|right]; exact Hq2.
Qed.

Lemma row_cells_number (tabsize : nat) (row : list cell) :
  In CellNumber row -> row_cells tabsize row = inl PrintAttributeError.
Proof.
  induction row as [|c row IH]; intros Hin; [contradiction Hin|].
  cbn [row_cells]. destruct c as [|s|].
  - cbn [cell_lines]. rewrite IH; [reflexivity|].
    destruct Hin as [Hc|Hin]; [discriminate|exact Hin].
  - cbn [cell_lines]. rewrite IH; [reflexivity|].
    destruct Hin as [Hc|Hin]; [discriminate|exact Hin].
  - reflexivity.
Qed.

(** X14.  With a [breakafter] other than the empty list: after any
    number of rows of n > 0 cells that are strings or None, a row that
    holds a number makes [pretty_print_table] raise AttributeError (a
    number has no expandtabs), and an empty row makes it raise ValueError
    (max of nothing); nothing is written in either case, whatever follows
    the row.  (With the empty list a row before that one may raise
    TypeError first.) *)
Theorem pretty_print_table_bad_row (good : list (list cell))
  (row : list cell) (rest : list (list cell))
  (breakafter : breakafter_value) (tabsize n : nat) :
  0 < n ->
  Forall (text_row n) good ->
  breakafter <> BreakRows [] ->
  (In CellNumber row ->
   pretty_print_table (good ++ row :: rest) breakafter tabsize
   = ([], Some PrintAttributeError))
  /\ (row = [] ->
      pretty_print_table (good ++ row :: rest) breakafter tabsize
      = ([], Some PrintValueError)).
Proof.
  intros Hn Hgood Hb.
  assert (exists rowindex colwidths table_lines,
             scan_rows tabsize breakafter
               (length (good ++ row :: rest) - 1) 0 (good ++ row :: rest)
               [] []
             = scan_rows tabsize breakafter
                 (length (good ++ row :: rest) - 1) rowindex (row :: rest)
                 colwidths table_lines) as (rowindex & cw & tl & E).
  { destruct good as [|g good'].
    - exists 0, [], []. reflexivity.
    - destruct (scan_rows_prefix tabsize breakafter
                  (length ((g :: good') ++ row :: rest) - 1) n (g :: good')
                  Hb Hn ltac:(discriminate) Hgood)
        as (cw & tl & closed & E & _).
      exists (length (g :: good')), cw, tl. apply E. }
  unfold pretty_print_table. cbv zeta. rewrite E. split.
  - intros Hin. cbn [scan_rows].
    rewrite (row_cells_number tabsize row Hin). reflexivity.
  - intros ->. reflexivity.
Qed.

(** X15.  With the empty list as [breakafter], a table of two rows or
    more whose first row is not empty and holds no number makes
    [pretty_print_table] raise TypeError, the empty list being what
    [separate] is and what a list is multiplied by; nothing is
    written. *)
Theorem pretty_print_table_empty_breakafter (first : list cell)
  (rest : list (list cell)) (tabsize : nat) :
  first <> [] ->
  ~ In CellNumber first ->
  rest <> [] ->
  pretty_print_table (first :: rest) (BreakRows []) tabsize
  = ([], Some PrintTypeError).
Proof.
  intros Hf Hnum Hrest.
  destruct (row_cells_text tabsize first Hnum) as (cells & Ec & Lc).
  unfold pretty_print_table. cbv zeta. cbn [scan_rows]. rewrite Ec.
  destruct cells as [|c cells].
  { destruct first; [contradiction Hf; reflexivity|discriminate]. }
  cbv zeta.
  destruct rest as [|r rest']; [contradiction Hrest; reflexivity|].
  reflexivity.
Qed.

Lemma pretty_print_table_box_witness :
  exists colwidths lines,
    pretty_print_table multiline_table BreakTrue 8 = (lines, None)
    /\ length colwidths = 3
    /\ hd [] lines = border colwidths
    /\ last lines [] = border colwidths
    /\ Forall (fun line =>
                 length line = list_sum colwidths + 3 * 3 + 2
                 /\ (line = border colwidths
                     \/ exists body,
                         line = u "| " ++ body ++ u " |" ++ newline))
              lines.
Proof.
  apply (pretty_print_table_box multiline_table BreakTrue 8 3).
  - discriminate.
  - lia.
  - repeat constructor; intros Hin; cbn [In] in Hin;
      repeat (destruct Hin as [Hin|Hin]; [discriminate|]); exact Hin.
  - discriminate.
Defined.

Lemma pretty_print_table_bad_row_witness :
  pretty_print_table docstring_table (BreakRows [0]) 8
  = ([], Some PrintAttributeError).
Proof.
  apply (pretty_print_table_bad_row
           [ [CellStr (u "Name"); CellStr (u "Age");
              CellStr (u "Favorite Color")] ]
           [CellStr (u "Bob"); CellNumber; CellStr (u "Blue")]
           [ [CellStr (u "Rob"); CellNumber; CellStr (u "Red")] ]
           (BreakRows [0]) 8 3).
  - lia.
  - repeat constructor; intros Hin; cbn [In] in Hin;
      repeat (destruct Hin as [Hin|Hin]; [discriminate|]); exact Hin.
  - discriminate.
  - right. left. reflexivity.
Defined.

Lemma pretty_print_table_empty_breakafter_witness :
  pretty_print_table abc_table (BreakRows []) 8
  = ([], Some PrintTypeError).
Proof.
  apply (pretty_print_table_empty_breakafter
           [CellStr (u "A"); CellStr (u "B"); CellStr (u "C")]
           [ [CellStr (u "1"); CellStr (u "2"); CellStr (u "3")];
             [CellStr (u "3"); CellStr (u "9"); CellStr (u "27")] ] 8).
  - discriminate.
  - intros Hin; cbn [In] in Hin;
      repeat (destruct Hin as [Hin|Hin]; [discriminate|]); exact Hin.
  - discriminate.
Defined.

(** [test_pretty_print_table_embedded_newlines_and_tabs]. *)
Example pretty_print_table_test :
  pretty_print_table multiline_table BreakTrue 8
  = ([ u "+---+-----------+-----+" ++ newline;
       u "| A | B         | C   |" ++ newline;
       u "+---+-----------+-----+" ++ newline;
       u "| 1 | 2         | 3   |" ++ newline;
       u "|   |           |   X |" ++ newline;
       u "|   |         T |     |" ++ newline;
       u "+---+-----------+-----+" ++ newline;
       u "| 3 | 9         | 27  |" ++ newline;
       u "+---+-----------+-----+" ++ newline ],
     None).
Proof. vm_compute. reflexivity. Qed.

(** ** A blank record among the sniffed ones *)

Lemma heads_empty_row {A : Type} (table : list (list A)) :
  In [] table -> heads table = None.
Proof.
  induction table as [|row table IH]; intros Hin; [contradiction Hin|].
  destruct row as [|x row]; [reflexivity|].
  destruct Hin as [Hrow|Hin]; [discriminate|].
  cbn [heads]. rewrite (IH Hin). reflexivity.
Qed.

Lemma zip_star_empty_row {A : Type} (table : list (list A)) :
  In [] table -> zip_star table = [].
Proof.
  intros Hin. unfold zip_star.
  destruct table as [|first rest]; [reflexivity|].
  destruct (length first); [reflexivity|].
  cbn [zip_rounds]. rewrite (heads_empty_row _ Hin). reflexivity.
Qed.

Section BlankRecord.
Context {H : Host}.

(** X16.  The records of a blank line are empty.  When one of the first
    twenty records, the first apart, is empty, no column is seen by
    [detect_types], with or without the first record; so a [loadfile]
    that is to create the table raises ValueError, "Must specify
    types.", whatever the other records are.  No statement has been sent
    to the engine, no warning logged, and the connection is rolled
    back. *)
Theorem loadfile_blank_record (self : importer) (filename tablename : str)
  (file : csv_file) (w : world) :
  sniffs file = true ->
  In [] (tl (firstn 20 (records file))) ->
  loadfile self filename file tablename true w
  = (Raise (mkExc ValueError [u "Must specify types."]),
     mkWorld (rollback (dbc w)) (sent w) (warnings w)).
Proof.
  intros Hs Hin.
  assert (In [] (firstn 20 (records file))) as Hin'.
  { destruct (firstn 20 (records file)); [contradiction Hin|].
    right. exact Hin. }
  unfold loadfile. rewrite Hs. cbn [negb]. cbv zeta.
  unfold detect_schema, detect_types.
  rewrite (zip_star_empty_row _ Hin'), (zip_star_empty_row _ Hin).
  cbn [detect_columns strs_eqb negb]. cbv zeta.
  unfold load_rows, with_dbc, bind. cbn [types columns].
  rewrite create_table_no_types. reflexivity.
Qed.

End BlankRecord.

Lemma loadfile_blank_record_witness :
  @loadfile ascii_host (mkImporter false false) (u "t.csv")
    (mkFile true [ [u "a"; u "b"]; []; [u "1"; u "2"] ]) (u "t") true fresh
  = (Raise (mkExc ValueError [u "Must specify types."]),
     mkWorld (rollback (dbc fresh)) (sent fresh) (warnings fresh)).
Proof.
  apply (@loadfile_blank_record ascii_host).
  - reflexivity.
  - left. reflexivity.
Defined.
